(** * Gaze-controlled interface: mapping, smoothing, dwell selection, evaluation

    A shallow embedding of [main_interface.py] ([MainInterface.check_gaze]) and
    of [calibration_ui.py] ([CalibrationWindow.run_evaluation]), and the
    properties of the specification stated over it.

    Python floats are IEEE-754 binary64 numbers: they are embedded as Rocq's
    primitive [float]s, whose operations are specified by [SpecFloat].  Python
    integers are embedded as [Z].  Exceptions are embedded with an error monad.
    Library code the two files call (Qt's [QRect] and [QElapsedTimer], numpy's
    [norm], [mean], [clip] and [round], Python's operators on the values of
    a JSON file) is embedded from its documented behaviour; [math.acos], the
    drawing calls and the gaze tracker are parameters. *)

From Stdlib Require Import ZArith String List Bool Lia Floats PeanoNat.
Import ListNotations.

#[local] Set Warnings "-inexact-float,-abstract-large-number,-register-all".
#[local] Open Scope Z_scope.

(* ================================================================== *)
(** * Part I: the embedding *)
(* ================================================================== *)

(** ** Python values: exceptions, floats, lists *)

Module Py.

Inductive py_error : Set :=
| KeyError
| IndexError
| ValueError
| OverflowError
| ZeroDivisionError
| TypeError
| MemoryError.

Inductive result (A : Type) : Type :=
| Ok (a : A)
| Raise (e : py_error).
Arguments Ok {A} a.
Arguments Raise {A} e.

Definition bind {A B : Type} (c : result A) (k : A -> result B) : result B :=
  match c with
  | Ok a => k a
  | Raise e => Raise e
  end.

Fixpoint mapM {A B : Type} (f : A -> result B) (l : list A) : result (list B) :=
  match l with
  | [] => Ok []
  | a :: r =>
      bind (f a) (fun b => bind (mapM f r) (fun bs => Ok (b :: bs)))
  end.

(** [l[i]] for a non-negative index [i]. *)
Definition getitem {A : Type} (l : list A) (i : nat) : result A :=
  match nth_error l i with
  | Some a => Ok a
  | None => Raise IndexError
  end.

(** [float(z)]: the nearest double, ties to even.  (Python raises
    [OverflowError] for integers beyond the double range; every integer
    converted here is a screen coordinate, a count or a small constant.) *)
Definition float_of_int (z : Z) : float :=
  SF2Prim (binary_normalize prec emax z 0 false).

(** Truncation toward zero of a finite double. *)
Definition trunc_sf (x : spec_float) : option Z :=
  match x with
  | S754_zero _ => Some 0
  | S754_finite s m e =>
      Some (cond_Zopp s
              match e with
              | Zneg p => Z.shiftr (Zpos m) (Zpos p)
              | _ => Z.shiftl (Zpos m) e
              end)
  | S754_infinity _ | S754_nan => None
  end.

(** [int(x)]: truncation toward zero; [OverflowError] on an infinity,
    [ValueError] on a NaN. *)
Definition py_int (x : float) : result Z :=
  match Prim2SF x with
  | S754_infinity _ => Raise OverflowError
  | S754_nan => Raise ValueError
  | f => match trunc_sf f with Some z => Ok z | None => Raise ValueError end
  end.

(** [x / y] on floats: [ZeroDivisionError] when [y == 0.0]. *)
Definition truediv (x y : float) : result float :=
  if (y =? 0)%float then Raise ZeroDivisionError else Ok (x / y)%float.

(** [max(a, b)] and [min(a, b)]: the first argument is kept unless the second
    is strictly greater (smaller). *)
Definition max2 (a b : float) : float := if (a <? b)%float then b else a.
Definition min2 (a b : float) : float := if (b <? a)%float then b else a.

(** [max(l)] and [min(l)] over a list: [ValueError] on the empty list. *)
Definition max_list (l : list float) : result float :=
  match l with
  | [] => Raise ValueError
  | x :: r => Ok (fold_left max2 r x)
  end.

Definition min_list (l : list float) : result float :=
  match l with
  | [] => Raise ValueError
  | x :: r => Ok (fold_left min2 r x)
  end.

(** Classes of doubles, read on the specification side. *)
Definition sf_finite (x : spec_float) : bool :=
  match x with
  | S754_zero _ | S754_finite _ _ _ => true
  | S754_infinity _ | S754_nan => false
  end.

Definition finite (x : float) : bool := sf_finite (Prim2SF x).

Definition sf_is_zero (x : spec_float) : bool :=
  match x with
  | S754_zero _ => true
  | _ => false
  end.

Definition is_zero (x : float) : bool := sf_is_zero (Prim2SF x).

End Py.

Import Py.

Declare Scope py_scope.
Delimit Scope py_scope with py.
Notation "x <- c ;; k" := (bind c (fun x => k))
  (at level 61, c at next level, right associativity) : py_scope.
Notation "' p <- c ;; k" := (bind c (fun x => match x with p => k end))
  (at level 61, p pattern, c at next level, right associativity) : py_scope.
#[local] Open Scope py_scope.

(** ** [main_interface.py] *)

Module Main.

(** [calibration_points]: the table loaded from [calibration_data.json], a
    dict from anchor name to the list [[count, reserved, dx, dy, width]], in
    the order of the file.  The JSON numbers of a record are read as
    doubles; a name occurs once, as in a dict. *)
Definition calibration : Type := list (string * list float).

(** [calibration_points[name]] *)
Fixpoint lookup (name : string) (cal : calibration) : result (list float) :=
  match cal with
  | [] => Raise KeyError
  | (k, v) :: rest => if String.eqb k name then Ok v else lookup name rest
  end.

(** [[val[i] for val in calibration_points.values()]] *)
Definition column (i : nat) (cal : calibration) : result (list float) :=
  mapM (fun kv => getitem (snd kv) i) cal.

Definition INVERT_X : bool := true.
Definition INVERT_Y : bool := false.
Definition dir_x : Z := if INVERT_X then -1 else 1.
Definition dir_y : Z := if INVERT_Y then -1 else 1.

(** Lines 77-86: the per-axis gain. *)
Definition axis_range (all_d : list float) : result float :=
  hi <- max_list all_d ;;
  lo <- min_list all_d ;;
  Ok (hi - lo)%float.

Definition axis_scale (extent : Z) (d_range : float) : result float :=
  q <- truediv (float_of_int extent) (d_range * 0.8)%float ;;
  Ok (min2 q 40000%float).

(** Lines 93-94, one axis: the offset relative to the centre is scaled,
    truncated and added to the screen centre. *)
Definition project_axis (extent dir : Z) (d_relative SCALE : float) : result Z :=
  i <- py_int (float_of_int dir * d_relative * SCALE)%float ;;
  Ok (extent / 2 + i).

Definition clamp (extent v : Z) : Z := Z.max 0 (Z.min (extent - 1) v).

(** Lines 77-89 of [check_gaze]: what the table and the screen size fix,
    [(SCALE_X, SCALE_Y, center_dx, center_dy)]. *)
Definition calibration_model (cal : calibration) (screen_w screen_h : Z)
  : result (float * float * float * float) :=
  all_dx <- column 2 cal ;;
  all_dy <- column 3 cal ;;
  dx_range <- axis_range all_dx ;;
  dy_range <- axis_range all_dy ;;
  let dy_range := max2 dy_range 0.01%float in
  let dx_range := max2 dx_range 0.01%float in
  SCALE_X <- axis_scale screen_w dx_range ;;
  SCALE_Y <- axis_scale screen_h dy_range ;;
  center_dx <- (row <- lookup "Center" cal ;; getitem row 2) ;;
  center_dy <- (row <- lookup "Center" cal ;; getitem row 3) ;;
  Ok (SCALE_X, SCALE_Y, center_dx, center_dy).

(** Lines 90-96 of [check_gaze]. *)
Definition project_with (model : float * float * float * float)
  (screen_w screen_h : Z) (smoothed_dx smoothed_dy : float) : result (Z * Z) :=
  let '(SCALE_X, SCALE_Y, center_dx, center_dy) := model in
  let dx_relative := (smoothed_dx - center_dx)%float in
  let dy_relative := (smoothed_dy - center_dy)%float in
  screen_x <- project_axis screen_w dir_x dx_relative SCALE_X ;;
  screen_y <- project_axis screen_h dir_y dy_relative SCALE_Y ;;
  Ok (clamp screen_w screen_x, clamp screen_h screen_y).

(** Lines 68-96 of [check_gaze]: from the latest offsets to the clamped
    screen point [(screen_x, screen_y)]. *)
Definition project (cal : calibration) (screen_w screen_h : Z)
  (smoothed_dx smoothed_dy : float) : result (Z * Z) :=
  model <- calibration_model cal screen_w screen_h ;;
  project_with model screen_w screen_h smoothed_dx smoothed_dy.

(** Lines 99-100, one axis: [int(prev + 0.2 * (screen - prev))]. *)
Definition smooth_axis (prev target : Z) : result Z :=
  py_int (float_of_int prev + 0.2 * float_of_int (target - prev))%float.

(** [QRect]: the corners, both inclusive. *)
Record QRect : Set := mkQRect { x1 : Z; y1 : Z; x2 : Z; y2 : Z }.

(** [QRect.moveTopLeft(p)] keeps the size. *)
Definition moveTopLeft (r : QRect) (p : Z * Z) : QRect :=
  {| x1 := fst p; y1 := snd p;
     x2 := x2 r + (fst p - x1 r); y2 := y2 r + (snd p - y1 r) |}.

(** [QRect.contains(p)], edges included. *)
Definition contains (r : QRect) (p : Z * Z) : bool :=
  let '(l, rr) := if x2 r <? x1 r - 1 then (x2 r, x1 r) else (x1 r, x2 r) in
  let '(t, b) := if y2 r <? y1 r - 1 then (y2 r, y1 r) else (y1 r, y2 r) in
  negb ((fst p <? l) || (rr <? fst p)) && negb ((snd p <? t) || (b <? snd p)).

(** A button: its identity as an object, [mapToGlobal(QPoint(0, 0))] and
    [geometry()]. *)
Record Button : Set := mkButton {
  btn_id : nat;
  btn_global : Z * Z;
  btn_geometry : QRect
}.

(** Lines 106-108 *)
Definition btn_rect (btn : Button) : QRect :=
  moveTopLeft (btn_geometry btn) (btn_global btn).

(** The dwell state: [self.hovered_button] and [self.hover_timer]; the timer
    is [None] when invalid and holds its start time (ms) otherwise. *)
Record Dwell : Set := mkDwell {
  hovered_button : option nat;
  hover_timer : option Z
}.

Definition same_button (h : option nat) (btn : Button) : bool :=
  match h with
  | Some i => Nat.eqb i (btn_id btn)
  | None => false
  end.

Definition DWELL_MS : Z := 2000.

Section Tick.

(** What [QElapsedTimer.hasExpired] answers on an invalidated timer at clock
    reading [now].  Qt's documentation leaves it undefined; the timer of
    PyQt5 answers [True]. *)
Variable invalid_expired : Z -> bool.

(** [hover_timer.hasExpired(timeout)] at clock reading [now]: more than
    [timeout] ms have elapsed. *)
Definition hasExpired (timer : option Z) (now timeout : Z) : bool :=
  match timer with
  | Some start => timeout <? now - start
  | None => invalid_expired now
  end.

(** Lines 105-121: the [for ... break ... else] loop over [self.buttons],
    tested against the point [pt]; returns the new dwell state and the
    button clicked, if any. *)
Fixpoint scan_buttons (buttons : list Button) (pt : Z * Z) (now : Z)
  (d : Dwell) : Dwell * option nat :=
  match buttons with
  | [] => ({| hovered_button := None; hover_timer := None |}, None)
  | btn :: rest =>
      if contains (btn_rect btn) pt then
        if negb (same_button (hovered_button d) btn) then
          ({| hovered_button := Some (btn_id btn); hover_timer := Some now |},
           None)
        else if hasExpired (hover_timer d) now DWELL_MS then
          ({| hovered_button := hovered_button d; hover_timer := None |},
           Some (btn_id btn))
        else (d, None)
      else scan_buttons rest pt now d
  end.

(** The state [check_gaze] keeps between ticks. *)
Record State : Set := mkState {
  prev_cursor_pos : Z * Z;
  dwell : Dwell
}.

(** What one tick reads: the latest offsets, the screen size, the buttons of
    the current screen and the clock. *)
Record Tick : Set := mkTick {
  offsets : float * float;
  screen : Z * Z;
  buttons : list Button;
  now : Z
}.

(** What one tick does: [pyautogui.moveTo] and, possibly, [btn.click()]. *)
Record Effects : Set := mkEffects {
  moved_to : Z * Z;
  clicked : option nat
}.

(** [MainInterface.check_gaze].  An exception leaves the state as it was:
    every statement that can raise precedes the first assignment to it. *)
Definition check_gaze (cal : calibration) (st : State) (tk : Tick)
  : result (State * Effects) :=
  let '(smoothed_dx, smoothed_dy) := offsets tk in
  let '(screen_w, screen_h) := screen tk in
  ' (screen_x, screen_y) <- project cal screen_w screen_h smoothed_dx smoothed_dy ;;
  let '(prev_x, prev_y) := prev_cursor_pos st in
  smooth_x <- smooth_axis prev_x screen_x ;;
  smooth_y <- smooth_axis prev_y screen_y ;;
  let '(d, click) :=
    scan_buttons (buttons tk) (screen_x, screen_y) (now tk) (dwell st) in
  Ok ({| prev_cursor_pos := (smooth_x, smooth_y); dwell := d |},
      {| moved_to := (smooth_x, smooth_y); clicked := click |}).

(** Consecutive ticks, stopping at the first exception. *)
Fixpoint run (cal : calibration) (st : State) (tks : list Tick)
  : result (State * list Effects) :=
  match tks with
  | [] => Ok (st, [])
  | tk :: rest =>
      ' (st1, e) <- check_gaze cal st tk ;;
      ' (st2, es) <- run cal st1 rest ;;
      Ok (st2, e :: es)
  end.

(** The dwell loop alone over a sequence of tested points and clock
    readings. *)
Fixpoint dwell_run (btns : list Button) (d : Dwell) (pts : list ((Z * Z) * Z))
  : Dwell * list (option nat) :=
  match pts with
  | [] => (d, [])
  | (pt, t) :: rest =>
      let '(d1, c) := scan_buttons btns pt t d in
      let '(d2, cs) := dwell_run btns d1 rest in
      (d2, c :: cs)
  end.

End Tick.

End Main.

(** ** [calibration_ui.py] *)

Module Calib.

Import Main.

(** The nine anchors: name, fraction of the screen, key. *)
Definition positions : list (string * (float * float * string)) :=
  [ ("Top-Left",     (0.0, 0.0, "q"));
    ("Top",          (0.5, 0.0, "w"));
    ("Top-Right",    (1.0, 0.0, "e"));
    ("Far-Left",     (0.0, 0.5, "a"));
    ("Center",       (0.5, 0.5, "c"));
    ("Far-Right",    (1.0, 0.5, "d"));
    ("Bottom-Left",  (0.0, 1.0, "z"));
    ("Bottom",       (0.5, 1.0, "s"));
    ("Bottom-Right", (1.0, 1.0, "x")) ]%float%string.

(** [positions[name]], [None] when [name not in positions]. *)
Fixpoint positions_get (name : string)
  (ps : list (string * (float * float * string)))
  : option (float * float * string) :=
  match ps with
  | [] => None
  | (k, v) :: rest => if String.eqb k name then Some v else positions_get name rest
  end.

(** Lines 132-154: the loop that builds [predicted] and [ground_truth],
    zipped.  An entry is skipped when [len(values) != 5] or when its name is
    not an anchor. *)
Fixpoint collect (calib : calibration) (screen_w screen_h : Z)
  : list ((float * float) * (float * float)) :=
  match calib with
  | [] => []
  | (name, values) :: rest =>
      match values with
      | [_; _; dx; dy; w] =>
          match positions_get name positions with
          | None => collect rest screen_w screen_h
          | Some (x_frac, y_frac, _) =>
              let gx := (x_frac * float_of_int screen_w)%float in
              let gy := (y_frac * float_of_int screen_h)%float in
              let px := (gx + dx * w)%float in
              let py := (gy + dy * w)%float in
              ((px, py), (gx, gy)) :: collect rest screen_w screen_h
          end
      | _ => collect rest screen_w screen_h
      end
  end.

(** Line 162: [np.linalg.norm(pred - gt, axis=1)], one row. *)
Definition euclid (pg : (float * float) * (float * float)) : float :=
  let '((px, py), (gx, gy)) := pg in
  let ex := (px - gx)%float in
  let ey := (py - gy)%float in
  PrimFloat.sqrt (ex * ex + ey * ey)%float.

(** [np.mean]: the sum of the entries over their number.  (The order in
    which numpy adds the entries is its own; no statement below depends on
    it.) *)
Definition np_sum (l : list float) : float :=
  match l with
  | [] => 0%float
  | x :: r => fold_left PrimFloat.add r x
  end.

Definition np_mean (l : list float) : float :=
  (np_sum l / float_of_int (Z.of_nat (List.length l)))%float.

Definition thresholds : list Z := [20; 40; 60; 80; 100].

(** Line 174, one threshold: [(euclidean < t).sum()] and its quotient by
    [len(euclidean)]. *)
Definition hits (euclidean : list float) (t : float) : nat :=
  List.length (filter (fun e => (e <? t)%float) euclidean).

Definition accuracy_at (euclidean : list float) (t : float) : float :=
  (float_of_int (Z.of_nat (hits euclidean t))
   / float_of_int (Z.of_nat (List.length euclidean)))%float.

(** [np.rint]: nearest integer, ties to even, the sign kept. *)
Definition rint (x : float) : float :=
  let a := PrimFloat.abs x in
  let r :=
    if (a <? 0x1p52)%float then (a + 0x1p52 - 0x1p52)%float else a in
  if get_sign x then (- r)%float else r.

(** [round(x, 2)] on a numpy double: [rint(x * 100) / 100]. *)
Definition round2 (x : float) : float := (rint (x * 100) / 100)%float.

(** Lines 199-203: the heat-map cell of each prediction. *)
Definition heat_cell (screen_w screen_h : Z) (p : float * float)
  : result (Z * Z) :=
  xi <- py_int (fst p) ;;
  yi <- py_int (snd p) ;;
  Ok (Z.min (screen_h - 1) (Z.max 0 yi), Z.min (screen_w - 1) (Z.max 0 xi)).

(** [np.clip(x, -1, 1)] *)
Definition clip1 (x : float) : float :=
  if (x <? -1)%float then (-1)%float
  else if (1 <? x)%float then 1%float else x.

Record Summary : Set := mkSummary {
  mean_euclidean_distance_px : float;
  mean_angular_error_deg : float;
  accuracy_thresholds_px : list Z;
  accuracy_percentages : list float
}.

Section Evaluation.

(** [math.acos] *)
Variable acos : float -> float.

(** [math.degrees] *)
Definition degrees (x : float) : float := (x * (180 / 0x1.921fb54442d18p+1))%float.

(** Lines 165-169 *)
Definition ang_err (p g : float * float) : float :=
  let dot := (fst p * fst g + snd p * snd g + 1 * 1)%float in
  let np := PrimFloat.sqrt (fst p * fst p + snd p * snd p + 1 * 1)%float in
  let ng := PrimFloat.sqrt (fst g * fst g + snd g * snd g + 1 * 1)%float in
  degrees (acos (clip1 (dot / (np * ng))%float)).

(** Lines 160-174 and 223-228: the statistics of a non-empty list of
    (prediction, ground truth) pairs. *)
Definition summarize (pairs : list ((float * float) * (float * float)))
  : Summary :=
  let euclidean := map euclid pairs in
  let mean_euc := np_mean euclidean in
  let angular := map (fun pg => ang_err (fst pg) (snd pg)) pairs in
  let mean_ang := np_mean angular in
  let accuracy :=
    map (fun t => accuracy_at euclidean (float_of_int t)) thresholds in
  {| mean_euclidean_distance_px := round2 mean_euc;
     mean_angular_error_deg := round2 mean_ang;
     accuracy_thresholds_px := thresholds;
     accuracy_percentages := map (fun a => round2 (a * 100)%float) accuracy |}.

(** [CalibrationWindow.run_evaluation] on a table of records of numbers:
    [Ok None] when it returns at line 158 without a summary, [Ok (Some s)]
    when it writes the summary [s].  The plotting calls are taken to
    succeed; matplotlib raises on data it cannot draw ([plt.hist] on an
    infinite distance error), and [Loaded.run_evaluation] below lets it. *)
Definition run_evaluation (calib : calibration) (screen_w screen_h : Z)
  : result (option Summary) :=
  let pairs := collect calib screen_w screen_h in
  match pairs with
  | [] => Ok None
  | _ :: _ =>
      _ <- mapM (heat_cell screen_w screen_h) (map fst pairs) ;;
      Ok (Some (summarize pairs))
  end.

End Evaluation.

End Calib.

(** ** [calibration_ui.py] on any file that [json.load] accepts *)

Module Loaded.

Import Main Calib.

(** A value that [json.load] returns: [None], a bool, an int, a float, a
    str (the sequence of its characters), a list, or a dict with str
    keys. *)
Inductive value : Type :=
| Null
| Bool (b : bool)
| Int (z : Z)
| Float (x : float)
| Str (s : string)
| List (l : list value)
| Dict (d : list (string * value)).

(** [len(v)]: [TypeError] on a value without a length. *)
Definition py_len (v : value) : result nat :=
  match v with
  | Str s => Ok (String.length s)
  | List l => Ok (List.length l)
  | Dict d => Ok (List.length d)
  | Null | Bool _ | Int _ | Float _ => Raise TypeError
  end.

(** [v[i]] for a non-negative int [i]: an element of a list, a character of
    a str; a dict has str keys only, so [KeyError]; [TypeError] on a value
    that is not subscriptable. *)
Definition py_getitem (v : value) (i : nat) : result value :=
  match v with
  | List l => getitem l i
  | Str s =>
      match String.get i s with
      | Some c => Ok (Str (String c EmptyString))
      | None => Raise IndexError
      end
  | Dict _ => Raise KeyError
  | Null | Bool _ | Int _ | Float _ => Raise TypeError
  end.

(** An int operand: a bool counts as 0 or 1. *)
Definition as_int (v : value) : option Z :=
  match v with
  | Bool b => Some (if b then 1 else 0)
  | Int z => Some z
  | _ => None
  end.

(** The conversion of an int operand of a float operation:
    [OverflowError] when the nearest double is not finite. *)
Definition py_float (z : Z) : result float :=
  let f := float_of_int z in
  if finite f then Ok f else Raise OverflowError.

Fixpoint repeat_string (s : string) (n : nat) : string :=
  match n with
  | O => EmptyString
  | S k => String.append s (repeat_string s k)
  end.

Fixpoint repeat_list {A : Type} (l : list A) (n : nat) : list A :=
  match n with
  | O => []
  | S k => l ++ repeat_list l k
  end.

(** What a drawing or array call of numpy, matplotlib and seaborn is
    given. *)
Inductive Drawing : Type :=
| Hist (data : list float)
| Line (xs : list Z) (ys : list float)
| Zeros (rows cols : Z)
| Heatmap (cells : list (Z * Z))
| Scatter (gt pred : list (float * float)).

Section Evaluation.

(** [math.acos] *)
Variable acos : float -> float.

(** The calls of lines 177-221 into numpy, matplotlib and seaborn, with
    [plt.savefig]: code of other libraries, which may raise. *)
Variable draw : Drawing -> result unit.

(** What the repetition of a sequence of [len] elements [count] times
    raises, [None] when it returns: [OverflowError] or [MemoryError] when
    the count or the result does not fit the machine. *)
Variable repeat_error : nat -> Z -> option py_error.

(** [a * b] *)
Definition py_mul (a b : value) : result value :=
  match a, b with
  | Float x, Float y => Ok (Float (x * y))
  | Float x, _ =>
      match as_int b with
      | Some n => f <- py_float n ;; Ok (Float (x * f))
      | None => Raise TypeError
      end
  | _, Float y =>
      match as_int a with
      | Some n => f <- py_float n ;; Ok (Float (f * y))
      | None => Raise TypeError
      end
  | Str s, _ =>
      match as_int b with
      | Some n =>
          match repeat_error (String.length s) n with
          | Some e => Raise e
          | None => Ok (Str (repeat_string s (Z.to_nat n)))
          end
      | None => Raise TypeError
      end
  | _, Str s =>
      match as_int a with
      | Some n =>
          match repeat_error (String.length s) n with
          | Some e => Raise e
          | None => Ok (Str (repeat_string s (Z.to_nat n)))
          end
      | None => Raise TypeError
      end
  | List l, _ =>
      match as_int b with
      | Some n =>
          match repeat_error (List.length l) n with
          | Some e => Raise e
          | None => Ok (List (repeat_list l (Z.to_nat n)))
          end
      | None => Raise TypeError
      end
  | _, List l =>
      match as_int a with
      | Some n =>
          match repeat_error (List.length l) n with
          | Some e => Raise e
          | None => Ok (List (repeat_list l (Z.to_nat n)))
          end
      | None => Raise TypeError
      end
  | _, _ =>
      match as_int a, as_int b with
      | Some m, Some n => Ok (Int (m * n))
      | _, _ => Raise TypeError
      end
  end.

(** [g + v] for a float [g] *)
Definition py_add (g : float) (v : value) : result float :=
  match v with
  | Float y => Ok (g + y)%float
  | Bool _ | Int _ =>
      match as_int v with
      | Some n => f <- py_float n ;; Ok (g + f)%float
      | None => Raise TypeError
      end
  | Null | Str _ | List _ | Dict _ => Raise TypeError
  end.

(** Lines 133-154, one entry of the table: no pair when the entry is
    skipped, one pair otherwise. *)
Definition entry (screen_w screen_h : Z) (name : string) (values : value)
  : result (list ((float * float) * (float * float))) :=
  n <- py_len values ;;
  if negb (n =? 5)%nat then Ok []
  else
    match positions_get name positions with
    | None => Ok []
    | Some (x_frac, y_frac, _) =>
        let gx := (x_frac * float_of_int screen_w)%float in
        let gy := (y_frac * float_of_int screen_h)%float in
        dx <- py_getitem values 2 ;;
        dy <- py_getitem values 3 ;;
        w <- py_getitem values 4 ;;
        px <- (m <- py_mul dx w ;; py_add gx m) ;;
        py <- (m <- py_mul dy w ;; py_add gy m) ;;
        Ok [((px, py), (gx, gy))]
    end.

(** Lines 132-154: the loop over the items of the loaded dict, in the order
    of the file, stopping at the first exception. *)
Fixpoint collect (calib : list (string * value)) (screen_w screen_h : Z)
  : result (list ((float * float) * (float * float))) :=
  match calib with
  | [] => Ok []
  | (name, values) :: rest =>
      pair <- entry screen_w screen_h name values ;;
      more <- collect rest screen_w screen_h ;;
      Ok (pair ++ more)
  end.

(** Lines 200-203: the cell of a prediction and its increment;
    [IndexError] when the clamped index is negative, on an array without
    rows or columns. *)
Definition heat_index (screen_w screen_h : Z) (p : float * float)
  : result (Z * Z) :=
  ' (yi, xi) <- heat_cell screen_w screen_h p ;;
  if (yi <? 0) || (xi <? 0) then Raise IndexError else Ok (yi, xi).

(** [CalibrationWindow.run_evaluation] on the loaded table: [Ok None]
    when it returns at line 158 without a summary, [Ok (Some s)] when it
    writes the summary [s]. *)
Definition run_evaluation (calib : list (string * value))
  (screen_w screen_h : Z) : result (option Summary) :=
  pairs <- collect calib screen_w screen_h ;;
  match pairs with
  | [] => Ok None
  | _ :: _ =>
      let euclidean := map euclid pairs in
      let angular := map (fun pg => ang_err acos (fst pg) (snd pg)) pairs in
      let accuracy :=
        map (fun t => accuracy_at euclidean (float_of_int t)) thresholds in
      _ <- draw (Hist euclidean) ;;
      _ <- draw (Hist angular) ;;
      _ <- draw (Line thresholds (map (fun a => a * 100)%float accuracy)) ;;
      _ <- draw (Zeros screen_h screen_w) ;;
      cells <- mapM (heat_index screen_w screen_h) (map fst pairs) ;;
      _ <- draw (Heatmap cells) ;;
      _ <- draw (Scatter (map snd pairs) (map fst pairs)) ;;
      Ok (Some (summarize acos pairs))
  end.

End Evaluation.

End Loaded.

(** ** [main_interface.py]: the window around [check_gaze] *)

Module Interface.

Import Main.

(** A screen widget of the stack: its identity as an object and its
    [buttons] attribute, [None] when the widget has none. *)
Record Screen : Set := mkScreen {
  screen_id : nat;
  screen_buttons : option (list Button)
}.

(** The attributes of [MainInterface] that its methods read and write:
    [stack.currentWidget()], [self.buttons], the final-message screen with
    the message it was last given, and what [check_gaze] keeps between
    ticks. *)
Record MainInterface : Set := mkMainInterface {
  current_widget : nat;
  self_buttons : list Button;
  final_message_screen : Screen;
  final_message : option string;
  gaze_state : State
}.

(** [MainInterface.__init__], lines 48-56: the main menu is shown, its
    buttons are the targets, nothing is hovered, the timer is a fresh
    [QElapsedTimer()] (invalid), and the cursor is where
    [pyautogui.position()] finds it. *)
Definition init (main_menu : nat) (menu_buttons : list Button)
  (final_screen : Screen) (position : Z * Z) : MainInterface :=
  {| current_widget := main_menu;
     self_buttons := menu_buttons;
     final_message_screen := final_screen;
     final_message := None;
     gaze_state :=
       {| prev_cursor_pos := position;
          dwell := {| hovered_button := None; hover_timer := None |} |} |}.

(** [MainInterface.switch_screen], lines 58-60:
    [getattr(screen_widget, "buttons", [])]. *)
Definition switch_screen (w : MainInterface) (screen_widget : Screen)
  : MainInterface :=
  {| current_widget := screen_id screen_widget;
     self_buttons :=
       match screen_buttons screen_widget with
       | Some btns => btns
       | None => []
       end;
     final_message_screen := final_message_screen w;
     final_message := final_message w;
     gaze_state := gaze_state w |}.

(** [MainInterface.show_final_message], lines 62-64. *)
Definition show_final_message (w : MainInterface) (message : string)
  : MainInterface :=
  switch_screen
    {| current_widget := current_widget w;
       self_buttons := self_buttons w;
       final_message_screen := final_message_screen w;
       final_message := Some message;
       gaze_state := gaze_state w |}
    (final_message_screen w).

(** What a timer tick reads from outside the window: the latest offsets,
    the screen size and the clock. *)
Record Reading : Set := mkReading {
  read_offsets : float * float;
  read_screen : Z * Z;
  read_now : Z
}.

Section Ticks.

Variable invalid_expired : Z -> bool.

(** [check_gaze] as the method of the window: the buttons are
    [self.buttons]. *)
Definition on_timeout (cal : calibration) (w : MainInterface) (r : Reading)
  : result (MainInterface * Effects) :=
  ' (st, eff) <-
    check_gaze invalid_expired cal (gaze_state w)
      {| offsets := read_offsets r; screen := read_screen r;
         buttons := self_buttons w; now := read_now r |} ;;
  Ok ({| current_widget := current_widget w;
         self_buttons := self_buttons w;
         final_message_screen := final_message_screen w;
         final_message := final_message w;
         gaze_state := st |}, eff).

End Ticks.

End Interface.

(** ** [calibration_ui.py]: the calibration steps *)

Module Steps.

Import Main Calib.

(** A marker label: where [label.move] put it and whether it is shown.  Its
    size is fixed, [label.setFixedSize(80, 80)]. *)
Record Label : Set := mkLabel {
  label_pos : Z * Z;
  label_visible : bool
}.

(** The width and the height of a marker label. *)
Definition DOT : Z := 80.

(** [self.labels], a dict from anchor name to label. *)
Definition labels_t : Type := list (string * Label).

(** [self.labels[name]] *)
Fixpoint labels_get (name : string) (ls : labels_t) : result Label :=
  match ls with
  | [] => Raise KeyError
  | (k, l) :: rest => if String.eqb k name then Ok l else labels_get name rest
  end.

(** A method call on the label object [self.labels[name]]: the label is
    replaced in place. *)
Fixpoint labels_set (name : string) (l : Label) (ls : labels_t) : labels_t :=
  match ls with
  | [] => []
  | (k, l0) :: rest =>
      if String.eqb k name then (k, l) :: rest
      else (k, l0) :: labels_set name l rest
  end.

(** [init_ui], lines 48-55: one hidden label per anchor, at the origin. *)
Definition init_ui : labels_t :=
  map (fun p => (fst p, {| label_pos := (0, 0); label_visible := false |}))
      positions.

(** Lines 85 and 88, one axis:
    [max(0, min(screen - dot, int(screen * frac - dot // 2)))]. *)
Definition marker_axis (extent dot : Z) (frac : float) : result Z :=
  x <- py_int (float_of_int extent * frac - float_of_int (dot / 2))%float ;;
  Ok (Z.max 0 (Z.min (extent - dot) x)).

(** The callbacks given to [QTimer.singleShot]. *)
Inductive Callback : Set :=
| ShowNextMarker
| RunEvaluation
| Close.

(** The methods of the gaze tracker that the window calls. *)
Inductive TrackerCall : Set :=
| CalibratePoint (name key_char : string)
| Train
| StartTracking.

(** What a handler does besides updating the window: calls on the tracker,
    [json.dump] of a table to [calibration_data.json], and single shots. *)
Inductive Action : Type :=
| Call (c : TrackerCall)
| Dump (cal : calibration)
| SingleShot (ms : Z) (cb : Callback).

Section Tracker.

(** The gaze tracker is code of another file: its state, what a call makes
    of it, and the table [gaze_tracker.calibration_points] read from it.
    Its calls are taken to return. *)
Variable Tracker : Type.
Variable tracker_call : TrackerCall -> Tracker -> Tracker.
Variable calibration_points : Tracker -> calibration.

(** The attributes of [CalibrationWindow] that its handlers read and write,
    with the size of the window. *)
Record CalibrationWindow : Type := mkCalibrationWindow {
  current_step : nat;
  labels : labels_t;
  gaze_tracker : Tracker;
  width : Z;
  height : Z
}.

(** [CalibrationWindow.__init__], lines 35-45; [keys_map] is
    [list(positions.items())], the table [positions] itself. *)
Definition init (tracker : Tracker) (screen_w screen_h : Z)
  : CalibrationWindow * list Action :=
  ({| current_step := 0; labels := init_ui; gaze_tracker := tracker;
      width := screen_w; height := screen_h |},
   [SingleShot 1000 ShowNextMarker]).

(** [CalibrationWindow.show_next_marker], lines 64-96.  The texts shown and
    printed are left out. *)
Definition show_next_marker (w : CalibrationWindow)
  : result (CalibrationWindow * list Action) :=
  match nth_error positions (current_step w) with
  | None =>
      let trained := tracker_call Train (gaze_tracker w) in
      let saved := calibration_points trained in
      Ok ({| current_step := current_step w; labels := labels w;
             gaze_tracker := tracker_call StartTracking trained;
             width := width w; height := height w |},
          [Call Train; Dump saved; Call StartTracking;
           SingleShot 1000 RunEvaluation; SingleShot 4000 Close])
  | Some (name, (x_frac, y_frac, key)) =>
      _ <- labels_get name (labels w) ;;
      x <- marker_axis (width w) DOT x_frac ;;
      y <- marker_axis (height w) DOT y_frac ;;
      Ok ({| current_step := current_step w;
             labels :=
               labels_set name
                 {| label_pos := (x, y); label_visible := true |} (labels w);
             gaze_tracker := gaze_tracker w;
             width := width w; height := height w |}, [])
  end.

(** [CalibrationWindow.keyPressEvent], lines 98-122, for a key event whose
    [text()] is [key_char].  Line 117 unpacks
    [calibration_points[name][2:]] into three names. *)
Definition keyPressEvent (w : CalibrationWindow) (key_char : string)
  : result (CalibrationWindow * list Action) :=
  match nth_error positions (current_step w) with
  | None => Ok (w, [])
  | Some (name, (_, _, expected_key)) =>
      if String.eqb key_char expected_key then
        label <- labels_get name (labels w) ;;
        let tracker :=
          tracker_call (CalibratePoint name key_char) (gaze_tracker w) in
        row <- lookup name (calibration_points tracker) ;;
        match skipn 2 row with
        | [_; _; _] =>
            Ok ({| current_step := current_step w + 1;
                   labels :=
                     labels_set name
                       {| label_pos := label_pos label;
                          label_visible := false |} (labels w);
                   gaze_tracker := tracker;
                   width := width w; height := height w |},
                [Call (CalibratePoint name key_char);
                 SingleShot 1000 ShowNextMarker])
        | _ => Raise ValueError
        end
      else Ok (w, [])
  end.

(** The events the window handles while it calibrates: a key press, and a
    single shot of [show_next_marker] that fires. *)
Inductive Event : Set :=
| KeyPress (text : string)
| Timeout.

Definition handle (w : CalibrationWindow) (ev : Event)
  : result (CalibrationWindow * list Action) :=
  match ev with
  | KeyPress key_char => keyPressEvent w key_char
  | Timeout => show_next_marker w
  end.

(** Consecutive events, stopping at the first exception; the actions are
    listed in the order they are done. *)
Fixpoint handle_all (w : CalibrationWindow) (evs : list Event)
  : result (CalibrationWindow * list Action) :=
  match evs with
  | [] => Ok (w, [])
  | ev :: rest =>
      ' (w1, acts) <- handle w ev ;;
      ' (w2, more) <- handle_all w1 rest ;;
      Ok (w2, acts ++ more)
  end.

End Tracker.

Arguments mkCalibrationWindow {Tracker}.
Arguments current_step {Tracker}.
Arguments labels {Tracker}.
Arguments gaze_tracker {Tracker}.
Arguments width {Tracker}.
Arguments height {Tracker}.
Arguments init {Tracker}.
Arguments show_next_marker {Tracker}.
Arguments keyPressEvent {Tracker}.
Arguments handle {Tracker}.
Arguments handle_all {Tracker}.

End Steps.

(* ================================================================== *)
(** * Part II: the vocabulary of the properties *)
(* ================================================================== *)

Import Main.

(** ** Doubles on the specification side *)

Module SFDefs.

#[local] Abbreviation fexp := (SpecFloat.fexp prec emax).

(** What rounding a mantissa of sign [s] returns: never a NaN. *)
Inductive rounded (s : bool) : spec_float -> Prop :=
| rounded_zero : rounded s (S754_zero s)
| rounded_finite m e : rounded s (S754_finite s m e)
| rounded_infinity : rounded s (S754_infinity s).

(** The same, zero excluded. *)
Inductive rounded_nonzero (s : bool) : spec_float -> Prop :=
| rounded_nz_finite m e : rounded_nonzero s (S754_finite s m e)
| rounded_nz_infinity : rounded_nonzero s (S754_infinity s).

(** The double of a positive integer below 2^53, with the sign [s]. *)
Definition sf_of_pos (s : bool) (m : positive) : spec_float :=
  let '(mz, ez) := shl_align m 0 (fexp (Zpos (digits2_pos m) + 0)) in
  S754_finite s mz ez.

(** The double of an integer of magnitude below 2^53. *)
Definition sf_of_int (z : Z) : spec_float :=
  match z with
  | Z0 => S754_zero false
  | Zpos m => sf_of_pos false m
  | Zneg m => sf_of_pos true m
  end.

(** Doubles that are at least 0.01 as [max(range, 0.01)] leaves them:
    +infinity, or positive with an exponent of at least -59. *)
Definition at_least_001 (f : spec_float) : Prop :=
  f = S754_infinity false \/ exists m e, f = S754_finite false m e /\ -59 <= e.

(** The doubles of the literals 0.01, 0.8 and 40000. *)
Definition sf_001 : spec_float := S754_finite false 5764607523034235 (-59).

Definition sf_08 : spec_float := S754_finite false 7205759403792794 (-53).

Definition sf_40000 : spec_float := S754_finite false 5497558138880000 (-37).

(** Non-negative finite doubles. *)
Definition nonneg_finite (f : spec_float) : Prop :=
  f = S754_zero false \/ exists m e, f = S754_finite false m e.

(** The value of a finite double, times 2^1074. *)
Definition scaled (f : spec_float) : Z :=
  match f with
  | S754_finite s m e => cond_Zopp s (Zpos m * 2 ^ (e + 1074))
  | _ => 0
  end.

(** A bound beyond the scaled value of every finite double. *)
Definition huge : Z := 2 ^ 2200.

(** A valid double that is not a NaN, as an integer: the infinities lie
    beyond every finite double. *)
Definition rank (f : spec_float) : Z :=
  match f with
  | S754_infinity false => huge
  | S754_infinity true => - huge
  | _ => scaled f
  end.

Definition not_nan (f : spec_float) : bool :=
  match f with S754_nan => false | _ => true end.

End SFDefs.

(** ** The dwell loop *)

Module DwellDefs.

(** The first button whose rectangle contains the point, in list order. *)
Definition hit (btns : list Button) (pt : Z * Z) : option Button :=
  find (fun b => contains (btn_rect b) pt) btns.

Definition on_target (btns : list Button) (i : nat) (pt : Z * Z) : Prop :=
  option_map btn_id (hit btns pt) = Some i.

Definition idle : Dwell := {| hovered_button := None; hover_timer := None |}.

Definition hovering (i : nat) (since : Z) : Dwell :=
  {| hovered_button := Some i; hover_timer := Some since |}.

Definition fired (i : nat) : Dwell :=
  {| hovered_button := Some i; hover_timer := None |}.

End DwellDefs.

(** ** Calibration tables *)

Module MappingDefs.

(** The table with the sample count (index 0) of every record replaced. *)
Definition with_counts (f : string -> float) (cal : calibration)
  : calibration :=
  map (fun kv =>
         (fst kv, match snd kv with [] => [] | _ :: r => f (fst kv) :: r end))
      cal.

(** A record of the persisted shape whose mean offsets are finite. *)
Definition finite_record (v : list float) : bool :=
  match v with
  | [_; _; dx; dy; _] => finite dx && finite dy
  | _ => false
  end.

Definition finite_table (cal : calibration) : bool :=
  forallb (fun kv => finite_record (snd kv)) cal.

End MappingDefs.

(** ** Smoothing *)

Module SmoothDefs.

(** The position after [n] ticks with the projected target held at [t]. *)
Fixpoint smooth_run (n : nat) (p t : Z) : result Z :=
  match n with
  | O => Ok p
  | S k => q <- smooth_axis p t ;; smooth_run k q t
  end.

Definition between (a b q : Z) : Prop := a <= q <= b \/ b <= q <= a.

End SmoothDefs.

(** ** Evaluation *)

Module EvalDefs.

Import Calib.

(** An entry is evaluated when its value has five elements and its name is
    one of the anchors. *)
Definition qualifies (kv : string * list float) : bool :=
  (length (snd kv) =? 5)%nat
  && match positions_get (fst kv) positions with Some _ => true | None => false end.

(** The (prediction, ground truth) pair of an entry that qualifies. *)
Definition entry_pair (screen_w screen_h : Z) (kv : string * list float)
  : list ((float * float) * (float * float)) :=
  match snd kv with
  | [_; _; dx; dy; w] =>
      match positions_get (fst kv) positions with
      | None => []
      | Some (x_frac, y_frac, _) =>
          let gx := (x_frac * float_of_int screen_w)%float in
          let gy := (y_frac * float_of_int screen_h)%float in
          [((gx + dx * w, gy + dy * w), (gx, gy))%float]
      end
  | _ => []
  end.

(** The entries that the loop passes over: the value has a length that is
    not 5, or it has length 5 and the name is not an anchor.  A value
    without a length is not among them. *)
Definition skipped (kv : string * Loaded.value) : bool :=
  match Loaded.py_len (snd kv) with
  | Ok n =>
      negb (n =? 5)%nat
      || match positions_get (fst kv) positions with
         | Some _ => false
         | None => true
         end
  | Raise _ => false
  end.

Definition evaluated (kv : string * Loaded.value) : bool := negb (skipped kv).

(** A table of records of numbers, as [json.load] returns it. *)
Definition loaded (cal : calibration) : list (string * Loaded.value) :=
  map (fun kv => (fst kv, Loaded.List (map Loaded.Float (snd kv)))) cal.

(** The quotients [c / n] of the counts up to nine, in order. *)
Definition quotients_ordered (n : nat) : bool :=
  forallb (fun c1 =>
    forallb (fun c2 =>
      (float_of_int (Z.of_nat c1) / float_of_int (Z.of_nat n)
       <=? float_of_int (Z.of_nat c2) / float_of_int (Z.of_nat n))%float)
      (seq c1 (S n - c1)))
    (seq 0 (S n)).

(** A fraction of the screen: +0, or a positive double of small magnitude. *)
Definition frac_ok (xf : float) : Prop :=
  Prim2SF xf = S754_zero false
  \/ exists m e, Prim2SF xf = S754_finite false m e /\ Zpos m < 2 ^ 53 /\ e <= 0.

(** The records whose mean offsets are zeros and whose width is finite. *)
Definition zero_offsets (v : list float) : bool :=
  match v with
  | [_; _; dx; dy; w] => is_zero dx && is_zero dy && finite w
  | _ => true
  end.

(** A pair whose prediction is finite and whose distance error is +0. *)
Definition exact_pair (pg : (float * float) * (float * float)) : Prop :=
  finite (fst (fst pg)) = true /\ finite (snd (fst pg)) = true
  /\ euclid pg = 0%float.

End EvalDefs.

(** ** Sample tables, buttons and ticks *)

Module Samples.

Import Calib DwellDefs.

(** One button, number 7, on the screen rectangle [100..299] x [100..199]. *)
Definition button7 : Button :=
  {| btn_id := 7%nat; btn_global := (100, 100);
     btn_geometry := {| x1 := 0; y1 := 0; x2 := 199; y2 := 99 |} |}.

Definition never : Z -> bool := fun _ => false.

Definition always : Z -> bool := fun _ => true.

Definition record (count dx dy width : float) : list float :=
  [count; 0%float; dx; dy; width].

(** A table of nine records; the record of "Bottom" has sample count 0. *)
Definition table : calibration :=
  [ ("Top-Left",     record 30 0.0625 (-0.03125) 100);
    ("Top",          record 30 0 (-0.03125) 100);
    ("Top-Right",    record 30 (-0.0625) (-0.03125) 100);
    ("Far-Left",     record 30 0.0625 0 100);
    ("Center",       record 30 0 0 100);
    ("Far-Right",    record 30 (-0.0625) 0 100);
    ("Bottom-Left",  record 30 0.0625 0.03125 100);
    ("Bottom",       record 0 0 0.03125 100);
    ("Bottom-Right", record 30 (-0.0625) 0.03125 100) ]%float%string.

Definition start : State :=
  {| prev_cursor_pos := (0, 0); dwell := idle |}.

(** A button around the screen centre and a button around (192, 108). *)
Definition centre_button : Button :=
  {| btn_id := 1%nat; btn_global := (900, 500);
     btn_geometry := {| x1 := 0; y1 := 0; x2 := 119; y2 := 79 |} |}.

Definition corner_button : Button :=
  {| btn_id := 2%nat; btn_global := (150, 80);
     btn_geometry := {| x1 := 0; y1 := 0; x2 := 99; y2 := 59 |} |}.

Definition tick (dx dy : float) (t : Z) : Tick :=
  {| offsets := (dx, dy); screen := (1920, 1080);
     buttons := [corner_button; centre_button]; now := t |}.

(** Drawing calls that return, and a machine that every repetition
    fits. *)
Definition drawn : Loaded.Drawing -> result unit := fun _ => Ok tt.

Definition fits : nat -> Z -> option py_error := fun _ _ => None.

(** A record of five numbers. *)
Definition sound_record : Loaded.value :=
  Loaded.List [Loaded.Int 30; Loaded.Int 0; Loaded.Float 0.0625;
               Loaded.Float 0.03125; Loaded.Float 100].

(** The table of the specification's example: for every anchor [dx = xFrac * W],
    [dy = yFrac * H] and [width = 1]. *)
Definition anchor_table (W H : Z) : calibration :=
  map (fun p =>
         let '(name, (x_frac, y_frac, _)) := p in
         (name, [30; 0; x_frac * float_of_int W; y_frac * float_of_int H; 1]%float))
      positions.

(** The table of zero offsets. *)
Definition zero_table : calibration :=
  map (fun p => (fst p, [30; 0; 0; 0; 100]%float)) positions.

End Samples.

Import SFDefs DwellDefs MappingDefs SmoothDefs EvalDefs Samples.

(** ** The vocabulary of the further properties *)

(** *** Tables that a tick rejects *)

Module TableDefs.

(** A record too short for [val[2]] and [val[3]]. *)
Definition short_record (kv : string * list float) : bool :=
  (length (snd kv) <? 4)%nat.

(** The exception that lines 77-89 raise on a table, [None] when they raise
    none: a short record stops the two comprehensions, an empty table stops
    [max], a table without "Center" stops line 88. *)
Definition table_error (cal : calibration) : option py_error :=
  if existsb short_record cal then Some IndexError
  else
    match cal with
    | [] => Some ValueError
    | _ :: _ =>
        match lookup "Center" cal with
        | Ok _ => None
        | Raise _ => Some KeyError
        end
    end.

End TableDefs.

(** *** Runs of ticks *)

Module ClickDefs.

Import DwellDefs.

(** The gaze of a tick is on button [i]: the first button of the tick, in
    list order, whose rectangle contains the projected point is [i]. *)
Definition gaze_on (cal : calibration) (i : nat) (tk : Tick) : Prop :=
  exists pt,
    project cal (fst (screen tk)) (snd (screen tk))
            (fst (offsets tk)) (snd (offsets tk)) = Ok pt
    /\ on_target (buttons tk) i pt.

Definition no_click (e : Effects) : Prop := clicked e = None.

(** The dwell that a running timer stands for: the tick that started it, and
    the ticks since, all on the hovered button and none clicking. *)
Definition dwelling (cal : calibration) (tks : list Tick) (es : list Effects)
  (i : nat) (since : Z) : Prop :=
  exists before enter during e_before e_during,
    tks = before ++ enter :: during
    /\ es = e_before ++ e_during
    /\ length e_before = length before
    /\ now enter = since
    /\ Forall (gaze_on cal i) (enter :: during)
    /\ Forall no_click e_during.

(** A gaze that has dwelt and clicked: the tick that started the timer, the
    ticks after it, none clicking, the first click more than 2000 ms after
    the start, and the ticks since, all of them with the gaze on the
    button. *)
Definition clicked_after_dwell (cal : calibration) (tks : list Tick)
  (es : list Effects) (i : nat) : Prop :=
  exists before enter during first more e_before e_during e_first e_more,
    tks = before ++ enter :: during ++ first :: more
    /\ es = e_before ++ e_during ++ e_first :: e_more
    /\ length e_before = length before
    /\ length e_during = S (length during)
    /\ Forall (gaze_on cal i) (enter :: during ++ first :: more)
    /\ Forall no_click e_during
    /\ clicked e_first = Some i
    /\ DWELL_MS < now first - now enter.

End ClickDefs.

(** *** Buttons and the screen *)

Module WindowDefs.

(** A geometry of non-negative width and height. *)
Definition sized (g : QRect) : Prop := x1 g <= x2 g + 1 /\ y1 g <= y2 g + 1.

Definition on_screen (W H : Z) (p : Z * Z) : Prop :=
  0 <= fst p <= W - 1 /\ 0 <= snd p <= H - 1.

End WindowDefs.

(** *** Values of doubles *)

Module ExactDefs.

(** The integers, times 2^1074, that are the value of a double. *)
Definition representable (d : Z) : Prop :=
  d = 0
  \/ exists s m e,
       canonical_mantissa prec emax m e = true /\ e <= emax - prec
       /\ d = cond_Zopp s (Zpos m * 2 ^ (e + 1074)).

(** The product of a non-negative integer below 2^53 by 0, 0.5 or 1. *)
Definition sf_half : spec_float := S754_finite false 4503599627370496 (-53).

Definition sf_one : spec_float := S754_finite false 4503599627370496 (-52).

End ExactDefs.

(** *** Rounding to the nearest double *)

Module RoundDefs.

(** The exponent of the last place of a scaled value: doubles of that
    magnitude are the multiples of 2 to this power. *)
Definition ulp_exp (v : Z) : Z := Z.max 0 (Z.log2 (Z.abs v) - 52).

(** [v'] is a double nearest to the scaled value [v]. *)
Definition near (v v' : Z) : Prop :=
  (2 ^ ulp_exp v | v') /\ 2 * Z.abs (v - v') <= 2 ^ ulp_exp v.

(** One step toward the target: the new position lies between the old one
    and the target, it has left the old one when the target is 5 or more
    above or anywhere below, and it has not passed the target. *)
Definition step_toward (p t q : Z) : Prop :=
  (p <= t -> p <= q <= t)
  /\ (p + 5 <= t -> p < q)
  /\ (t < p -> t <= q < p).

(** The double of the literal 0.2. *)
Definition sf_02 : spec_float := S754_finite false 7205759403792794 (-55).

End RoundDefs.

(** *** The summary of the evaluation *)

Module ReportDefs.

Import Calib.

(** The percentage written for [c] errors out of [n] below a radius:
    [round(c / n * 100, 2)]. *)
Definition percentage (c n : nat) : float :=
  round2 (float_of_int (Z.of_nat c) / float_of_int (Z.of_nat n) * 100)%float.

(** The percentages of the counts up to [n] are within 0 and 100 and in the
    order of the counts. *)
Definition percentages_ordered (n : nat) : bool :=
  forallb (fun c1 =>
    forallb (fun c2 =>
      (0 <=? percentage c1 n)%float
      && (percentage c1 n <=? percentage c2 n)%float
      && (percentage c2 n <=? 100)%float)
      (seq c1 (S n - c1)))
    (seq 0 (S n)).

End ReportDefs.

(** *** The calibration window *)

Module StepDefs.

Import Calib Steps ExactDefs.

(** The doubles 0, 0.5 and 1, as a number of halves. *)
Definition halves (frac : float) (c : Z) : Prop :=
  (c = 0 /\ Prim2SF frac = S754_zero false)
  \/ (c = 1 /\ Prim2SF frac = sf_half)
  \/ (c = 2 /\ Prim2SF frac = sf_one).

(** The anchor awaited at a step, if any. *)
Definition awaited (step : nat) : option string :=
  option_map fst (nth_error positions step).

(** The labels that are shown. *)
Definition shown (ls : labels_t) : labels_t :=
  filter (fun nl => label_visible (snd nl)) ls.

(** The window has one label per anchor, its step is at most the number of
    anchors, and a label that is shown is the label of the awaited
    anchor. *)
Definition well_formed {Tracker : Type} (w : CalibrationWindow Tracker)
  : Prop :=
  map fst (labels w) = map fst positions
  /\ (current_step w <= length positions)%nat
  /\ forall name l,
       In (name, l) (labels w) -> label_visible l = true ->
       awaited (current_step w) = Some name.

(** The calls of [calibrate_point] among the actions, in order, as pairs of
    the anchor and the key. *)
Definition calibrated (acts : list Action) : list (string * string) :=
  flat_map (fun a =>
              match a with
              | Call (CalibratePoint name key_char) => [(name, key_char)]
              | _ => []
              end) acts.

(** The anchors with their keys, in the order of [positions]. *)
Definition anchor_keys : list (string * string) :=
  map (fun p => (fst p, snd (snd p))) positions.

(** Every [json.dump] among the actions comes after the calibration of
    all the anchors. *)
Definition saved_after_all (acts : list Action) : Prop :=
  forall a1 cal a2, acts = a1 ++ Dump cal :: a2 -> calibrated a1 = anchor_keys.

Definition is_dump (a : Action) : bool :=
  match a with Dump _ => true | _ => false end.

(** The tracker keeps, for the point it has just calibrated, a record of
    five elements. *)
Definition records_points (Tracker : Type)
  (tracker_call : TrackerCall -> Tracker -> Tracker)
  (calibration_points : Tracker -> calibration) : Prop :=
  forall t name key_char,
    exists row,
      lookup name
        (calibration_points (tracker_call (CalibratePoint name key_char) t))
      = Ok row
      /\ length row = 5%nat.

End StepDefs.

(** *** Signs of doubles *)

Module DirectionDefs.

Import SFDefs.

(** A double that is a zero of either sign, or is not zero and has the
    sign [s]; not a NaN. *)
Definition signed (s : bool) (f : spec_float) : Prop :=
  (exists s', f = S754_zero s') \/ rounded_nonzero s f.

End DirectionDefs.

(** *** Sample states, windows and events *)

Module MoreSamples.

Import Calib DwellDefs Samples Interface Steps.

(** The state after two ticks on the centre button, and after the click. *)
Definition dwelt : State :=
  {| prev_cursor_pos := (345, 194); dwell := hovering 1 0 |}.

Definition clicked_1 : State :=
  {| prev_cursor_pos := (468, 263); dwell := fired 1 |}.

Definition clicking : Effects :=
  {| moved_to := (468, 263); clicked := Some 1%nat |}.

(** The final-message screen, without [buttons], a screen with the centre
    button alone, and a reading of the centre sample at 2100 ms. *)
Definition final_screen : Screen :=
  {| screen_id := 5; screen_buttons := None |}.

Definition food_screen : Screen :=
  {| screen_id := 3; screen_buttons := Some [centre_button] |}.

Definition late_reading : Reading :=
  {| read_offsets := (0%float, 0%float); read_screen := (1920, 1080);
     read_now := 2100 |}.

(** The menu after a dwell on the centre button since 0 ms, the screen
    with the centre button after the click, and the final-message screen
    after a tick. *)
Definition menu_dwelt : MainInterface :=
  {| current_widget := 0;
     self_buttons := [corner_button; centre_button];
     final_message_screen := final_screen;
     final_message := None;
     gaze_state := dwelt |}.

Definition food_clicked : MainInterface :=
  {| current_widget := 3;
     self_buttons := [centre_button];
     final_message_screen := final_screen;
     final_message := None;
     gaze_state := clicked_1 |}.

Definition final_shown : MainInterface :=
  {| current_widget := 5;
     self_buttons := [];
     final_message_screen := final_screen;
     final_message := None;
     gaze_state := {| prev_cursor_pos := (468, 263); dwell := idle |} |}.

Definition unclicked : Effects :=
  {| moved_to := (468, 263); clicked := None |}.

Definition clicking_again : Effects :=
  {| moved_to := (566, 318); clicked := Some 1%nat |}.

(** A tracker that is the table it has recorded: a call of
    [calibrate_point] adds a record of five elements for the point. *)
Definition recording_call (c : TrackerCall) (t : calibration) : calibration :=
  match c with
  | CalibratePoint name _ => (name, [30; 0; 0.0625; 0.03125; 100]%float) :: t
  | _ => t
  end.

Definition recorded (t : calibration) : calibration := t.

(** The window after the first marker was shown, "q" was pressed, "x" was
    pressed and the second marker was shown. *)
Definition hidden : Label := {| label_pos := (0, 0); label_visible := false |}.

Definition second_step : CalibrationWindow calibration :=
  {| current_step := 1;
     labels :=
       [ ("Top-Left", hidden);
         ("Top", {| label_pos := (920, 0); label_visible := true |});
         ("Top-Right", hidden); ("Far-Left", hidden); ("Center", hidden);
         ("Far-Right", hidden); ("Bottom-Left", hidden); ("Bottom", hidden);
         ("Bottom-Right", hidden) ]%string;
     gaze_tracker := [("Top-Left"%string, [30; 0; 0.0625; 0.03125; 100]%float)];
     width := 1920;
     height := 1080 |}.

Definition first_events : list Event :=
  [Timeout; KeyPress "q"; KeyPress "x"; Timeout].

Definition first_actions : list Action :=
  [Call (CalibratePoint "Top-Left" "q"); SingleShot 1000 ShowNextMarker].

End MoreSamples.

(* ================================================================== *)
(** * Part III: properties *)
(* ================================================================== *)

(** ** Doubles on the specification side *)

Module SFFacts.

#[local] Abbreviation fexp := (SpecFloat.fexp prec emax).

Lemma digits2_pos_size p : digits2_pos p = Pos.size p.
Proof. induction p; simpl; congruence. Qed.

Lemma digits2_log2 p : Zpos (digits2_pos p) = Z.log2 (Zpos p) + 1.
Proof.
  destruct p; simpl; rewrite ?digits2_pos_size, ?Pos2Z.inj_succ; lia.
Qed.

Lemma Zdigits2_log2 m : 0 < m -> Zdigits2 m = Z.log2 m + 1.
Proof. destruct m; try lia. intros _. apply digits2_log2. Qed.

Lemma fexp_eq e : fexp e = Z.max (e - 53) (-1074).
Proof. reflexivity. Qed.

(** *** Shifting right *)

Lemma shr_1_m r : 0 <= shr_m r -> shr_m (shr_1 r) = shr_m r / 2.
Proof.
  destruct r as [m rb sb]. simpl.
  destruct m as [|[p|p|]|p]; cbn [shr_m]; intros Hm; try lia.
  - reflexivity.
  - apply Z.div_unique with 1; lia.
  - apply Z.div_unique with 0; lia.
  - reflexivity.
Qed.

Lemma iter_shr_1_m n r :
  0 <= shr_m r -> shr_m (iter_pos shr_1 n r) = shr_m r / 2 ^ Zpos n.
Proof.
  revert r. induction n as [n IH|n IH|]; intros r Hr; simpl iter_pos.
  - assert (H1 : 0 <= shr_m (shr_1 r)).
    { rewrite shr_1_m by assumption. apply Z.div_pos; lia. }
    assert (H2 : 0 <= shr_m (iter_pos shr_1 n (shr_1 r))).
    { rewrite IH by assumption. apply Z.div_pos; lia. }
    rewrite IH, IH, shr_1_m by assumption.
    rewrite !Z.div_div by lia. f_equal.
    rewrite Pos2Z.inj_xI, Z.pow_add_r, Z.pow_mul_r by lia.
    change (2 ^ 2) with 4. change (2 ^ 1) with 2.
    replace (4 ^ Zpos n) with (2 ^ Zpos n * 2 ^ Zpos n); [lia|].
    rewrite <- Z.pow_add_r by lia. replace (Zpos n + Zpos n) with (2 * Zpos n) by lia.
    rewrite Z.pow_mul_r by lia. reflexivity.
  - assert (H2 : 0 <= shr_m (iter_pos shr_1 n r)).
    { rewrite IH by assumption. apply Z.div_pos; lia. }
    rewrite IH, IH by assumption.
    rewrite !Z.div_div by lia. f_equal.
    rewrite Pos2Z.inj_xO. rewrite <- Z.pow_add_r by lia. f_equal. lia.
  - rewrite shr_1_m by assumption. reflexivity.
Qed.

Lemma shr_record_of_loc_m m l : shr_m (shr_record_of_loc m l) = m.
Proof. destruct l as [|[| |]]; reflexivity. Qed.

(** The mantissa and the exponent [shr_fexp] returns. *)
Lemma shr_fexp_spec m e l :
  0 <= m ->
  let k := Z.max 0 (fexp (Zdigits2 m + e) - e) in
  shr_m (fst (shr_fexp prec emax m e l)) = m / 2 ^ k
  /\ snd (shr_fexp prec emax m e l) = e + k.
Proof.
  intros Hm k. unfold shr_fexp, shr. subst k.
  destruct (fexp (Zdigits2 m + e) - e) as [|p|p] eqn:Hk; simpl fst; simpl snd.
  - rewrite shr_record_of_loc_m, Z.div_1_r. split; lia.
  - rewrite iter_shr_1_m by (rewrite shr_record_of_loc_m; assumption).
    rewrite shr_record_of_loc_m. replace (Z.max 0 (Zpos p)) with (Zpos p) by lia.
    split; reflexivity.
  - rewrite shr_record_of_loc_m. replace (Z.max 0 (Zneg p)) with 0 by lia.
    rewrite Z.div_1_r. split; lia.
Qed.

(** A positive mantissa above the smallest exponent is not shifted out, and
    the magnitude [digits + exponent] is kept. *)
Lemma shr_fexp_pos m e l :
  0 < m -> emin < Zdigits2 m + e ->
  0 < shr_m (fst (shr_fexp prec emax m e l))
  /\ Zdigits2 (shr_m (fst (shr_fexp prec emax m e l)))
     + snd (shr_fexp prec emax m e l) = Zdigits2 m + e.
Proof.
  intros Hm He.
  destruct (shr_fexp_spec m e l (Z.lt_le_incl _ _ Hm)) as [-> ->].
  rewrite (Zdigits2_log2 m Hm) in *. rewrite fexp_eq.
  change emin with (-1074) in He.
  set (k := Z.max 0 (Z.max (Z.log2 m + 1 + e - 53) (-1074) - e)).
  assert (Hk : 0 <= k <= Z.log2 m) by (subst k; pose proof (Z.log2_nonneg m); lia).
  assert (Hpos : 0 < m / 2 ^ k).
  { apply Z.div_str_pos. split; [apply Z.pow_pos_nonneg; lia|].
    apply Z.log2_le_pow2; lia. }
  split; [exact Hpos|].
  rewrite Zdigits2_log2 by exact Hpos.
  rewrite <- Z.shiftr_div_pow2 by lia. rewrite Z.log2_shiftr by exact Hm. lia.
Qed.

Lemma round_nearest_even_ge m l : m <= round_nearest_even m l.
Proof.
  destruct l as [|[| |]]; simpl; try lia. destruct (Z.even m); lia.
Qed.

(** *** Rounding: the class and the sign of the result *)

Lemma binary_round_aux_rounded s m e l :
  0 <= m -> rounded s (binary_round_aux prec emax s m e l).
Proof.
  intros Hm. unfold binary_round_aux.
  destruct (shr_fexp prec emax m e l) as [r1 e1] eqn:H1.
  pose proof (shr_fexp_spec m e l Hm) as [Hm1 _]. rewrite H1 in Hm1. simpl in Hm1.
  assert (H1' : 0 <= shr_m r1) by (rewrite Hm1; apply Z.div_pos; lia).
  pose proof (round_nearest_even_ge (shr_m r1) (loc_of_shr_record r1)) as Hr.
  set (m2 := round_nearest_even (shr_m r1) (loc_of_shr_record r1)) in *.
  destruct (shr_fexp prec emax m2 e1 loc_Exact) as [r2 e2] eqn:H2.
  pose proof (shr_fexp_spec m2 e1 loc_Exact ltac:(lia)) as [Hm2 _].
  rewrite H2 in Hm2. simpl in Hm2.
  assert (H2' : 0 <= shr_m r2) by (rewrite Hm2; apply Z.div_pos; lia).
  destruct (shr_m r2) as [|p|p]; try lia; [constructor|].
  destruct (Z.leb e2 (emax - prec)); constructor.
Qed.

Lemma binary_round_aux_nonzero s m e l :
  0 < m -> emin < Zdigits2 m + e ->
  rounded_nonzero s (binary_round_aux prec emax s m e l).
Proof.
  intros Hm He. unfold binary_round_aux.
  destruct (shr_fexp prec emax m e l) as [r1 e1] eqn:H1.
  pose proof (shr_fexp_pos m e l Hm He) as [Hp1 Hd1]. rewrite H1 in Hp1, Hd1.
  simpl in Hp1, Hd1.
  pose proof (round_nearest_even_ge (shr_m r1) (loc_of_shr_record r1)) as Hr.
  set (m2 := round_nearest_even (shr_m r1) (loc_of_shr_record r1)) in *.
  assert (Hm2 : 0 < m2) by lia.
  assert (He2 : emin < Zdigits2 m2 + e1).
  { rewrite (Zdigits2_log2 m2 Hm2).
    rewrite (Zdigits2_log2 (shr_m r1) Hp1) in Hd1.
    pose proof (Z.log2_le_mono _ _ Hr). lia. }
  destruct (shr_fexp prec emax m2 e1 loc_Exact) as [r2 e2] eqn:H2.
  pose proof (shr_fexp_pos m2 e1 loc_Exact Hm2 He2) as [Hp2 _].
  rewrite H2 in Hp2. simpl in Hp2.
  destruct (shr_m r2) as [|p|p]; try lia.
  destruct (Z.leb e2 (emax - prec)); constructor.
Qed.

(** *** Conversion of integers below 2^53 *)

Lemma binary_round_aux_canonical s m e :
  canonical_mantissa prec emax m e = true ->
  e <= emax - prec ->
  binary_round_aux prec emax s (Zpos m) e loc_Exact = S754_finite s m e.
Proof.
  unfold canonical_mantissa. intros Hc He. apply Z.eqb_eq in Hc.
  unfold binary_round_aux, shr_fexp. cbn [Zdigits2]. rewrite Hc, Z.sub_diag.
  cbn [shr shr_record_of_loc shr_m loc_of_shr_record round_nearest_even Zdigits2].
  rewrite Hc, Z.sub_diag. cbn [shr shr_record_of_loc shr_m].
  destruct (Z.leb_spec e (emax - prec)); [reflexivity|lia].
Qed.

Lemma iter_xO m k : Zpos (Pos.iter xO m k) = Zpos m * 2 ^ Zpos k.
Proof.
  change (Pos.iter xO m k) with (shift_pos k m).
  rewrite shift_pos_correct. change (Z.pow_pos 2 k) with (2 ^ Zpos k). lia.
Qed.

Lemma sf_of_pos_spec s m :
  Zpos m < 2 ^ 53 ->
  binary_round prec emax s m 0 = sf_of_pos s m
  /\ valid_binary (sf_of_pos s m) = true
  /\ trunc_sf (sf_of_pos s m) = Some (cond_Zopp s (Zpos m)).
Proof.
  intros Hm. unfold binary_round, sf_of_pos.
  assert (Hd : Zpos (digits2_pos m) <= 53).
  { rewrite digits2_log2.
    assert (Z.log2 (Zpos m) < 53) by (apply Z.log2_lt_pow2; lia). lia. }
  rewrite Z.add_0_r, fexp_eq.
  replace (Z.max (Zpos (digits2_pos m) - 53) (-1074))
    with (Zpos (digits2_pos m) - 53) by lia.
  unfold shl_align. rewrite Z.sub_0_r.
  destruct (Zpos (digits2_pos m) - 53) as [|k|k] eqn:Hk; try lia.
  - assert (Hc : canonical_mantissa prec emax m 0 = true).
    { unfold canonical_mantissa. rewrite Z.add_0_r, fexp_eq.
      apply Z.eqb_eq. lia. }
    rewrite binary_round_aux_canonical by (assumption || (cbv; discriminate)).
    split; [reflexivity|]. split.
    + cbn [valid_binary]. unfold bounded. rewrite Hc. reflexivity.
    + reflexivity.
  - assert (Hlog : Zpos (digits2_pos (Pos.iter xO m k)) = 53).
    { rewrite digits2_log2, iter_xO, Z.log2_mul_pow2 by lia.
      rewrite digits2_log2 in Hk. lia. }
    assert (Hc : canonical_mantissa prec emax (Pos.iter xO m k) (Zneg k) = true).
    { unfold canonical_mantissa. rewrite Hlog, fexp_eq.
      apply Z.eqb_eq. lia. }
    assert (Hb : Zneg k <= emax - prec) by (change (emax - prec) with 971; lia).
    rewrite binary_round_aux_canonical by assumption.
    split; [reflexivity|]. split.
    + cbn [valid_binary]. unfold bounded. rewrite Hc.
      apply Z.leb_le in Hb. rewrite Hb. reflexivity.
    + cbn [trunc_sf]. rewrite Z.shiftr_div_pow2, iter_xO by lia.
      rewrite Z.div_mul by (apply Z.pow_nonzero; lia). reflexivity.
Qed.

Lemma sf_of_int_spec z :
  Z.abs z < 2 ^ 53 ->
  binary_normalize prec emax z 0 false = sf_of_int z
  /\ valid_binary (sf_of_int z) = true
  /\ trunc_sf (sf_of_int z) = Some z.
Proof.
  destruct z as [|m|m]; cbn [Z.abs binary_normalize sf_of_int]; intros Hz.
  - repeat split.
  - apply (sf_of_pos_spec false m Hz).
  - apply (sf_of_pos_spec true m Hz).
Qed.

Lemma sf_of_pos_finite s m : exists mz ez, sf_of_pos s m = S754_finite s mz ez.
Proof.
  unfold sf_of_pos. destruct (shl_align _ _ _) as [mz ez]. eauto.
Qed.

End SFFacts.

(** ** Doubles on the primitive side *)

Module FloatFacts.
Import SFFacts.

Lemma Prim2SF_float_of_int z :
  Z.abs z < 2 ^ 53 -> Prim2SF (float_of_int z) = sf_of_int z.
Proof.
  intros Hz. destruct (sf_of_int_spec z Hz) as (Hn & Hv & _).
  unfold float_of_int. rewrite Hn. apply Prim2SF_SF2Prim. exact Hv.
Qed.

(** [int(float(z)) == z] below 2^53. *)
Lemma py_int_float_of_int z :
  Z.abs z < 2 ^ 53 -> py_int (float_of_int z) = Ok z.
Proof.
  intros Hz. unfold py_int. rewrite Prim2SF_float_of_int by exact Hz.
  destruct (sf_of_int_spec z Hz) as (_ & _ & Ht).
  destruct z as [|m|m]; cbn [sf_of_int] in *; [reflexivity| |].
  - destruct (sf_of_pos_finite false m) as (mz & ez & E). rewrite E in *.
    rewrite Ht. reflexivity.
  - destruct (sf_of_pos_finite true m) as (mz & ez & E). rewrite E in *.
    rewrite Ht. reflexivity.
Qed.

End FloatFacts.

Module SFClass.
Import SFFacts.

Lemma binary_round_rounded s m e : rounded s (binary_round prec emax s m e).
Proof.
  unfold binary_round. destruct (shl_align _ _ _) as [mz ez].
  apply binary_round_aux_rounded. lia.
Qed.

Lemma binary_normalize_rounded m e :
  exists s, rounded s (binary_normalize prec emax m e false).
Proof.
  destruct m as [|p|p]; simpl.
  - exists false. constructor.
  - exists false. apply binary_round_rounded.
  - exists true. apply binary_round_rounded.
Qed.

(** The difference of two finite doubles is not a NaN. *)
Lemma SFsub_finite a b :
  sf_finite a = true -> sf_finite b = true ->
  exists s, rounded s (SF64sub a b).
Proof.
  destruct a as [sa|sa| |sa ma ea], b as [sb|sb| |sb mb eb];
    try discriminate; intros _ _; unfold SF64sub; cbn [SFsub].
  - destruct sa, sb; eexists; constructor.
  - eexists; constructor.
  - eexists; constructor.
  - apply binary_normalize_rounded.
Qed.

(** A finite double minus itself is +0. *)
Lemma SFsub_diag a : sf_finite a = true -> SF64sub a a = S754_zero false.
Proof.
  destruct a as [sa|sa| |sa ma ea]; try discriminate; intros _;
    unfold SF64sub; cbn [SFsub].
  - destruct sa; reflexivity.
  - rewrite Z.sub_diag. reflexivity.
Qed.

Lemma not_below_001 s f :
  rounded s f -> SFltb f sf_001 = false -> at_least_001 f.
Proof.
  intros Hr. unfold SFltb, sf_001.
  destruct Hr as [|m e|]; cbn [SFcompare].
  - destruct s; discriminate.
  - destruct s; [discriminate|].
    destruct (Z.compare_spec e (-59)) as [He|He|He]; intros Hlt;
      try discriminate; right; exists m, e; split; (reflexivity || lia).
  - destruct s; [discriminate|]. intros _. left. reflexivity.
Qed.

Lemma at_least_001_self : at_least_001 sf_001.
Proof. right. exists 5764607523034235%positive, (-59). split; [reflexivity|lia]. Qed.

(** The product of such a double by 0.8 is positive: finite and not zero,
    or +infinity. *)
Lemma SFmul_08_nonzero f :
  at_least_001 f -> rounded_nonzero false (SF64mul f sf_08).
Proof.
  intros [->|(m & e & -> & He)]; unfold SF64mul, sf_08; cbn [SFmul xorb].
  - constructor.
  - apply binary_round_aux_nonzero; [lia|].
    rewrite Zdigits2_log2 by lia. rewrite Pos2Z.inj_mul.
    pose proof (Z.log2_mul_below (Zpos m) 7205759403792794 ltac:(lia) ltac:(lia)).
    pose proof (Z.log2_nonneg (Zpos m)).
    change (Z.log2 7205759403792794) with 52 in *.
    change emin with (-1074). lia.
Qed.

Lemma div_eucl_nonneg a b : 0 <= a -> 0 < b -> 0 <= fst (Z.div_eucl a b).
Proof.
  intros Ha Hb. change (fst (Z.div_eucl a b)) with (a / b).
  apply Z.div_pos; assumption.
Qed.

(** A positive finite double divided by a positive non-zero double or by
    +infinity is a non-negative double or +infinity. *)
Lemma SFdiv_pos_rounded m e g :
  rounded_nonzero false g ->
  rounded false (SF64div (S754_finite false m e) g).
Proof.
  intros [mg eg|]; unfold SF64div; cbn [SFdiv xorb]; [|constructor].
  unfold SFdiv_core_binary.
  set (e' := Z.min _ _). set (sh := e - eg - e').
  set (m' := match sh with Zpos _ => Z.shiftl (Zpos m) sh | Z0 => Zpos m
                         | Zneg _ => 0 end).
  assert (Hm' : 0 <= m').
  { subst m'. destruct sh; try lia. apply Z.shiftl_nonneg. lia. }
  pose proof (div_eucl_nonneg m' (Zpos mg) Hm' ltac:(lia)) as Hq.
  destruct (Z.div_eucl m' (Zpos mg)) as [q r]. simpl in Hq.
  apply binary_round_aux_rounded. exact Hq.
Qed.

Lemma not_above_40000 f :
  rounded false f -> SFltb sf_40000 f = false -> nonneg_finite f.
Proof.
  intros [|m e|]; unfold SFltb, sf_40000; cbn [SFcompare].
  - left. reflexivity.
  - right. eauto.
  - discriminate.
Qed.

(** Zero times a finite double is a zero, of which [int] is 0. *)
Lemma SFmul_zero_finite s f :
  nonneg_finite f -> SF64mul (S754_zero s) f = S754_zero s.
Proof.
  intros [->|(m & e & ->)]; unfold SF64mul; cbn [SFmul]; destruct s; reflexivity.
Qed.

End SFClass.

(** *** The order of valid doubles and truncation *)

Module SFOrder.
Import SFFacts.

Lemma canonical_bounds m e :
  canonical_mantissa prec emax m e = true ->
  -1074 <= e /\ Zpos m < 2 ^ 53 /\ (-1074 < e -> 2 ^ 52 <= Zpos m).
Proof.
  unfold canonical_mantissa. intros H. apply Z.eqb_eq in H.
  rewrite fexp_eq, digits2_log2 in H.
  assert (Hlog : Z.log2 (Zpos m) <= 52) by lia.
  split; [lia|]. split.
  - apply Z.log2_lt_pow2; lia.
  - intros He. apply Z.log2_le_pow2; lia.
Qed.

Lemma valid_finite_bounds s m e :
  valid_binary (S754_finite s m e) = true ->
  -1074 <= e /\ Zpos m < 2 ^ 53 /\ (-1074 < e -> 2 ^ 52 <= Zpos m).
Proof.
  cbn [valid_binary]. unfold bounded. intros H.
  apply andb_prop in H as [H _]. apply canonical_bounds. exact H.
Qed.

Lemma trunc_scaled f :
  valid_binary f = true -> sf_finite f = true ->
  trunc_sf f = Some (Z.quot (scaled f) (2 ^ 1074)).
Proof.
  destruct f as [s|s| |s m e]; try discriminate; intros Hv _.
  - reflexivity.
  - destruct (valid_finite_bounds s m e Hv) as (He & _ & _).
    cbn [trunc_sf scaled]. f_equal.
    assert (Hpos : 0 < 2 ^ 1074) by (apply Z.pow_pos_nonneg; lia).
    assert (Hq : (match e with
                  | Zneg p => Z.shiftr (Zpos m) (Zpos p)
                  | _ => Z.shiftl (Zpos m) e
                  end) = (Zpos m * 2 ^ (e + 1074)) / 2 ^ 1074).
    { destruct e as [|p|p].
      - rewrite Z.shiftl_0_r. cbn [Z.add]. rewrite Z.div_mul by lia. reflexivity.
      - rewrite Z.shiftl_mul_pow2 by lia.
        rewrite Z.pow_add_r by lia. rewrite Z.mul_assoc, Z.div_mul by lia.
        reflexivity.
      - rewrite Z.shiftr_div_pow2 by lia.
        replace (2 ^ 1074) with (2 ^ Zpos p * 2 ^ (Zneg p + 1074))
          by (rewrite <- Z.pow_add_r by lia; f_equal; lia).
        rewrite Z.div_mul_cancel_r; [reflexivity| |];
          apply Z.pow_nonzero; lia. }
    rewrite Hq.
    assert (Hnn : 0 <= Zpos m * 2 ^ (e + 1074))
      by (apply Z.mul_nonneg_nonneg; [lia|apply Z.pow_nonneg; lia]).
    destruct s; cbn [cond_Zopp].
    + rewrite Z.quot_opp_l by lia. f_equal. symmetry.
      apply Z.quot_div_nonneg; lia.
    + symmetry. apply Z.quot_div_nonneg; lia.
Qed.

Lemma scaled_pos_lt m1 e1 m2 e2 :
  valid_binary (S754_finite false m1 e1) = true ->
  valid_binary (S754_finite false m2 e2) = true ->
  e1 < e2 ->
  Zpos m1 * 2 ^ (e1 + 1074) < Zpos m2 * 2 ^ (e2 + 1074).
Proof.
  intros H1 H2 He.
  destruct (valid_finite_bounds _ _ _ H1) as (He1 & Hm1 & _).
  destruct (valid_finite_bounds _ _ _ H2) as (He2 & _ & Hm2).
  specialize (Hm2 ltac:(lia)).
  replace (e2 + 1074) with ((e1 + 1074) + (e2 - e1)) by lia.
  rewrite (Z.pow_add_r 2 (e1 + 1074) (e2 - e1)) by lia.
  assert (Ha : 0 < 2 ^ (e1 + 1074)) by (apply Z.pow_pos_nonneg; lia).
  assert (Hb : 2 ^ 1 <= 2 ^ (e2 - e1)) by (apply Z.pow_le_mono_r; lia).
  change (2 ^ 1) with 2 in Hb.
  change (2 ^ 53) with (2 * 2 ^ 52) in Hm1.
  assert (Hc : Zpos m1 < Zpos m2 * 2 ^ (e2 - e1)) by nia.
  nia.
Qed.

(** On valid finite doubles the comparison is the comparison of the
    values. *)
Lemma scaled_compare a b :
  valid_binary a = true -> valid_binary b = true ->
  sf_finite a = true -> sf_finite b = true ->
  SFcompare a b = Some (scaled a ?= scaled b).
Proof.
  destruct a as [sa|sa| |sa ma ea], b as [sb|sb| |sb mb eb];
    try discriminate; intros Ha Hb _ _; cbn [SFcompare scaled]; f_equal.
  - assert (Pb : 0 < Zpos mb * 2 ^ (eb + 1074)).
    { destruct (valid_finite_bounds _ _ _ Hb) as (He & _).
      apply Z.mul_pos_pos; [lia|apply Z.pow_pos_nonneg; lia]. }
    symmetry. destruct sb; cbn [cond_Zopp];
      [apply Z.compare_gt_iff|apply Z.compare_lt_iff]; lia.
  - assert (Pa : 0 < Zpos ma * 2 ^ (ea + 1074)).
    { destruct (valid_finite_bounds _ _ _ Ha) as (He & _).
      apply Z.mul_pos_pos; [lia|apply Z.pow_pos_nonneg; lia]. }
    symmetry. destruct sa; cbn [cond_Zopp];
      [apply Z.compare_lt_iff|apply Z.compare_gt_iff]; lia.
  - assert (Pa : 0 < Zpos ma * 2 ^ (ea + 1074)).
    { destruct (valid_finite_bounds _ _ _ Ha) as (He & _).
      apply Z.mul_pos_pos; [lia|apply Z.pow_pos_nonneg; lia]. }
    assert (Pb : 0 < Zpos mb * 2 ^ (eb + 1074)).
    { destruct (valid_finite_bounds _ _ _ Hb) as (He & _).
      apply Z.mul_pos_pos; [lia|apply Z.pow_pos_nonneg; lia]. }
    assert (Hlt : ea < eb ->
                  Zpos ma * 2 ^ (ea + 1074) < Zpos mb * 2 ^ (eb + 1074))
      by (apply (scaled_pos_lt ma ea mb eb); assumption).
    assert (Hgt : eb < ea ->
                  Zpos mb * 2 ^ (eb + 1074) < Zpos ma * 2 ^ (ea + 1074))
      by (apply (scaled_pos_lt mb eb ma ea); assumption).
    assert (Heq : ea = eb ->
                  (Zpos ma * 2 ^ (ea + 1074) ?= Zpos mb * 2 ^ (eb + 1074))
                  = Pos.compare ma mb).
    { intros <-. assert (0 < 2 ^ (ea + 1074)) by nia.
      destruct (Pos.compare_spec ma mb) as [E|E|E].
      - subst. apply Z.compare_refl.
      - apply Z.compare_lt_iff. nia.
      - apply Z.compare_gt_iff. nia. }
    change (Pos.compare_cont Eq ma mb) with (Pos.compare ma mb).
    symmetry. destruct sa, sb; cbn [cond_Zopp].
    + rewrite Z.compare_opp.
      destruct (Z.compare_spec ea eb) as [E|E|E].
      * rewrite Z.compare_antisym, (Heq E). reflexivity.
      * apply Z.compare_gt_iff. specialize (Hlt E). lia.
      * apply Z.compare_lt_iff. specialize (Hgt E). lia.
    + apply Z.compare_lt_iff. lia.
    + apply Z.compare_gt_iff. lia.
    + destruct (Z.compare_spec ea eb) as [E|E|E].
      * apply (Heq E).
      * apply Z.compare_lt_iff. apply (Hlt E).
      * apply Z.compare_gt_iff. apply (Hgt E).
Qed.

Lemma scaled_le a b :
  valid_binary a = true -> valid_binary b = true ->
  sf_finite a = true -> sf_finite b = true ->
  SFleb a b = true -> scaled a <= scaled b.
Proof.
  intros Va Vb Fa Fb. unfold SFleb. rewrite scaled_compare by assumption.
  destruct (Z.compare_spec (scaled a) (scaled b)); (discriminate || lia).
Qed.

Lemma scaled_lt a b :
  valid_binary a = true -> valid_binary b = true ->
  sf_finite a = true -> sf_finite b = true ->
  SFltb a b = true -> scaled a < scaled b.
Proof.
  intros Va Vb Fa Fb. unfold SFltb. rewrite scaled_compare by assumption.
  destruct (Z.compare_spec (scaled a) (scaled b)); (discriminate || lia).
Qed.

(** The scaled value of the double of an integer below 2^53. *)
Lemma scaled_sf_of_int z :
  Z.abs z < 2 ^ 53 -> scaled (sf_of_int z) = z * 2 ^ 1074.
Proof.
  intros Hz. destruct (sf_of_int_spec z Hz) as (_ & Hv & Ht).
  assert (Hf : sf_finite (sf_of_int z) = true).
  { destruct (sf_of_int z); try reflexivity; discriminate. }
  rewrite (trunc_scaled _ Hv Hf) in Ht. injection Ht as Ht.
  assert (Hpos : 0 < 2 ^ 1074) by (apply Z.pow_pos_nonneg; lia).
  destruct z as [|m|m]; cbn [sf_of_int] in *; [reflexivity| |].
  - destruct (sf_of_pos_finite false m) as (mz & ez & E). rewrite E in *.
    destruct (valid_finite_bounds _ _ _ Hv) as (He & _).
    unfold sf_of_pos in E. unfold shl_align in E.
    rewrite Z.sub_0_r in E.
    destruct (SpecFloat.fexp prec emax (Zpos (digits2_pos m) + 0)) as [|k|k] eqn:Hk;
      injection E as <- <-; cbn [scaled cond_Zopp].
    + reflexivity.
    + reflexivity.
    + rewrite iter_xO.
      replace 1074 with (Zpos k + (Zneg k + 1074)) at 2 by lia.
      rewrite (Z.pow_add_r 2 (Zpos k) (Zneg k + 1074)) by lia. lia.
  - destruct (sf_of_pos_finite true m) as (mz & ez & E). rewrite E in *.
    destruct (valid_finite_bounds _ _ _ Hv) as (He & _).
    unfold sf_of_pos in E. unfold shl_align in E.
    rewrite Z.sub_0_r in E.
    destruct (SpecFloat.fexp prec emax (Zpos (digits2_pos m) + 0)) as [|k|k] eqn:Hk;
      injection E as <- <-; cbn [scaled cond_Zopp].
    + reflexivity.
    + reflexivity.
    + rewrite iter_xO.
      replace 1074 with (Zpos k + (Zneg k + 1074)) at 2 by lia.
      rewrite (Z.pow_add_r 2 (Zpos k) (Zneg k + 1074)) by lia. lia.
Qed.

(** A double between two finite doubles is finite. *)
Lemma between_finite a x b :
  sf_finite a = true -> sf_finite b = true ->
  SFleb a x = true -> SFleb x b = true -> sf_finite x = true.
Proof.
  unfold SFleb.
  destruct a as [sa|sa| |sa ma ea], b as [sb|sb| |sb mb eb],
    x as [sx|sx| |sx mx ex]; try discriminate; try reflexivity;
    cbn [SFcompare]; intros _ _; destruct sx; discriminate.
Qed.

End SFOrder.

(** *** Rounding: no overflow below the largest exponent *)

Module SFRange.
Import SFFacts.

Lemma Zdigits2_upper m k : 0 <= m -> 0 <= k -> m < 2 ^ k -> Zdigits2 m <= k.
Proof.
  intros Hm Hk Hlt. destruct (Z.eq_dec m 0) as [->|Hnz]; [exact Hk|].
  rewrite Zdigits2_log2 by lia.
  assert (Z.log2 m < k) by (apply Z.log2_lt_pow2; lia). lia.
Qed.

Lemma Zdigits2_lt m : 0 <= m -> 0 <= Zdigits2 m /\ m < 2 ^ Zdigits2 m.
Proof.
  intros Hm. destruct (Z.eq_dec m 0) as [->|Hnz]; [split; cbn; lia|].
  rewrite Zdigits2_log2 by lia. pose proof (Z.log2_nonneg m).
  split; [lia|]. apply Z.log2_spec. lia.
Qed.

Lemma Zdigits2_div m k :
  0 <= m -> 0 <= k -> Zdigits2 (m / 2 ^ k) <= Z.max 0 (Zdigits2 m - k).
Proof.
  intros Hm Hk. destruct (Zdigits2_lt m Hm) as [Hd Hlt].
  assert (Hp : 0 < 2 ^ k) by (apply Z.pow_pos_nonneg; lia).
  assert (Hq : 0 <= m / 2 ^ k) by (apply Z.div_pos; lia).
  apply Zdigits2_upper; [exact Hq|lia|].
  apply Z.div_lt_upper_bound; [exact Hp|].
  rewrite <- Z.pow_add_r by lia.
  eapply Z.lt_le_trans; [exact Hlt|]. apply Z.pow_le_mono_r; lia.
Qed.

Lemma round_nearest_even_le m l : round_nearest_even m l <= m + 1.
Proof.
  destruct l as [|[| |]]; simpl; try lia. destruct (Z.even m); lia.
Qed.

Lemma Zdigits2_succ m j : 0 <= m -> 0 <= j -> Zdigits2 m <= j ->
  forall m', 0 <= m' <= m + 1 -> Zdigits2 m' <= j + 1.
Proof.
  intros Hm Hj Hd m' Hm'. destruct (Zdigits2_lt m Hm) as [_ Hlt].
  apply Zdigits2_upper; [lia|lia|].
  assert (2 ^ Zdigits2 m <= 2 ^ j) by (apply Z.pow_le_mono_r; lia).
  rewrite Z.pow_add_r by lia. change (2 ^ 1) with 2. lia.
Qed.

(** A mantissa whose magnitude is below the largest exponent rounds to a
    finite double. *)
Lemma binary_round_aux_finite s m e l :
  0 <= m -> e <= 971 -> Zdigits2 m + e <= 1023 ->
  sf_finite (binary_round_aux prec emax s m e l) = true.
Proof.
  intros Hm He Hd. unfold binary_round_aux.
  pose proof (shr_fexp_spec m e l Hm) as [Hm1 He1].
  destruct (shr_fexp prec emax m e l) as [r1 e1]. cbn [fst snd] in Hm1, He1.
  set (k := Z.max 0 (SpecFloat.fexp prec emax (Zdigits2 m + e) - e)) in *.
  assert (Hk : 0 <= k) by (subst k; lia).
  assert (Hr1 : 0 <= shr_m r1) by (rewrite Hm1; apply Z.div_pos; [lia|apply Z.pow_pos_nonneg; lia]).
  pose proof (Zdigits2_div m k Hm Hk) as Hd1. rewrite <- Hm1 in Hd1.
  pose proof (round_nearest_even_ge (shr_m r1) (loc_of_shr_record r1)) as Hge.
  pose proof (round_nearest_even_le (shr_m r1) (loc_of_shr_record r1)) as Hle.
  set (m2 := round_nearest_even (shr_m r1) (loc_of_shr_record r1)) in *.
  assert (Hd2 : Zdigits2 m2 <= Z.max 0 (Zdigits2 m - k) + 1).
  { apply (Zdigits2_succ (shr_m r1)); lia. }
  pose proof (shr_fexp_spec m2 e1 loc_Exact ltac:(lia)) as [Hm3 He3].
  destruct (shr_fexp prec emax m2 e1 loc_Exact) as [r2 e2].
  cbn [fst snd] in Hm3, He3.
  assert (Hr2 : 0 <= shr_m r2)
    by (rewrite Hm3; apply Z.div_pos; [lia|apply Z.pow_pos_nonneg; lia]).
  destruct (shr_m r2) as [|p|p]; try lia; [reflexivity|].
  assert (Hfin : e2 <= emax - prec).
  { change (emax - prec) with 971. subst k. rewrite fexp_eq in *.
    pose proof (proj1 (Zdigits2_lt m Hm)). pose proof (proj1 (Zdigits2_lt m2 ltac:(lia))).
    lia. }
  apply Z.leb_le in Hfin. rewrite Hfin. reflexivity.
Qed.

(** The product of two finite doubles of small magnitude is finite. *)
Lemma SFmul_finite_small s1 m1 e1 s2 m2 e2 :
  Zpos m1 < 2 ^ 53 -> Zpos m2 < 2 ^ 53 -> e1 <= 0 -> e2 <= 0 ->
  sf_finite (SF64mul (S754_finite s1 m1 e1) (S754_finite s2 m2 e2)) = true.
Proof.
  intros H1 H2 He1 He2. unfold SF64mul. cbn [SFmul].
  apply binary_round_aux_finite; [lia|lia|].
  assert (Zdigits2 (Zpos (m1 * m2)) <= 106); [|lia].
  apply Zdigits2_upper; [lia|lia|]. rewrite Pos2Z.inj_mul.
  change (2 ^ 106) with (2 ^ 53 * 2 ^ 53). nia.
Qed.

End SFRange.

(** *** The order of all valid doubles *)

Module SFRank.
Import SFFacts SFOrder.

Lemma scaled_bound f :
  valid_binary f = true -> - huge < scaled f < huge.
Proof.
  assert (Hh : 0 < huge) by (apply Z.pow_pos_nonneg; lia).
  destruct f as [s|s| |s m e]; cbn [scaled]; try lia. intros Hv.
  destruct (valid_finite_bounds s m e Hv) as (He & Hm & _).
  cbn [valid_binary] in Hv. unfold bounded in Hv.
  apply andb_prop in Hv as [_ He2]. apply Z.leb_le in He2.
  change (emax - prec) with 971 in He2.
  assert (Hp : 0 < 2 ^ (e + 1074)) by (apply Z.pow_pos_nonneg; lia).
  assert (Hq : 2 ^ (e + 1074) <= 2 ^ 2045) by (apply Z.pow_le_mono_r; lia).
  assert (Hr : Zpos m * 2 ^ (e + 1074) < 2 ^ 53 * 2 ^ 2045) by nia.
  assert (Hs : 2 ^ 53 * 2 ^ 2045 <= huge).
  { unfold huge. rewrite <- Z.pow_add_r by lia. apply Z.pow_le_mono_r; lia. }
  destruct s; cbn [cond_Zopp]; lia.
Qed.

Lemma rank_compare a b :
  valid_binary a = true -> valid_binary b = true ->
  not_nan a = true -> not_nan b = true ->
  SFcompare a b = Some (rank a ?= rank b).
Proof.
  intros Va Vb Na Nb.
  destruct (sf_finite a) eqn:Fa, (sf_finite b) eqn:Fb.
  - rewrite scaled_compare by assumption.
    destruct a, b; try discriminate; reflexivity.
  - pose proof (scaled_bound a Va) as Ba.
    destruct b as [sb|sb| |sb mb eb]; try discriminate.
    destruct a as [sa|sa| |sa ma ea]; try discriminate;
      destruct sb; cbn [SFcompare rank]; f_equal; symmetry;
      (apply Z.compare_lt_iff || apply Z.compare_gt_iff); cbn [scaled] in *; lia.
  - pose proof (scaled_bound b Vb) as Bb.
    destruct a as [sa|sa| |sa ma ea]; try discriminate.
    destruct b as [sb|sb| |sb mb eb]; try discriminate;
      destruct sa; cbn [SFcompare rank]; f_equal; symmetry;
      (apply Z.compare_lt_iff || apply Z.compare_gt_iff); cbn [scaled] in *; lia.
  - assert (Hh : 0 < huge) by (apply Z.pow_pos_nonneg; lia).
    destruct a as [sa|sa| |sa ma ea], b as [sb|sb| |sb mb eb];
      try discriminate.
    destruct sa, sb; cbn [SFcompare rank]; f_equal; symmetry;
      (apply Z.compare_eq_iff || apply Z.compare_lt_iff
       || apply Z.compare_gt_iff); lia.
Qed.

Lemma SFcompare_not_nan a b c :
  SFcompare a b = Some c -> not_nan a = true /\ not_nan b = true.
Proof.
  destruct a as [sa|sa| |sa ma ea], b as [sb|sb| |sb mb eb];
    cbn [SFcompare]; try discriminate; intros _; split; reflexivity.
Qed.

Lemma SFltb_rank a b :
  valid_binary a = true -> valid_binary b = true ->
  SFltb a b = true <->
  not_nan a = true /\ not_nan b = true /\ rank a < rank b.
Proof.
  intros Va Vb. unfold SFltb. split.
  - destruct (SFcompare a b) as [c|] eqn:Hc; [|discriminate].
    destruct (SFcompare_not_nan _ _ _ Hc) as [Na Nb].
    rewrite (rank_compare a b Va Vb Na Nb) in Hc. injection Hc as <-.
    destruct (Z.compare_spec (rank a) (rank b)); try discriminate. auto.
  - intros (Na & Nb & Hlt). rewrite (rank_compare a b Va Vb Na Nb).
    apply Z.compare_lt_iff in Hlt. rewrite Hlt. reflexivity.
Qed.

Lemma SFleb_rank a b :
  valid_binary a = true -> valid_binary b = true ->
  SFleb a b = true <->
  not_nan a = true /\ not_nan b = true /\ rank a <= rank b.
Proof.
  intros Va Vb. unfold SFleb. split.
  - destruct (SFcompare a b) as [c|] eqn:Hc; [|discriminate].
    destruct (SFcompare_not_nan _ _ _ Hc) as [Na Nb].
    rewrite (rank_compare a b Va Vb Na Nb) in Hc. injection Hc as <-.
    destruct (Z.compare_spec (rank a) (rank b)); try discriminate;
      intros _; repeat split; auto; lia.
  - intros (Na & Nb & Hle). rewrite (rank_compare a b Va Vb Na Nb).
    destruct (Z.compare_spec (rank a) (rank b)); try reflexivity. lia.
Qed.

End SFRank.

Module FloatOrder.
Import SFRank.

(** [x < y] and [y <= z] give [x < z], as do [x <= y] and [y < z]. *)
Lemma ltb_leb_trans x y z :
  (x <? y)%float = true -> (y <=? z)%float = true -> (x <? z)%float = true.
Proof.
  rewrite !ltb_spec, leb_spec.
  rewrite !SFltb_rank, SFleb_rank by apply Prim2SF_valid.
  intros (? & ? & ?) (? & ? & ?). repeat split; auto; lia.
Qed.

Lemma leb_ltb_trans x y z :
  (x <=? y)%float = true -> (y <? z)%float = true -> (x <? z)%float = true.
Proof.
  rewrite !ltb_spec, leb_spec.
  rewrite !SFltb_rank, SFleb_rank by apply Prim2SF_valid.
  intros (? & ? & ?) (? & ? & ?). repeat split; auto; lia.
Qed.

Lemma leb_trans x y z :
  (x <=? y)%float = true -> (y <=? z)%float = true -> (x <=? z)%float = true.
Proof.
  rewrite !leb_spec. rewrite !SFleb_rank by apply Prim2SF_valid.
  intros (? & ? & ?) (? & ? & ?). repeat split; auto; lia.
Qed.

End FloatOrder.

(** ** The dwell loop of [check_gaze] *)

Import Main.

Module DwellSpec.

Section Loop.
Variable inv : Z -> bool.

Lemma scan_off btns pt t d :
  hit btns pt = None -> scan_buttons inv btns pt t d = (idle, None).
Proof.
  unfold hit. induction btns as [|b r IH]; simpl; [reflexivity|].
  destruct (contains (btn_rect b) pt); [discriminate|exact IH].
Qed.

Lemma scan_on btns pt t d b :
  hit btns pt = Some b ->
  scan_buttons inv btns pt t d =
    if negb (same_button (hovered_button d) b) then (hovering (btn_id b) t, None)
    else if hasExpired inv (hover_timer d) t DWELL_MS
         then ({| hovered_button := hovered_button d; hover_timer := None |},
               Some (btn_id b))
         else (d, None).
Proof.
  unfold hit. induction btns as [|a r IH]; simpl; [discriminate|].
  destruct (contains (btn_rect a) pt); [|exact IH].
  intros [= ->]. reflexivity.
Qed.

Lemma on_target_hit btns i pt :
  on_target btns i pt -> exists b, hit btns pt = Some b /\ btn_id b = i.
Proof.
  unfold on_target. destruct (hit btns pt) as [b|]; simpl; [|discriminate].
  intros [= <-]. eauto.
Qed.

Lemma same_button_refl b : same_button (Some (btn_id b)) b = true.
Proof. simpl. apply Nat.eqb_refl. Qed.

Lemma same_button_neq h b :
  h <> Some (btn_id b) -> same_button h b = false.
Proof.
  destruct h as [j|]; simpl; [|reflexivity].
  intros H. apply Nat.eqb_neq. congruence.
Qed.

(** Entering a target that is not the hovered one starts the timer. *)
Lemma enter btns i pt t d :
  on_target btns i pt -> hovered_button d <> Some i ->
  scan_buttons inv btns pt t d = (hovering i t, None).
Proof.
  intros Hon Hne. destruct (on_target_hit _ _ _ Hon) as (b & Hb & <-).
  rewrite (scan_on _ _ _ _ _ Hb), same_button_neq by exact Hne. reflexivity.
Qed.

(** Staying on the hovered target, at most 2000 ms after the hover began. *)
Lemma stay btns i pt t since :
  on_target btns i pt -> t - since <= DWELL_MS ->
  scan_buttons inv btns pt t (hovering i since) = (hovering i since, None).
Proof.
  intros Hon Hle. destruct (on_target_hit _ _ _ Hon) as (b & Hb & <-).
  rewrite (scan_on _ _ _ _ _ Hb). simpl hovered_button.
  rewrite same_button_refl. simpl.
  destruct (Z.ltb_spec DWELL_MS (t - since)); [lia|reflexivity].
Qed.

(** Staying on the hovered target, more than 2000 ms after the hover began. *)
Lemma fire btns i pt t since :
  on_target btns i pt -> DWELL_MS < t - since ->
  scan_buttons inv btns pt t (hovering i since) = (fired i, Some i).
Proof.
  intros Hon Hlt. destruct (on_target_hit _ _ _ Hon) as (b & Hb & <-).
  rewrite (scan_on _ _ _ _ _ Hb). simpl hovered_button.
  rewrite same_button_refl. simpl.
  destruct (Z.ltb_spec DWELL_MS (t - since)); [reflexivity|lia].
Qed.

(** Staying on the target once it has fired: the invalidated timer decides. *)
Lemma after_fire btns i pt t :
  on_target btns i pt ->
  scan_buttons inv btns pt t (fired i) =
    (fired i, if inv t then Some i else None).
Proof.
  intros Hon. destruct (on_target_hit _ _ _ Hon) as (b & Hb & <-).
  rewrite (scan_on _ _ _ _ _ Hb). simpl hovered_button.
  rewrite same_button_refl. simpl. destruct (inv t); reflexivity.
Qed.

Lemma dwell_run_app btns d pts1 pts2 :
  dwell_run inv btns d (pts1 ++ pts2) =
    let '(d1, c1) := dwell_run inv btns d pts1 in
    let '(d2, c2) := dwell_run inv btns d1 pts2 in
    (d2, c1 ++ c2).
Proof.
  revert d. induction pts1 as [|[pt t] r IH]; intros d; simpl.
  - destruct (dwell_run inv btns d pts2); reflexivity.
  - destruct (scan_buttons inv btns pt t d) as [d1 c].
    rewrite IH. destruct (dwell_run inv btns d1 r) as [d2 cs].
    destruct (dwell_run inv btns d2 pts2) as [d3 cs']. reflexivity.
Qed.

Lemma dwell_run_stay btns i since pts :
  Forall (fun p => on_target btns i (fst p) /\ snd p - since <= DWELL_MS) pts ->
  dwell_run inv btns (hovering i since) pts =
    (hovering i since, repeat None (length pts)).
Proof.
  induction 1 as [|[pt t] r [Hon Hle] _ IH]; simpl; [reflexivity|].
  simpl in Hon, Hle. rewrite stay by assumption. rewrite IH. reflexivity.
Qed.

Lemma dwell_run_after_fire btns i pts :
  Forall (fun p => on_target btns i (fst p)) pts ->
  dwell_run inv btns (fired i) pts =
    (fired i, map (fun p => if inv (snd p) then Some i else None) pts).
Proof.
  induction 1 as [|[pt t] r Hon _ IH]; simpl; [reflexivity|].
  simpl in Hon. rewrite after_fire by assumption. rewrite IH. reflexivity.
Qed.

End Loop.
End DwellSpec.

Module DwellClaims.
Import DwellSpec.

(** C1 (as amended).  For every uninterrupted dwell on one button [i], begun
    at clock reading [t0] from a state in which [i] was not the hovered
    button, and whatever an invalidated timer reports: no tick at which at
    most 2000 ms have elapsed activates anything, and the first tick at
    which more than 2000 ms have elapsed activates [i], once.  A tick off
    every button resets the state to idle, whatever the state, and
    re-entering the button from idle restarts the timer.  (What the ticks
    of the same dwell after the activation do is not stated here.) *)
Theorem dwell_fires_past_threshold :
  forall (inv : Z -> bool) (btns : list Button) (i : nat) (d0 : Dwell)
         (p0 : Z * Z) (t0 : Z) (before : list ((Z * Z) * Z))
         (pf : Z * Z) (tf : Z),
    hovered_button d0 <> Some i ->
    on_target btns i p0 ->
    Forall (fun p => on_target btns i (fst p) /\ snd p - t0 <= 2000) before ->
    on_target btns i pf -> 2000 < tf - t0 ->
    snd (dwell_run inv btns d0 ((p0, t0) :: before ++ [(pf, tf)]))
      = None :: repeat None (length before) ++ [Some i]
    /\ (forall d q t, hit btns q = None ->
          scan_buttons inv btns q t d = (idle, None))
    /\ (forall q t, on_target btns i q ->
          scan_buttons inv btns q t idle = (hovering i t, None)).
Proof.
  intros inv btns i d0 p0 t0 before pf tf Hd0 Hp0 Hbefore Hpf Htf.
  split; [|split].
  - cbn [dwell_run]. rewrite (enter inv btns i) by assumption.
    rewrite dwell_run_app, dwell_run_stay by assumption.
    cbn [dwell_run]. rewrite fire by assumption. reflexivity.
  - intros d q t Hq. apply scan_off. exact Hq.
  - intros q t Hq. apply (enter inv btns i); [exact Hq|]. discriminate.
Qed.
End DwellClaims.

Module DwellExamples.
Import DwellSpec DwellClaims.

(** C1, witness: ticks at 0, 1000, 2000 and 2100 ms on button 7, with a
    timer that reports expiry when it is invalid. *)
Lemma dwell_fires_witness :
  snd (dwell_run always [button7] idle
         (((150, 150), 0) :: [((150, 150), 1000); ((150, 150), 2000)]
            ++ [((150, 150), 2100)]))
    = None :: repeat None 2 ++ [Some 7%nat]
  /\ (forall d q t, hit [button7] q = None ->
        scan_buttons always [button7] q t d = (idle, None))
  /\ (forall q t, on_target [button7] 7%nat q ->
        scan_buttons always [button7] q t idle = (hovering 7%nat t, None)).
Proof.
  apply (dwell_fires_past_threshold always [button7] 7%nat idle (150, 150) 0
           [((150, 150), 1000); ((150, 150), 2000)] (150, 150) 2100).
  - discriminate.
  - reflexivity.
  - repeat constructor; simpl; lia.
  - reflexivity.
  - lia.
Defined.

(** C1, counterexample: the cursor stays on button 7 from clock reading 0 to
    clock reading 2000 and leaves at 2100.  The hover has lasted 2000 ms at
    the second tick, and nothing is activated, whatever an invalidated timer
    reports; when the hover is kept on until 2100 the button is activated
    and stays the hovered button.  With a timer that reports expiry when it
    is invalid, the ticks at 2200 and 2300 of the same hover activate the
    button again. *)
Lemma dwell_at_threshold_counterexample :
  dwell_run never [button7] idle
    [((150, 150), 0); ((150, 150), 2000); ((0, 0), 2100)]
    = (idle, [None; None; None])
  /\ dwell_run always [button7] idle
    [((150, 150), 0); ((150, 150), 2000); ((0, 0), 2100)]
    = (idle, [None; None; None])
  /\ dwell_run never [button7] idle [((150, 150), 0); ((150, 150), 2100)]
    = ({| hovered_button := Some 7%nat; hover_timer := None |}, [None; Some 7%nat])
  /\ dwell_run always [button7] idle [((150, 150), 0); ((150, 150), 2100)]
    = ({| hovered_button := Some 7%nat; hover_timer := None |}, [None; Some 7%nat])
  /\ dwell_run always [button7] idle
       [((150, 150), 0); ((150, 150), 2100); ((150, 150), 2200);
        ((150, 150), 2300)]
    = ({| hovered_button := Some 7%nat; hover_timer := None |},
       [None; Some 7%nat; Some 7%nat; Some 7%nat]).
Proof. repeat split. Qed.

(** The ticks of a dwell after the activation: when the invalidated timer
    reports expiry, as the timer of PyQt5 does, the button is activated
    again on every further tick of the same hover. *)
Lemma refire_when_invalid_timer_expires :
  forall (inv : Z -> bool) (btns : list Button) (i : nat)
         (after : list ((Z * Z) * Z)),
    (forall t, inv t = true) ->
    Forall (fun p => on_target btns i (fst p)) after ->
    dwell_run inv btns (fired i) after
      = (fired i, repeat (Some i) (length after)).
Proof.
  intros inv btns i after Hinv Hafter.
  rewrite dwell_run_after_fire by assumption. f_equal.
  clear - Hinv. induction after as [|p r IH]; simpl; [reflexivity|].
  rewrite Hinv, IH. reflexivity.
Qed.

End DwellExamples.

(** ** The mapping of [check_gaze] *)

Module MappingSpec.

Lemma column_with_counts f i cal :
  column (S i) (with_counts f cal) = column (S i) cal.
Proof.
  unfold column. induction cal as [|[k v] r IH]; simpl; [reflexivity|].
  rewrite IH. destruct v; reflexivity.
Qed.

Lemma lookup_with_counts f name i cal :
  (row <- lookup name (with_counts f cal) ;; getitem row (S i))
  = (row <- lookup name cal ;; getitem row (S i)).
Proof.
  induction cal as [|[k v] r IH]; simpl; [reflexivity|].
  destruct (String.eqb k name); [|exact IH]. destruct v; reflexivity.
Qed.

Lemma calibration_model_with_counts f cal W H :
  calibration_model (with_counts f cal) W H = calibration_model cal W H.
Proof.
  unfold calibration_model.
  rewrite !column_with_counts, !lookup_with_counts. reflexivity.
Qed.

(** [int] succeeds exactly on the finite doubles. *)
Lemma py_int_finite x : finite x = true -> exists z, py_int x = Ok z.
Proof.
  unfold finite, py_int. destruct (Prim2SF x); simpl; try discriminate; eauto.
Qed.

Lemma py_int_not_finite x :
  finite x = false -> py_int x = Raise OverflowError \/ py_int x = Raise ValueError.
Proof.
  unfold finite, py_int. destruct (Prim2SF x); simpl; try discriminate; auto.
Qed.

Lemma clamp_bounds extent v : 1 <= extent -> 0 <= clamp extent v <= extent - 1.
Proof. unfold clamp. lia. Qed.

Lemma project_with_bounds m W H dx dy x y :
  1 <= W -> 1 <= H ->
  project_with m W H dx dy = Ok (x, y) ->
  0 <= x <= W - 1 /\ 0 <= y <= H - 1.
Proof.
  intros HW HH. destruct m as [[[SX SY] cdx] cdy]. unfold project_with, project_axis.
  destruct (py_int _); simpl; [|discriminate].
  destruct (py_int _); simpl; [|discriminate].
  intros [= <- <-]. split; apply clamp_bounds; assumption.
Qed.

(** What a tick that completes has computed. *)
Lemma check_gaze_ok :
  forall (inv : Z -> bool) (cal : calibration) (st st' : State) (tk : Tick)
         (eff : Effects),
    check_gaze inv cal st tk = Ok (st', eff) ->
    exists screen_x screen_y,
      project cal (fst (screen tk)) (snd (screen tk))
              (fst (offsets tk)) (snd (offsets tk)) = Ok (screen_x, screen_y)
      /\ scan_buttons inv (buttons tk) (screen_x, screen_y) (now tk) (dwell st)
         = (dwell st', clicked eff)
      /\ smooth_axis (fst (prev_cursor_pos st)) screen_x = Ok (fst (moved_to eff))
      /\ smooth_axis (snd (prev_cursor_pos st)) screen_y = Ok (snd (moved_to eff))
      /\ prev_cursor_pos st' = moved_to eff.
Proof.
  intros inv cal st st' tk eff. unfold check_gaze.
  destruct (offsets tk) as [dx dy], (screen tk) as [W H]. simpl fst; simpl snd.
  destruct (project cal W H dx dy) as [[sx sy]|]; simpl; [|discriminate].
  destruct (prev_cursor_pos st) as [px py]. simpl.
  destruct (smooth_axis px sx) as [mx|] eqn:Hmx; simpl; [|discriminate].
  destruct (smooth_axis py sy) as [my|] eqn:Hmy; simpl; [|discriminate].
  destruct (scan_buttons inv (buttons tk) (sx, sy) (now tk) (dwell st))
    as [d c] eqn:Hscan.
  intros [= <- <-]. exists sx, sy. simpl. rewrite Hscan, Hmx, Hmy.
  repeat split; reflexivity.
Qed.

End MappingSpec.

Module MappingClaims.
Import MappingSpec.

(** C2 (as amended).  [check_gaze] never reads the sample counts: whatever
    counts the records of the table carry, zero included, a tick gives the
    same result.  No count makes the mapping fail. *)
Theorem check_gaze_ignores_sample_counts :
  forall (inv : Z -> bool) (f : string -> float) (cal : calibration)
         (st : State) (tk : Tick),
    check_gaze inv (with_counts f cal) st tk = check_gaze inv cal st tk.
Proof.
  intros. unfold check_gaze, project.
  destruct (offsets tk) as [dx dy], (screen tk) as [W H].
  rewrite calibration_model_with_counts. reflexivity.
Qed.

(** C3 (as amended).  On every tick that completes, the point tested against
    the buttons is the clamped projection [(screen_x, screen_y)] of the
    tick's offsets; the smoothed position is only where the pointer is
    moved. *)
Theorem hit_test_uses_projected_point :
  forall (inv : Z -> bool) (cal : calibration) (st st' : State) (tk : Tick)
         (eff : Effects),
    check_gaze inv cal st tk = Ok (st', eff) ->
    exists screen_x screen_y,
      project cal (fst (screen tk)) (snd (screen tk))
              (fst (offsets tk)) (snd (offsets tk)) = Ok (screen_x, screen_y)
      /\ scan_buttons inv (buttons tk) (screen_x, screen_y) (now tk) (dwell st)
         = (dwell st', clicked eff)
      /\ smooth_axis (fst (prev_cursor_pos st)) screen_x = Ok (fst (moved_to eff))
      /\ smooth_axis (snd (prev_cursor_pos st)) screen_y = Ok (snd (moved_to eff))
      /\ prev_cursor_pos st' = moved_to eff.
Proof. exact check_gaze_ok. Qed.

(** C7 (as amended).  On a screen of at least one pixel each way, every
    point the projection returns lies within
    [0, screen_w - 1] x [0, screen_h - 1].  For a table from which the model
    is built, the projection returns a point when the two scaled relative
    offsets are finite doubles, and raises when one of them is not. *)
Theorem project_within_screen :
  forall (cal : calibration) (W H : Z) (dx dy : float),
    1 <= W -> 1 <= H ->
    (forall x y, project cal W H dx dy = Ok (x, y) ->
                 0 <= x <= W - 1 /\ 0 <= y <= H - 1)
    /\ (forall SX SY cdx cdy,
          calibration_model cal W H = Ok (SX, SY, cdx, cdy) ->
          (finite (float_of_int dir_x * (dx - cdx) * SX) = true ->
           finite (float_of_int dir_y * (dy - cdy) * SY) = true ->
           exists x y, project cal W H dx dy = Ok (x, y)
                       /\ 0 <= x <= W - 1 /\ 0 <= y <= H - 1)
          /\ (finite (float_of_int dir_x * (dx - cdx) * SX) = false
              \/ finite (float_of_int dir_y * (dy - cdy) * SY) = false ->
              project cal W H dx dy = Raise OverflowError
              \/ project cal W H dx dy = Raise ValueError)).
Proof.
  intros cal W H dx dy HW HH. split.
  - intros x y. unfold project.
    destruct (calibration_model cal W H) as [m|]; simpl; [|discriminate].
    apply project_with_bounds; assumption.
  - intros SX SY cdx cdy Hm. unfold project. rewrite Hm. simpl. split.
    + intros Hx Hy. unfold project_axis.
      destruct (py_int_finite _ Hx) as [ix ->].
      destruct (py_int_finite _ Hy) as [iy ->]. simpl.
      eexists _, _. split; [reflexivity|].
      split; apply clamp_bounds; assumption.
    + unfold project_axis. intros [Hx|Hy].
      * destruct (py_int_not_finite _ Hx) as [-> | ->]; simpl; auto.
      * destruct (finite (float_of_int dir_x * (dx - cdx) * SX)) eqn:Hx.
        -- destruct (py_int_finite _ Hx) as [ix ->].
           destruct (py_int_not_finite _ Hy) as [-> | ->]; simpl; auto.
        -- destruct (py_int_not_finite _ Hx) as [-> | ->]; simpl; auto.
Qed.

End MappingClaims.

Module MappingExamples.
Import MappingSpec MappingClaims DwellSpec.

(** C2, counterexample: the record of "Bottom" has sample count 0, and the
    tick maps the sample and completes. *)
Lemma zero_count_record_is_mapped :
  (row <- lookup "Bottom" table ;; getitem row 0) = Ok 0%float
  /\ project table 1920 1080 0 0 = Ok (960, 540)
  /\ check_gaze never table start (tick 0 0 0)
     = Ok ({| prev_cursor_pos := (192, 108);
              dwell := {| hovered_button := Some 1%nat;
                          hover_timer := Some 0 |} |},
           {| moved_to := (192, 108); clicked := None |}).
Proof. repeat split; vm_compute; reflexivity. Qed.

(** C3, witness. *)
Lemma hit_test_uses_projected_point_witness :
  exists screen_x screen_y,
    project table 1920 1080 0 0 = Ok (screen_x, screen_y)
    /\ scan_buttons never [corner_button; centre_button]
         (screen_x, screen_y) 0 idle
       = ({| hovered_button := Some 1%nat; hover_timer := Some 0 |}, None)
    /\ smooth_axis 0 screen_x = Ok 192
    /\ smooth_axis 0 screen_y = Ok 108
    /\ (192, 108) = (192, 108).
Proof.
  apply (hit_test_uses_projected_point never table start
           {| prev_cursor_pos := (192, 108);
              dwell := {| hovered_button := Some 1%nat;
                          hover_timer := Some 0 |} |}
           (tick 0 0 0) {| moved_to := (192, 108); clicked := None |}).
  vm_compute. reflexivity.
Defined.

(** C3, counterexample: the pointer is moved to the smoothed position
    (192, 108), which lies in the corner button and not in the centre
    button; the button that becomes hovered is the centre button, which
    contains the projected point (960, 540). *)
Lemma hit_test_not_at_smoothed_position :
  check_gaze never table start (tick 0 0 0)
    = Ok ({| prev_cursor_pos := (192, 108);
             dwell := {| hovered_button := Some 1%nat;
                         hover_timer := Some 0 |} |},
          {| moved_to := (192, 108); clicked := None |})
  /\ project table 1920 1080 0 0 = Ok (960, 540)
  /\ contains (btn_rect centre_button) (192, 108) = false
  /\ contains (btn_rect corner_button) (192, 108) = true
  /\ contains (btn_rect centre_button) (960, 540) = true
  /\ scan_buttons never [corner_button; centre_button] (192, 108) 0 idle
     = ({| hovered_button := Some 2%nat; hover_timer := Some 0 |}, None).
Proof. repeat split; vm_compute; reflexivity. Qed.

(** C4, counterexample: two ticks read the same sample; the second tick
    moves the pointer from (192, 108) to (345, 194). *)
Lemma repeated_sample_moves_cursor :
  run never table start [tick 0 0 0; tick 0 0 100]
    = Ok ({| prev_cursor_pos := (345, 194);
             dwell := {| hovered_button := Some 1%nat;
                         hover_timer := Some 0 |} |},
          [ {| moved_to := (192, 108); clicked := None |};
            {| moved_to := (345, 194); clicked := None |} ])
  /\ offsets (tick 0 0 100) = offsets (tick 0 0 0)
  /\ (345, 194) <> (192, 108).
Proof. repeat split; try (vm_compute; reflexivity). discriminate. Qed.

(** C7, witness. *)
Lemma project_within_screen_witness :
  exists x y,
    project table 1920 1080 0.0078125 0.0078125 = Ok (x, y)
    /\ 0 <= x <= 1920 - 1 /\ 0 <= y <= 1080 - 1.
Proof.
  refine (proj1 (proj2 (project_within_screen table 1920 1080
                          0.0078125 0.0078125 _ _)
                   19200%float 21600%float 0%float 0%float _) _ _).
  - lia.
  - lia.
  - vm_compute. reflexivity.
  - vm_compute. reflexivity.
  - vm_compute. reflexivity.
Defined.

(** C7, counterexample: the horizontal offset 1e308 is a finite double; the
    scaled offset overflows, [int] raises and the tick produces no point. *)
Lemma project_overflows_on_large_finite_offset :
  finite 1e308 = true
  /\ finite 0 = true
  /\ calibration_model table 1920 1080
     = Ok (19200%float, 21600%float, 0%float, 0%float)
  /\ project table 1920 1080 1e308 0 = Raise OverflowError
  /\ check_gaze never table start (tick 1e308 0 0) = Raise OverflowError.
Proof. repeat split; vm_compute; reflexivity. Qed.

End MappingExamples.

Module ModelFacts.
Import SFFacts FloatFacts SFClass MappingSpec.

Lemma Prim2SF_001 : Prim2SF 0.01 = sf_001.
Proof. vm_compute. reflexivity. Qed.
Lemma Prim2SF_08 : Prim2SF 0.8 = sf_08.
Proof. vm_compute. reflexivity. Qed.
Lemma Prim2SF_40000 : Prim2SF 40000 = sf_40000.
Proof. vm_compute. reflexivity. Qed.
Lemma Prim2SF_0 : Prim2SF 0 = S754_zero false.
Proof. vm_compute. reflexivity. Qed.

(** [max] and [min] of a list return one of its elements. *)
Lemma fold_left_choice (f : float -> float -> float) (P : float -> Prop) :
  (forall a b, P a -> P b -> P (f a b)) ->
  forall l x, P x -> Forall P l -> P (fold_left f l x).
Proof.
  intros Hf. induction l as [|y r IH]; intros x Hx HF; simpl; [exact Hx|].
  inversion HF; subst. apply IH; [apply Hf|]; assumption.
Qed.

Lemma max2_choice (P : float -> Prop) a b : P a -> P b -> P (max2 a b).
Proof. unfold max2. destruct (a <? b)%float; auto. Qed.

Lemma min2_choice (P : float -> Prop) a b : P a -> P b -> P (min2 a b).
Proof. unfold min2. destruct (b <? a)%float; auto. Qed.

(** Lines 79-80: over a non-empty list of finite doubles the range is not a
    NaN. *)
Lemma axis_range_rounded x l :
  Forall (fun d => finite d = true) (x :: l) ->
  exists r s, axis_range (x :: l) = Ok r /\ rounded s (Prim2SF r).
Proof.
  intros HF. inversion HF as [|? ? Hx Hl]; subst.
  unfold axis_range. cbn [max_list min_list bind].
  set (hi := fold_left max2 l x). set (lo := fold_left min2 l x).
  assert (Hhi : finite hi = true).
  { apply (fold_left_choice max2 (fun d => finite d = true)); auto.
    intros a b Ha Hb. apply (max2_choice (fun d => finite d = true)); assumption. }
  assert (Hlo : finite lo = true).
  { apply (fold_left_choice min2 (fun d => finite d = true)); auto.
    intros a b Ha Hb. apply (min2_choice (fun d => finite d = true)); assumption. }
  destruct (SFsub_finite _ _ Hhi Hlo) as [s Hs].
  exists (hi - lo)%float, s. split; [reflexivity|].
  rewrite sub_spec. exact Hs.
Qed.

(** Lines 82-83 *)
Lemma max2_001 r s :
  rounded s (Prim2SF r) -> at_least_001 (Prim2SF (max2 r 0.01)).
Proof.
  intros Hr. unfold max2. rewrite ltb_spec, Prim2SF_001.
  destruct (SFltb (Prim2SF r) sf_001) eqn:Hlt.
  - rewrite Prim2SF_001. apply at_least_001_self.
  - apply (not_below_001 s); assumption.
Qed.

Lemma float_of_pos_int W :
  1 <= W < 2 ^ 53 ->
  exists m e, Prim2SF (float_of_int W) = S754_finite false m e.
Proof.
  intros HW. rewrite Prim2SF_float_of_int by lia.
  destruct W as [|p|p]; try lia. apply sf_of_pos_finite.
Qed.

(** Lines 85-86: the gain is a non-negative finite double. *)
Lemma axis_scale_nonneg W r :
  1 <= W < 2 ^ 53 -> at_least_001 (Prim2SF r) ->
  exists S, axis_scale W r = Ok S /\ nonneg_finite (Prim2SF S).
Proof.
  intros HW Hr. unfold axis_scale, truediv.
  pose proof (SFmul_08_nonzero _ Hr) as Hx.
  rewrite <- Prim2SF_08, <- mul_spec in Hx.
  assert (Hz : ((r * 0.8) =? 0)%float = false).
  { rewrite eqb_spec, Prim2SF_0. destruct Hx as [m e|]; reflexivity. }
  rewrite Hz. cbn [bind].
  set (q := (float_of_int W / (r * 0.8))%float).
  assert (Hq : rounded false (Prim2SF q)).
  { subst q. rewrite div_spec.
    destruct (float_of_pos_int W HW) as (m & e & ->).
    apply SFdiv_pos_rounded. exact Hx. }
  exists (min2 q 40000). split; [reflexivity|].
  unfold min2. rewrite ltb_spec, Prim2SF_40000.
  destruct (SFltb sf_40000 (Prim2SF q)) eqn:Hlt.
  - rewrite Prim2SF_40000. right. unfold sf_40000. eauto.
  - apply not_above_40000; assumption.
Qed.

Lemma py_int_zero x s : Prim2SF x = S754_zero s -> py_int x = Ok 0.
Proof. unfold py_int. intros ->. reflexivity. Qed.

(** Lines 93-94 at a zero relative offset: the screen centre. *)
Lemma project_axis_zero W dir rel S :
  0 < Z.abs dir < 2 ^ 53 ->
  Prim2SF rel = S754_zero false -> nonneg_finite (Prim2SF S) ->
  project_axis W dir rel S = Ok (W / 2 + 0).
Proof.
  intros Hdir Hrel HS. unfold project_axis.
  assert (Hd : exists s m e, Prim2SF (float_of_int dir) = S754_finite s m e).
  { rewrite Prim2SF_float_of_int by lia.
    destruct dir as [|p|p]; try lia; cbn [sf_of_int].
    - destruct (sf_of_pos_finite false p) as (m & e & ->). eauto.
    - destruct (sf_of_pos_finite true p) as (m & e & ->). eauto. }
  destruct Hd as (s & m & e & Hd).
  assert (H1 : Prim2SF (float_of_int dir * rel) = S754_zero (xorb s false)).
  { rewrite mul_spec, Hd, Hrel. reflexivity. }
  assert (H2 : Prim2SF (float_of_int dir * rel * S) = S754_zero (xorb s false)).
  { rewrite mul_spec, H1. apply SFmul_zero_finite. exact HS. }
  rewrite (py_int_zero _ _ H2). reflexivity.
Qed.

Lemma column_finite cal :
  finite_table cal = true ->
  exists dxs dys,
    column 2 cal = Ok dxs /\ column 3 cal = Ok dys
    /\ Forall (fun d => finite d = true) dxs
    /\ Forall (fun d => finite d = true) dys
    /\ length dxs = length cal /\ length dys = length cal.
Proof.
  unfold finite_table, column.
  induction cal as [|[k v] r IH]; cbn [forallb mapM].
  - intros _. exists [], []. repeat split; constructor.
  - intros H. apply andb_prop in H as [Hv Hr].
    destruct (IH Hr) as (dxs & dys & -> & -> & Fx & Fy & Lx & Ly).
    cbn [snd] in *.
    destruct v as [|a [|b [|dx [|dy [|w [|g t]]]]]]; try discriminate.
    apply andb_prop in Hv as [Hdx Hdy]. cbn.
    exists (dx :: dxs), (dy :: dys). cbn [length].
    repeat split; try constructor; auto.
Qed.

Lemma lookup_finite name cal row :
  finite_table cal = true -> lookup name cal = Ok row ->
  finite_record row = true.
Proof.
  unfold finite_table. induction cal as [|[k v] r IH]; cbn [forallb lookup].
  - discriminate.
  - intros H. apply andb_prop in H as [Hv Hr].
    destruct (String.eqb k name); [intros [= <-]; exact Hv|apply IH; exact Hr].
Qed.

Lemma lookup_nonempty name cal row : lookup name cal = Ok row -> cal <> [].
Proof. destruct cal; [discriminate|discriminate]. Qed.

(** Lines 77-89: on a table of finite records with a "Center" record the
    model is built, and its gains are non-negative finite doubles. *)
Lemma calibration_model_built cal W H a b cdx cdy w :
  finite_table cal = true ->
  lookup "Center" cal = Ok [a; b; cdx; cdy; w] ->
  1 <= W < 2 ^ 53 -> 1 <= H < 2 ^ 53 ->
  exists SX SY,
    calibration_model cal W H = Ok (SX, SY, cdx, cdy)
    /\ nonneg_finite (Prim2SF SX) /\ nonneg_finite (Prim2SF SY).
Proof.
  intros Hfin Hc HW HH. unfold calibration_model.
  destruct (column_finite cal Hfin) as (dxs & dys & -> & -> & Fx & Fy & Lx & Ly).
  cbn [bind].
  assert (Hne : cal <> []) by (eapply lookup_nonempty; eassumption).
  destruct dxs as [|x xs]; [destruct cal; [congruence|discriminate]|].
  destruct dys as [|y ys]; [destruct cal; [congruence|discriminate]|].
  destruct (axis_range_rounded x xs Fx) as (rx & sx & -> & Hrx).
  destruct (axis_range_rounded y ys Fy) as (ry & sy & -> & Hry).
  cbn [bind].
  destruct (axis_scale_nonneg W _ HW (max2_001 rx sx Hrx)) as (SX & -> & HSX).
  destruct (axis_scale_nonneg H _ HH (max2_001 ry sy Hry)) as (SY & -> & HSY).
  cbn [bind]. rewrite Hc. cbn.
  exists SX, SY. auto.
Qed.

End ModelFacts.

Module CenterClaim.
Import SFFacts FloatFacts SFClass MappingSpec ModelFacts.

(** C6.  For every table of records of the persisted shape with finite mean
    offsets that has a "Center" record, whatever the sample counts, and
    every screen of 1 to 2^53 - 1 pixels each way, the projection of the
    Center record's own mean offsets is the screen centre
    [(screen_w // 2, screen_h // 2)], exactly. *)
Theorem center_sample_maps_to_screen_center :
  forall (cal : calibration) (W H : Z) (a b cdx cdy w : float),
    finite_table cal = true ->
    lookup "Center" cal = Ok [a; b; cdx; cdy; w] ->
    1 <= W < 2 ^ 53 -> 1 <= H < 2 ^ 53 ->
    project cal W H cdx cdy = Ok (W / 2, H / 2).
Proof.
  intros cal W H a b cdx cdy w Hfin Hc HW HH.
  destruct (calibration_model_built cal W H a b cdx cdy w Hfin Hc HW HH)
    as (SX & SY & Hm & HSX & HSY).
  unfold project. rewrite Hm. cbn [bind project_with].
  pose proof (lookup_finite _ _ _ Hfin Hc) as Hrow. cbn in Hrow.
  apply andb_prop in Hrow as [Hdx Hdy].
  assert (Hrx : Prim2SF (cdx - cdx) = S754_zero false).
  { rewrite sub_spec. apply SFsub_diag. exact Hdx. }
  assert (Hry : Prim2SF (cdy - cdy) = S754_zero false).
  { rewrite sub_spec. apply SFsub_diag. exact Hdy. }
  rewrite (project_axis_zero W dir_x _ SX) by (assumption || (cbv; split; reflexivity)).
  rewrite (project_axis_zero H dir_y _ SY) by (assumption || (cbv; split; reflexivity)).
  cbn [bind]. unfold clamp. f_equal. f_equal.
  - pose proof (Z.div_pos W 2) as P. assert (W / 2 < W) by (apply Z.div_lt; lia). lia.
  - pose proof (Z.div_pos H 2) as P. assert (H / 2 < H) by (apply Z.div_lt; lia). lia.
Qed.

End CenterClaim.

(** ** Truncation and the smoothing step at the target *)

Module SmoothCheck.
Import SFFacts FloatFacts SFOrder.

Lemma sf_of_int_finite z : sf_finite (sf_of_int z) = true.
Proof.
  destruct z as [|m|m]; cbn [sf_of_int]; [reflexivity| |].
  - destruct (sf_of_pos_finite false m) as (mz & ez & ->). reflexivity.
  - destruct (sf_of_pos_finite true m) as (mz & ez & ->). reflexivity.
Qed.

(** [int] on a finite double, through its scaled value. *)
Lemma py_int_scaled x :
  sf_finite (Prim2SF x) = true ->
  py_int x = Ok (Z.quot (scaled (Prim2SF x)) (2 ^ 1074)).
Proof.
  intros Hf. pose proof (trunc_scaled _ (Prim2SF_valid x) Hf) as Ht.
  unfold py_int. destruct (Prim2SF x); try discriminate; rewrite Ht; reflexivity.
Qed.

Lemma quot_bounds a b v :
  a * 2 ^ 1074 <= v <= b * 2 ^ 1074 -> a <= Z.quot v (2 ^ 1074) <= b.
Proof.
  assert (Hpos : 0 < 2 ^ 1074) by (apply Z.pow_pos_nonneg; lia).
  intros [H1 H2]. split.
  - rewrite <- (Z.quot_mul a (2 ^ 1074)) by lia.
    apply Z.quot_le_mono; lia.
  - rewrite <- (Z.quot_mul b (2 ^ 1074)) by lia.
    apply Z.quot_le_mono; lia.
Qed.

Lemma quot_below c v :
  0 <= v < c * 2 ^ 1074 -> Z.quot v (2 ^ 1074) < c.
Proof.
  assert (Hpos : 0 < 2 ^ 1074) by (apply Z.pow_pos_nonneg; lia).
  intros [H1 H2]. apply Z.quot_lt_upper_bound; lia.
Qed.

(** A position that equals the target stays: [int(p + 0.2 * 0) = p]. *)
Lemma smooth_axis_fixed p :
  Z.abs p < 2 ^ 53 -> Main.smooth_axis p p = Ok p.
Proof.
  intros Hp. unfold Main.smooth_axis. rewrite Z.sub_diag.
  change (0.2 * float_of_int 0)%float with 0%float.
  assert (H : Prim2SF (float_of_int p + 0) = sf_of_int p).
  { rewrite FloatAxioms.add_spec, Prim2SF_float_of_int by assumption.
    change (Prim2SF 0) with (S754_zero false).
    destruct p as [|m|m]; cbn [sf_of_int]; [reflexivity| |].
    - destruct (sf_of_pos_finite false m) as (mz & ez & ->). reflexivity.
    - destruct (sf_of_pos_finite true m) as (mz & ez & ->). reflexivity. }
  rewrite py_int_scaled by (rewrite H; apply sf_of_int_finite).
  rewrite H, scaled_sf_of_int by assumption.
  rewrite Z.quot_mul; [reflexivity|]. apply Z.pow_nonzero; lia.
Qed.

End SmoothCheck.

(** ** Consecutive smoothing steps and a repeated sample *)

Module SmoothSpec.
Import SmoothCheck.

Lemma smooth_run_snoc n : forall p t,
  smooth_run (S n) p t = (q <- smooth_run n p t ;; smooth_axis q t).
Proof.
  induction n as [|n IH]; intros p t.
  - cbn [smooth_run bind]. destruct (smooth_axis p t); reflexivity.
  - change (smooth_run (S (S n)) p t)
      with (q <- smooth_axis p t ;; smooth_run (S n) q t).
    cbn [smooth_run]. destruct (smooth_axis p t) as [q|]; cbn [bind];
      [apply IH|reflexivity].
Qed.

Lemma smooth_run_fixed p t :
  smooth_axis p t = Ok p -> forall n, smooth_run n p t = Ok p.
Proof.
  intros H. induction n as [|n IH]; [reflexivity|].
  cbn [smooth_run]. rewrite H. exact IH.
Qed.

End SmoothSpec.

Module TickClaims.
Import SmoothCheck SmoothSpec MappingSpec MappingClaims.

Lemma project_nonneg cal W H dx dy x y :
  project cal W H dx dy = Ok (x, y) ->
  0 <= x <= Z.max 0 (W - 1) /\ 0 <= y <= Z.max 0 (H - 1).
Proof.
  unfold project. destruct (calibration_model cal W H) as [m|]; [|discriminate].
  cbn [bind]. destruct m as [[[SX SY] cdx] cdy]. unfold project_with, project_axis.
  destruct (py_int _); cbn [bind]; [|discriminate].
  destruct (py_int _); cbn [bind]; [|discriminate].
  intros [= <- <-]. unfold clamp. lia.
Qed.

(** C4 (as amended).  A tick that reads the same sample as the tick before
    it projects it to the same point [(tx, ty)] and moves the pointer one
    more smoothing step toward that point; it leaves the pointer where it
    was when the pointer already stands on that point. *)
Theorem repeated_sample_steps_toward_projection :
  forall (inv : Z -> bool) (cal : calibration) (st st1 st2 : State)
         (tk1 tk2 : Tick) (e1 e2 : Effects),
    offsets tk2 = offsets tk1 -> screen tk2 = screen tk1 ->
    check_gaze inv cal st tk1 = Ok (st1, e1) ->
    check_gaze inv cal st1 tk2 = Ok (st2, e2) ->
    exists tx ty,
      project cal (fst (screen tk1)) (snd (screen tk1))
              (fst (offsets tk1)) (snd (offsets tk1)) = Ok (tx, ty)
      /\ project cal (fst (screen tk2)) (snd (screen tk2))
                 (fst (offsets tk2)) (snd (offsets tk2)) = Ok (tx, ty)
      /\ smooth_axis (fst (prev_cursor_pos st1)) tx = Ok (fst (moved_to e2))
      /\ smooth_axis (snd (prev_cursor_pos st1)) ty = Ok (snd (moved_to e2))
      /\ prev_cursor_pos st2 = moved_to e2
      /\ (fst (screen tk1) <= 2 ^ 53 -> snd (screen tk1) <= 2 ^ 53 ->
          prev_cursor_pos st1 = (tx, ty) ->
          moved_to e2 = prev_cursor_pos st1).
Proof.
  intros inv cal st st1 st2 tk1 tk2 e1 e2 Ho Hs H1 H2.
  destruct (check_gaze_ok _ _ _ _ _ _ H1)
    as (tx & ty & P1 & _).
  destruct (check_gaze_ok _ _ _ _ _ _ H2)
    as (tx' & ty' & P2 & _ & Sx & Sy & Hprev).
  pose proof P2 as P2'. rewrite Ho, Hs, P1 in P2'. injection P2' as <- <-.
  exists tx, ty. repeat split; try assumption.
  intros HW HH Hat. rewrite Hat in Sx, Sy. cbn [fst snd] in Sx, Sy.
  destruct (project_nonneg _ _ _ _ _ _ _ P1) as (Bx & By).
  rewrite smooth_axis_fixed in Sx by lia.
  rewrite smooth_axis_fixed in Sy by lia.
  injection Sx as Sx. injection Sy as Sy. rewrite Hat.
  destruct (moved_to e2) as [mx my]. cbn [fst snd] in *. congruence.
Qed.

End TickClaims.

(** ** The evaluation of [calibration_ui.py] *)

Module EvalSpec.
Import Calib.

#[local] Arguments positions_get : simpl never.

Lemma collect_cons kv calib W H :
  collect (kv :: calib) W H = entry_pair W H kv ++ collect calib W H.
Proof.
  destruct kv as [name values]. unfold entry_pair. simpl.
  destruct values as [|a [|b [|c [|d [|e [|g r]]]]]]; try reflexivity.
  destruct (positions_get name positions) as [[[xf yf] k]|]; reflexivity.
Qed.

Lemma entry_pair_qualifies W H kv :
  entry_pair W H kv = [] <-> qualifies kv = false.
Proof.
  destruct kv as [name values]. unfold entry_pair, qualifies. simpl.
  destruct values as [|a [|b [|c [|d [|e [|g r]]]]]]; simpl;
    try (split; reflexivity).
  destruct (positions_get name positions) as [[[xf yf] k]|]; simpl;
    split; (reflexivity || discriminate).
Qed.

Lemma collect_flat_map calib W H :
  collect calib W H = flat_map (entry_pair W H) calib.
Proof.
  induction calib as [|kv r IH]; [reflexivity|].
  rewrite collect_cons, IH. reflexivity.
Qed.

Lemma collect_filter calib W H :
  collect (filter qualifies calib) W H = collect calib W H.
Proof.
  induction calib as [|kv r IH]; [reflexivity|]. simpl filter.
  destruct (qualifies kv) eqn:Hq.
  - rewrite !collect_cons, IH. reflexivity.
  - rewrite collect_cons, IH.
    rewrite (proj2 (entry_pair_qualifies W H kv) Hq). reflexivity.
Qed.

Lemma collect_length calib W H :
  length (collect calib W H) = length (filter qualifies calib).
Proof.
  induction calib as [|kv r IH]; [reflexivity|].
  rewrite collect_cons, length_app, IH. simpl filter.
  destruct (qualifies kv) eqn:Hq.
  - destruct kv as [name values]. unfold entry_pair, qualifies in *. simpl in *.
    destruct values as [|a [|b [|c [|d [|e [|g r']]]]]]; simpl in Hq;
      try discriminate.
    destruct (positions_get name positions) as [[[xf yf] k]|];
      [reflexivity|discriminate].
  - rewrite (proj2 (entry_pair_qualifies W H kv) Hq). reflexivity.
Qed.

Lemma collect_nil calib W H :
  collect calib W H = [] <-> Forall (fun kv => qualifies kv = false) calib.
Proof.
  rewrite <- length_zero_iff_nil, collect_length, length_zero_iff_nil.
  induction calib as [|kv r IH]; simpl.
  - split; auto.
  - destruct (qualifies kv) eqn:Hq.
    + split; [discriminate|]. intros HF. inversion HF; congruence.
    + rewrite IH. split; [auto|]. intros HF. inversion HF; assumption.
Qed.

End EvalSpec.

(** ** The evaluation of any loaded table *)

Module LoadedFacts.
Import Calib.

Section Libraries.

Variable acos : float -> float.
Variable draw : Loaded.Drawing -> result unit.
Variable repeat_error : nat -> Z -> option py_error.

#[local] Abbreviation entry := (Loaded.entry repeat_error).
#[local] Abbreviation collect := (Loaded.collect repeat_error).
#[local] Abbreviation run_evaluation :=
  (Loaded.run_evaluation acos draw repeat_error).

Lemma entry_outcome W H name v :
  (skipped (name, v) = true /\ entry W H name v = Ok [])
  \/ (skipped (name, v) = false
      /\ ((exists pg, entry W H name v = Ok [pg])
          \/ exists e, entry W H name v = Raise e)).
Proof.
  unfold skipped, Loaded.entry. cbn [fst snd].
  destruct (Loaded.py_len v) as [n|e]; cbn [bind]; [|right; eauto].
  destruct (n =? 5)%nat; cbn [negb orb]; [|left; auto].
  destruct (positions_get name positions) as [[[xf yf] k]|]; [|left; auto].
  right. split; [reflexivity|].
  destruct (Loaded.py_getitem v 2) as [dx|e]; cbn [bind]; [|eauto].
  destruct (Loaded.py_getitem v 3) as [dy|e]; cbn [bind]; [|eauto].
  destruct (Loaded.py_getitem v 4) as [w|e]; cbn [bind]; [|eauto].
  destruct (Loaded.py_mul repeat_error dx w) as [mx|e]; cbn [bind]; [|eauto].
  destruct (Loaded.py_add _ mx) as [px|e]; cbn [bind]; [|eauto].
  destruct (Loaded.py_mul repeat_error dy w) as [my|e]; cbn [bind]; [|eauto].
  destruct (Loaded.py_add _ my) as [py|e]; cbn [bind]; eauto.
Qed.

Lemma entry_skipped W H name v :
  entry W H name v = Ok [] <-> skipped (name, v) = true.
Proof.
  destruct (entry_outcome W H name v) as [[Hs ->]|[Hs [[pg ->]|[e ->]]]];
    rewrite Hs; split; (reflexivity || discriminate).
Qed.

Lemma loaded_cons W H name v rest :
  collect ((name, v) :: rest) W H
  = (pair <- entry W H name v ;; more <- collect rest W H ;; Ok (pair ++ more)).
Proof. reflexivity. Qed.

Lemma loaded_skip W H name v rest :
  skipped (name, v) = true ->
  collect ((name, v) :: rest) W H = collect rest W H.
Proof.
  intros Hs. rewrite loaded_cons.
  rewrite (proj2 (entry_skipped W H name v) Hs). cbn [bind app].
  destruct (collect rest W H); reflexivity.
Qed.

Lemma loaded_filter calib W H :
  collect (filter evaluated calib) W H = collect calib W H.
Proof.
  induction calib as [|[name v] r IH]; [reflexivity|]. cbn [filter].
  unfold evaluated at 1. destruct (skipped (name, v)) eqn:Hs; cbn [negb].
  - rewrite loaded_skip by exact Hs. exact IH.
  - rewrite !loaded_cons, IH. reflexivity.
Qed.

Lemma loaded_length calib W H : forall pairs,
  collect calib W H = Ok pairs ->
  length pairs = length (filter evaluated calib).
Proof.
  induction calib as [|[name v] r IH]; intros pairs.
  - intros [= <-]. reflexivity.
  - rewrite loaded_cons. cbn [filter]. unfold evaluated at 1.
    destruct (entry_outcome W H name v) as [[Hs ->]|[Hs [[pg ->]|[e ->]]]];
      rewrite Hs; cbn [bind negb]; try discriminate;
      destruct (collect r W H) as [more|]; cbn [bind]; try discriminate;
      intros [= <-]; cbn [app length]; rewrite (IH more eq_refl); reflexivity.
Qed.

Lemma loaded_nil calib W H :
  collect calib W H = Ok [] <-> Forall (fun kv => skipped kv = true) calib.
Proof.
  induction calib as [|[name v] r IH].
  - split; [constructor|reflexivity].
  - rewrite loaded_cons.
    destruct (entry_outcome W H name v) as [[Hs ->]|[Hs [[pg ->]|[e ->]]]];
      cbn [bind].
    + destruct (collect r W H) as [more|e] eqn:E; cbn [bind app].
      * split.
        -- intros [= ->]. constructor; [exact Hs|]. apply IH. reflexivity.
        -- intros HF. inversion HF as [|? ? _ Hr]; subst. apply IH in Hr.
           exact Hr.
      * split; [discriminate|]. intros HF. inversion HF as [|? ? _ Hr]; subst.
        apply IH in Hr. discriminate.
    + split.
      * destruct (collect r W H); cbn [bind app]; discriminate.
      * intros HF. inversion HF; congruence.
    + split; [discriminate|]. intros HF. inversion HF; congruence.
Qed.

(** An entry that raises makes the loop raise, at this entry or
    before. *)
Lemma loaded_raises calib W H name v e0 :
  In (name, v) calib -> entry W H name v = Raise e0 ->
  exists e, collect calib W H = Raise e.
Proof.
  induction calib as [|[n1 v1] r IH]; intros Hin He; [destruct Hin|].
  rewrite loaded_cons. destruct Hin as [[= -> ->]|Hin].
  - rewrite He. cbn [bind]. eauto.
  - destruct (entry W H n1 v1); cbn [bind]; [|eauto].
    destruct (IH Hin He) as [e ->]. cbn [bind]. eauto.
Qed.

Lemma loaded_app a b W H :
  collect (a ++ b) W H
  = (pa <- collect a W H ;; pb <- collect b W H ;; Ok (pa ++ pb)).
Proof.
  induction a as [|[name v] r IH]; cbn [app].
  - cbn [Loaded.collect bind]. destruct (collect b W H); reflexivity.
  - rewrite !loaded_cons, IH.
    destruct (entry W H name v) as [pair|]; cbn [bind]; [|reflexivity].
    destruct (collect r W H) as [pa|]; cbn [bind]; [|reflexivity].
    destruct (collect b W H) as [pb|]; cbn [bind]; [|reflexivity].
    rewrite app_assoc. reflexivity.
Qed.

Lemma run_evaluation_outcome calib W H :
  match collect calib W H with
  | Ok [] => run_evaluation calib W H = Ok None
  | Ok (pg :: r) =>
      run_evaluation calib W H = Ok (Some (summarize acos (pg :: r)))
      \/ exists e, run_evaluation calib W H = Raise e
  | Raise e => run_evaluation calib W H = Raise e
  end.
Proof.
  unfold Loaded.run_evaluation.
  destruct (collect calib W H) as [[|pg r]|e]; cbn [bind]; try reflexivity.
  repeat match goal with
         | |- context [bind ?c _] =>
             destruct c; cbn [bind]; [|right; eauto]
         end.
  left. reflexivity.
Qed.

(** A str or a dict of five elements under the name of an anchor passes
    the test of the length and raises. *)
Lemma entry_str W H name s xf yf k :
  String.length s = 5%nat ->
  positions_get name positions = Some (xf, yf, k) ->
  entry W H name (Loaded.Str s) = Raise TypeError.
Proof.
  intros Hl Hp. unfold Loaded.entry. cbn [Loaded.py_len bind]. rewrite Hl, Hp.
  cbn [Nat.eqb negb].
  destruct s as [|c0 [|c1 [|c2 [|c3 [|c4 [|c5 s]]]]]]; try discriminate.
  reflexivity.
Qed.

Lemma entry_dict W H name d xf yf k :
  length d = 5%nat ->
  positions_get name positions = Some (xf, yf, k) ->
  entry W H name (Loaded.Dict d) = Raise KeyError.
Proof.
  intros Hl Hp. unfold Loaded.entry. cbn [Loaded.py_len bind]. rewrite Hl, Hp.
  reflexivity.
Qed.

Lemma entry_unsized W H name v :
  Loaded.py_len v = Raise TypeError -> entry W H name v = Raise TypeError.
Proof. intros Hl. unfold Loaded.entry. rewrite Hl. reflexivity. Qed.

(** On a table of records of numbers the loop is the loop of [Calib]. *)
Lemma loaded_records cal W H :
  collect (loaded cal) W H = Ok (Calib.collect cal W H).
Proof.
  induction cal as [|[name row] r IH]; [reflexivity|].
  unfold loaded in *. cbn [map fst snd]. rewrite loaded_cons, IH.
  rewrite EvalSpec.collect_cons. unfold Loaded.entry, entry_pair.
  cbn [Loaded.py_len bind fst snd]. rewrite length_map.
  destruct row as [|a [|b [|dx [|dy [|w [|g row]]]]]]; try reflexivity.
  cbn [length Nat.eqb negb map].
  destruct (positions_get name positions) as [[[xf yf] k]|]; reflexivity.
Qed.

End Libraries.

End LoadedFacts.

Module EvalClaims.
Import Calib LoadedFacts.

(** C10 (as amended).  On every table that [json.load] returns, with
    whatever the drawing calls do: the entries whose value has a length
    other than 5, or has length 5 under a name that is not an anchor, are
    skipped: the evaluation of the table is the evaluation of the other
    entries, one (prediction, ground truth) pair is made per such entry,
    and a summary that is written is the statistics of these pairs.  The
    evaluation returns without a summary exactly when every entry is
    skipped.  An entry that raises makes the evaluation raise: a value
    without a length ([None], a bool, a number) raises [TypeError]
    whatever its name, and under the name of an anchor a str of five
    characters raises [TypeError] and a dict of five keys [KeyError]. *)
Theorem run_evaluation_skips_by_length_and_name :
  forall (acos : float -> float) (draw : Loaded.Drawing -> result unit)
         (repeat_error : nat -> Z -> option py_error)
         (calib : list (string * Loaded.value)) (W H : Z),
    Loaded.run_evaluation acos draw repeat_error (filter evaluated calib) W H
      = Loaded.run_evaluation acos draw repeat_error calib W H
    /\ (forall pairs,
          Loaded.collect repeat_error calib W H = Ok pairs ->
          length pairs = length (filter evaluated calib))
    /\ (Forall (fun kv => skipped kv = true) calib
        <-> Loaded.run_evaluation acos draw repeat_error calib W H = Ok None)
    /\ (forall s,
          Loaded.run_evaluation acos draw repeat_error calib W H = Ok (Some s) ->
          exists pairs,
            Loaded.collect repeat_error calib W H = Ok pairs
            /\ s = summarize acos pairs)
    /\ (forall name v e0,
          In (name, v) calib ->
          Loaded.entry repeat_error W H name v = Raise e0 ->
          exists e,
            Loaded.run_evaluation acos draw repeat_error calib W H = Raise e)
    /\ (forall name v,
          Loaded.py_len v = Raise TypeError ->
          Loaded.entry repeat_error W H name v = Raise TypeError)
    /\ (forall name s,
          String.length s = 5%nat -> positions_get name positions <> None ->
          Loaded.entry repeat_error W H name (Loaded.Str s) = Raise TypeError)
    /\ (forall name d,
          length d = 5%nat -> positions_get name positions <> None ->
          Loaded.entry repeat_error W H name (Loaded.Dict d) = Raise KeyError).
Proof.
  intros acos draw rep calib W H.
  pose proof (run_evaluation_outcome acos draw rep calib W H) as Hout.
  split; [|split; [|split; [|split; [|split; [|split; [|split]]]]]].
  - unfold Loaded.run_evaluation. rewrite loaded_filter. reflexivity.
  - apply loaded_length.
  - rewrite <- (loaded_nil rep calib W H).
    destruct (Loaded.collect rep calib W H) as [[|pg r]|e].
    + split; [intros _; exact Hout|reflexivity].
    + split; [discriminate|]. intros Hn.
      destruct Hout as [Ho|[e Ho]]; rewrite Ho in Hn; discriminate.
    + split; [discriminate|]. intros Hn. rewrite Hout in Hn. discriminate.
  - intros s Hs. destruct (Loaded.collect rep calib W H) as [[|pg r]|e].
    + rewrite Hout in Hs. discriminate.
    + destruct Hout as [Ho|[e Ho]]; rewrite Ho in Hs; [|discriminate].
      injection Hs as <-. eauto.
    + rewrite Hout in Hs. discriminate.
  - intros name v e0 Hin He.
    destruct (loaded_raises rep calib W H name v e0 Hin He) as [e Hc].
    rewrite Hc in Hout. eauto.
  - intros name v. apply entry_unsized.
  - intros name s Hl Hp.
    destruct (positions_get name positions) as [[[xf yf] k]|] eqn:E;
      [|congruence].
    eapply entry_str; eassumption.
  - intros name d Hl Hp.
    destruct (positions_get name positions) as [[[xf yf] k]|] eqn:E;
      [|congruence].
    eapply entry_dict; eassumption.
Qed.

End EvalClaims.

Module LoadedExamples.
Import Calib LoadedFacts.

(** C10, counterexample: an entry whose value is a number, [None], a str
    of five characters or a dict of five keys is not a list of five
    elements, and it is not skipped: the evaluation raises, under a name
    that is not an anchor too, and also when a record that qualifies
    follows; a str of three characters is skipped. *)
Lemma value_without_length_is_not_skipped :
  Loaded.run_evaluation (fun x => x) drawn fits
    [("Top", Loaded.Int 5)]%string 1920 1080 = Raise TypeError
  /\ Loaded.run_evaluation (fun x => x) drawn fits
       [("Nowhere", Loaded.Null)]%string 1920 1080 = Raise TypeError
  /\ Loaded.run_evaluation (fun x => x) drawn fits
       [("Top", Loaded.Float 0.5); ("Center", sound_record)]%string 1920 1080
     = Raise TypeError
  /\ Loaded.run_evaluation (fun x => x) drawn fits
       [("Top", Loaded.Str "abcde")]%string 1920 1080 = Raise TypeError
  /\ Loaded.run_evaluation (fun x => x) drawn fits
       [("Top", Loaded.Dict [("a", Loaded.Null); ("b", Loaded.Null);
                             ("c", Loaded.Null); ("d", Loaded.Null);
                             ("e", Loaded.Null)])]%string 1920 1080
     = Raise KeyError
  /\ Loaded.run_evaluation (fun x => x) drawn fits
       [("Top", Loaded.Str "abc")]%string 1920 1080 = Ok None.
Proof. repeat split. Qed.

End LoadedExamples.

(** ** Accuracy at a radius *)

Module AccuracyFacts.
Import Calib SFFacts FloatFacts FloatOrder.

Lemma hits_cons e es t :
  hits (e :: es) t = ((if (e <? t)%float then 1 else 0) + hits es t)%nat.
Proof. unfold hits. cbn [filter]. destruct (e <? t)%float; reflexivity. Qed.

Lemma hits_le_length es t : (hits es t <= length es)%nat.
Proof. unfold hits. apply filter_length_le. Qed.

(** More entries lie below a larger radius. *)
Lemma hits_monotone es r1 r2 :
  (r1 <=? r2)%float = true -> (hits es r1 <= hits es r2)%nat.
Proof.
  intros Hr. induction es as [|e es IH]; [reflexivity|].
  rewrite !hits_cons. destruct (e <? r1)%float eqn:H1.
  - rewrite (ltb_leb_trans e r1 r2 H1 Hr). lia.
  - destruct (e <? r2)%float; lia.
Qed.

(** Every entry lies below a radius above all of them. *)
Lemma hits_all es m r :
  (forall e, In e es -> (e <=? m)%float = true) ->
  (m <? r)%float = true -> hits es r = length es.
Proof.
  intros Hm Hr. induction es as [|e es IH]; [reflexivity|].
  rewrite hits_cons, (leb_ltb_trans e m r (Hm e (or_introl eq_refl)) Hr).
  rewrite IH; [reflexivity|]. intros e' He'. apply Hm. right. exact He'.
Qed.

(** A finite double divided by itself is 1. *)
Lemma SFdiv_self s m e :
  SF64div (S754_finite s m e) (S754_finite s m e)
  = S754_finite false 4503599627370496 (-52).
Proof.
  unfold SF64div. cbn [SFdiv]. unfold SFdiv_core_binary.
  rewrite !Z.sub_diag.
  change (Z.min (SpecFloat.fexp prec emax 0) 0) with (-53).
  change (0 - -53) with 53.
  assert (Hd : Z.div_eucl (Z.shiftl (Zpos m) 53) (Zpos m) = (2 ^ 53, 0)).
  { pose proof (Z_div_mod (Z.shiftl (Zpos m) 53) (Zpos m) ltac:(lia)) as H.
    destruct (Z.div_eucl (Z.shiftl (Zpos m) 53) (Zpos m)) as [q r].
    rewrite Z.shiftl_mul_pow2 in H by lia. destruct H as [H1 H2].
    assert (q = 2 ^ 53) by nia. f_equal; lia. }
  cbv iota.
  change (IntDef.Z.div_eucl (IntDef.Z.shiftl (Zpos m) 53) (Zpos m))
    with (Z.div_eucl (Z.shiftl (Zpos m) 53) (Zpos m)).
  rewrite Hd. replace (xorb s s) with false by (destruct s; reflexivity).
  unfold new_location. destruct (Z.even (Zpos m)); reflexivity.
Qed.

Lemma div_self_int n :
  1 <= n < 2 ^ 53 -> (float_of_int n / float_of_int n)%float = 1%float.
Proof.
  intros Hn. apply Prim2SF_inj. rewrite div_spec.
  rewrite Prim2SF_float_of_int by lia.
  destruct n as [|p|p]; try lia. cbn [sf_of_int].
  destruct (sf_of_pos_finite false p) as (m & e & ->).
  rewrite SFdiv_self. reflexivity.
Qed.

(** Accuracy is 1 when every entry lies below the radius. *)
Lemma accuracy_all es r :
  (1 <= length es)%nat -> Z.of_nat (length es) < 2 ^ 53 ->
  hits es r = length es -> accuracy_at es r = 1%float.
Proof.
  intros H1 H2 Hh. unfold accuracy_at. rewrite Hh. apply div_self_int. lia.
Qed.

Lemma quotients_ordered_9 :
  forallb quotients_ordered (seq 1 9) = true.
Proof. vm_compute. reflexivity. Qed.

Lemma quotient_monotone n c1 c2 :
  (1 <= n <= 9)%nat -> (c1 <= c2 <= n)%nat ->
  (float_of_int (Z.of_nat c1) / float_of_int (Z.of_nat n)
   <=? float_of_int (Z.of_nat c2) / float_of_int (Z.of_nat n))%float = true.
Proof.
  intros Hn Hc. pose proof quotients_ordered_9 as H.
  rewrite forallb_forall in H.
  specialize (H n ltac:(apply in_seq; lia)). unfold quotients_ordered in H.
  rewrite forallb_forall in H. specialize (H c1 ltac:(apply in_seq; lia)).
  rewrite forallb_forall in H. apply H. apply in_seq. lia.
Qed.

Lemma accuracy_monotone es r1 r2 :
  (1 <= length es <= 9)%nat -> (r1 <=? r2)%float = true ->
  (accuracy_at es r1 <=? accuracy_at es r2)%float = true.
Proof.
  intros Hn Hr. unfold accuracy_at. apply quotient_monotone; [exact Hn|].
  split; [apply hits_monotone; exact Hr|apply hits_le_length].
Qed.

Lemma thresholds_ascending :
  forall t1 t2, In t1 thresholds -> In t2 thresholds -> t1 <= t2 ->
    (float_of_int t1 <=? float_of_int t2)%float = true.
Proof.
  intros t1 t2 H1 H2 Hle. unfold thresholds in *. cbn [In] in H1, H2.
  repeat (destruct H1 as [<-|H1]); try contradiction;
    repeat (destruct H2 as [<-|H2]); try contradiction;
    try lia; vm_compute; reflexivity.
Qed.

End AccuracyFacts.

Module AccuracyClaims.
Import Calib AccuracyFacts.

(** C9.  For the distance errors of one to nine anchors, the number of
    errors below the radius and the accuracy at the radius do not decrease
    when the radius grows, in particular along the thresholds of the
    evaluation; and at every radius strictly greater than all the errors the
    accuracy is 1.0. *)
Theorem accuracy_monotone_and_saturates :
  forall es : list float,
    (1 <= length es <= 9)%nat ->
    (forall r1 r2 : float,
        (r1 <=? r2)%float = true ->
        (hits es r1 <= hits es r2)%nat
        /\ (accuracy_at es r1 <=? accuracy_at es r2)%float = true)
    /\ (forall t1 t2 : Z,
          In t1 thresholds -> In t2 thresholds -> t1 <= t2 ->
          (accuracy_at es (float_of_int t1)
           <=? accuracy_at es (float_of_int t2))%float = true)
    /\ (forall m r : float,
          (forall e, In e es -> (e <=? m)%float = true) ->
          (m <? r)%float = true ->
          hits es r = length es /\ accuracy_at es r = 1%float).
Proof.
  intros es Hn. split; [|split].
  - intros r1 r2 Hr. split;
      [apply hits_monotone|apply accuracy_monotone]; assumption.
  - intros t1 t2 H1 H2 Hle. apply accuracy_monotone; [exact Hn|].
    apply thresholds_ascending; assumption.
  - intros m r Hm Hr. pose proof (hits_all es m r Hm Hr) as Hh.
    split; [exact Hh|]. apply accuracy_all; [lia| |exact Hh].
    assert (Z.of_nat (length es) <= 9) by lia.
    assert (9 < 2 ^ 53) by reflexivity. lia.
Qed.

End AccuracyClaims.

(** ** Evaluation of a table of zero offsets *)

Module ZeroOffsetFacts.
Import Calib SFFacts FloatFacts SFClass SFOrder SFRange EvalSpec AccuracyFacts.

Lemma frac_ok_0 : frac_ok 0.
Proof. left. vm_compute. reflexivity. Qed.

Lemma frac_ok_half : frac_ok 0.5.
Proof.
  right. exists 4503599627370496%positive, (-53).
  split; [vm_compute; reflexivity|split; [reflexivity|lia]].
Qed.

Lemma frac_ok_1 : frac_ok 1.
Proof.
  right. exists 4503599627370496%positive, (-52).
  split; [vm_compute; reflexivity|split; [reflexivity|lia]].
Qed.

Lemma positions_fracs name xf yf k :
  positions_get name positions = Some (xf, yf, k) -> frac_ok xf /\ frac_ok yf.
Proof.
  cbv [positions positions_get].
  repeat (destruct (String.eqb _ name);
          [intros [= <- <- <-]; split;
           first [exact frac_ok_0|exact frac_ok_half|exact frac_ok_1]|]).
  discriminate.
Qed.

Lemma sf_of_pos_small s p m e :
  Zpos p < 2 ^ 53 -> sf_of_pos s p = S754_finite s m e ->
  Zpos m < 2 ^ 53 /\ e <= 0.
Proof.
  intros Hp E. destruct (sf_of_pos_spec s p Hp) as (_ & Hv & _).
  rewrite E in Hv. destruct (valid_finite_bounds _ _ _ Hv) as (_ & Hm & _).
  split; [exact Hm|].
  unfold sf_of_pos, shl_align in E. rewrite Z.sub_0_r in E.
  destruct (SpecFloat.fexp prec emax (Zpos (digits2_pos p) + 0));
    injection E as <- <-; lia.
Qed.

(** Lines 143-144: the ground truth is a finite double. *)
Lemma ground_truth_finite xf W :
  frac_ok xf -> 1 <= W < 2 ^ 53 ->
  finite (xf * float_of_int W) = true.
Proof.
  intros Hxf HW. unfold finite. rewrite mul_spec.
  rewrite Prim2SF_float_of_int by lia.
  destruct W as [|p|p]; try lia. cbn [sf_of_int].
  destruct (sf_of_pos_finite false p) as (m & e & E). rewrite E.
  destruct (sf_of_pos_small false p m e ltac:(lia) E) as (Hm & He).
  destruct Hxf as [->|(mf & ef & -> & Hmf & Hef)].
  - reflexivity.
  - apply SFmul_finite_small; assumption.
Qed.

Lemma is_zero_sf x : is_zero x = true -> exists s, Prim2SF x = S754_zero s.
Proof.
  unfold is_zero. destruct (Prim2SF x) as [s| | |]; try discriminate. eauto.
Qed.

(** Lines 150-151 and 162, one coordinate: with a zero offset the
    prediction is finite and its difference with the ground truth is a
    zero. *)
Lemma axis_zero_error g d w :
  finite g = true -> is_zero d = true -> finite w = true ->
  finite (g + d * w) = true /\ is_zero ((g + d * w) - g) = true.
Proof.
  unfold finite, is_zero. intros Hg Hd Hw.
  rewrite sub_spec, add_spec, mul_spec.
  destruct (Prim2SF d) as [sd| | |]; try discriminate.
  destruct (Prim2SF w) as [sw| | |sw mw ew]; try discriminate;
    destruct (Prim2SF g) as [sg| | |sg mg eg]; try discriminate;
    unfold SF64sub, SF64add, SF64mul; cbn [SFmul SFadd];
    try (destruct sd, sw, sg; split; reflexivity);
    try (split; [reflexivity|]; cbn [SFsub]; rewrite Z.sub_diag; reflexivity).
Qed.

Lemma euclid_zero px py gx gy :
  is_zero (px - gx) = true -> is_zero (py - gy) = true ->
  euclid ((px, py), (gx, gy)) = 0%float.
Proof.
  intros Hx Hy. unfold euclid. apply Prim2SF_inj.
  rewrite sqrt_spec, add_spec, !mul_spec.
  destruct (is_zero_sf _ Hx) as [sx ->]. destruct (is_zero_sf _ Hy) as [sy ->].
  destruct sx, sy; reflexivity.
Qed.

Lemma entry_pair_exact W H kv :
  1 <= W < 2 ^ 53 -> 1 <= H < 2 ^ 53 ->
  zero_offsets (snd kv) = true -> Forall exact_pair (entry_pair W H kv).
Proof.
  intros HW HH. destruct kv as [name v]. unfold entry_pair, zero_offsets.
  cbn [fst snd].
  destruct v as [|a [|b [|dx [|dy [|w [|g r]]]]]]; try (intros; constructor).
  intros Hz.
  destruct (positions_get name positions) as [[[xf yf] k]|] eqn:Hp;
    [|constructor].
  destruct (positions_fracs _ _ _ _ Hp) as [Fx Fy].
  apply andb_prop in Hz as [Hz Hw]. apply andb_prop in Hz as [Hdx Hdy].
  pose proof (ground_truth_finite xf W Fx HW) as Gx.
  pose proof (ground_truth_finite yf H Fy HH) as Gy.
  destruct (axis_zero_error _ dx w Gx Hdx Hw) as [Px Zx].
  destruct (axis_zero_error _ dy w Gy Hdy Hw) as [Py Zy].
  constructor; [|constructor]. unfold exact_pair. cbn [fst snd].
  split; [exact Px|split; [exact Py|]]. apply euclid_zero; assumption.
Qed.

Lemma collect_exact calib W H :
  1 <= W < 2 ^ 53 -> 1 <= H < 2 ^ 53 ->
  forallb (fun kv => zero_offsets (snd kv)) calib = true ->
  Forall exact_pair (collect calib W H).
Proof.
  intros HW HH Hz. rewrite collect_flat_map.
  induction calib as [|kv r IH]; [constructor|].
  cbn [forallb flat_map] in *. apply andb_prop in Hz as [Hkv Hr].
  apply Forall_app. split; [apply entry_pair_exact; assumption|auto].
Qed.

Lemma heat_cells_exact W H pairs :
  Forall exact_pair pairs ->
  exists cells, mapM (heat_cell W H) (map fst pairs) = Ok cells.
Proof.
  induction 1 as [|pg r (Fx & Fy & _) _ (cells & IH)]; [exists []; reflexivity|].
  cbn [map mapM]. unfold heat_cell at 1.
  destruct (MappingSpec.py_int_finite _ Fx) as [xi ->].
  destruct (MappingSpec.py_int_finite _ Fy) as [yi ->].
  cbn [bind]. rewrite IH. cbn [bind]. eauto.
Qed.

Lemma euclid_exact pairs :
  Forall exact_pair pairs -> map euclid pairs = repeat 0%float (length pairs).
Proof.
  induction 1 as [|pg r (_ & _ & E) _ IH]; [reflexivity|].
  cbn [map length repeat]. rewrite E, IH. reflexivity.
Qed.

Lemma np_sum_zeros n : np_sum (repeat 0%float n) = 0%float.
Proof.
  destruct n as [|n]; [reflexivity|]. cbn [repeat np_sum].
  induction n as [|n IH]; [reflexivity|]. cbn [repeat fold_left].
  change (0 + 0)%float with 0%float. exact IH.
Qed.

Lemma np_mean_zeros n :
  (1 <= n)%nat -> Z.of_nat n < 2 ^ 53 -> np_mean (repeat 0%float n) = 0%float.
Proof.
  intros H1 H2. unfold np_mean. rewrite np_sum_zeros, repeat_length.
  apply Prim2SF_inj. rewrite div_spec, Prim2SF_float_of_int by lia.
  destruct (Z.of_nat n) as [|p|p] eqn:E; try lia. cbn [sf_of_int].
  destruct (sf_of_pos_finite false p) as (m & e & ->). reflexivity.
Qed.

Lemma hits_zeros n r :
  (0 <? r)%float = true -> hits (repeat 0%float n) r = n.
Proof.
  intros Hr. induction n as [|n IH]; [reflexivity|].
  cbn [repeat]. rewrite hits_cons, Hr, IH. reflexivity.
Qed.

(** A dict has one entry per name: at most nine entries qualify. *)
Lemma positions_get_in name v ps :
  positions_get name ps = Some v -> In name (map fst ps).
Proof.
  induction ps as [|[k w] r IH]; cbn [positions_get]; [discriminate|].
  destruct (String.eqb_spec k name) as [->|_]; [left; reflexivity|].
  intros Hv. right. apply IH. exact Hv.
Qed.

Lemma collect_at_most_9 calib W H :
  NoDup (map fst calib) -> (length (collect calib W H) <= 9)%nat.
Proof.
  intros Hnd. rewrite collect_length.
  rewrite <- (length_map fst (filter qualifies calib)).
  change 9%nat with (length (map fst positions)).
  apply NoDup_incl_length.
  - induction calib as [|kv r IH]; [constructor|].
    cbn [map] in Hnd. inversion Hnd as [|? ? Hnin Hr]; subst.
    cbn [filter]. destruct (qualifies kv); [|apply IH; exact Hr].
    cbn [map]. constructor; [|apply IH; exact Hr].
    intros Hin. apply Hnin. apply in_map_iff in Hin as (kv' & E & Hin).
    apply filter_In in Hin as [Hin _]. rewrite <- E. apply in_map. exact Hin.
  - intros name Hin. apply in_map_iff in Hin as (kv & <- & Hin).
    apply filter_In in Hin as [_ Hq]. unfold qualifies in Hq.
    apply andb_prop in Hq as [_ Hq].
    destruct (positions_get (fst kv) positions) as [v|] eqn:Hp; [|discriminate].
    eapply positions_get_in. exact Hp.
Qed.

End ZeroOffsetFacts.

Module ZeroOffsetClaims.
Import Calib EvalSpec AccuracyFacts ZeroOffsetFacts.

(** C5 (as amended).  For a table, one entry per name, in which every
    record of five elements has zero mean offsets and a finite width, so
    that each predicted point is its ground-truth anchor position, and a
    screen of 1 to 2^53 - 1 pixels each way: every distance error is 0, their
    mean is 0, the accuracy is 1.0 at every radius above 0, and the summary
    reports a mean distance of 0 and 100 percent at the five thresholds. *)
Theorem zero_offsets_evaluate_perfectly :
  forall (acos : float -> float) (calib : calibration) (W H : Z),
    1 <= W < 2 ^ 53 -> 1 <= H < 2 ^ 53 ->
    NoDup (map fst calib) ->
    forallb (fun kv => zero_offsets (snd kv)) calib = true ->
    existsb qualifies calib = true ->
    Forall (fun e => e = 0%float) (map euclid (collect calib W H))
    /\ np_mean (map euclid (collect calib W H)) = 0%float
    /\ (forall r, (0 <? r)%float = true ->
                  accuracy_at (map euclid (collect calib W H)) r = 1%float)
    /\ exists s,
         run_evaluation acos calib W H = Ok (Some s)
         /\ mean_euclidean_distance_px s = 0%float
         /\ accuracy_percentages s = [100; 100; 100; 100; 100]%float.
Proof.
  intros acos calib W H HW HH Hnd Hz Hq.
  pose proof (collect_exact calib W H HW HH Hz) as Hex.
  pose proof (collect_at_most_9 calib W H Hnd) as H9.
  assert (Hne : (1 <= length (collect calib W H))%nat).
  { rewrite collect_length. apply existsb_exists in Hq as (kv & Hin & Hkv).
    assert (In kv (filter qualifies calib)) by (apply filter_In; auto).
    destruct (filter qualifies calib); [contradiction|cbn; lia]. }
  pose proof (euclid_exact _ Hex) as Hes.
  set (n := length (collect calib W H)) in *.
  assert (Hn53 : Z.of_nat n < 2 ^ 53).
  { assert (Z.of_nat n <= 9) by lia. assert (9 < 2 ^ 53) by reflexivity. lia. }
  assert (Hacc : forall r, (0 <? r)%float = true ->
                 accuracy_at (repeat 0%float n) r = 1%float).
  { intros r Hr. apply accuracy_all; rewrite ?repeat_length; try assumption.
    apply hits_zeros. exact Hr. }
  rewrite Hes. split; [|split; [|split]].
  - clear. induction n; constructor; auto.
  - apply np_mean_zeros; assumption.
  - exact Hacc.
  - destruct (heat_cells_exact W H _ Hex) as (cells & Hcells).
    unfold run_evaluation.
    destruct (collect calib W H) as [|pg rest] eqn:Hc; [cbn in Hne; lia|].
    rewrite Hcells. cbn [bind]. eexists. split; [reflexivity|].
    unfold summarize. cbn [mean_euclidean_distance_px accuracy_percentages].
    rewrite Hes. split.
    + rewrite np_mean_zeros by assumption. vm_compute. reflexivity.
    + unfold thresholds. cbn [map].
      rewrite !Hacc by (vm_compute; reflexivity). vm_compute. reflexivity.
Qed.

End ZeroOffsetClaims.

(** ** Worked instances *)

Module Instances.
Import Calib EvalSpec AccuracyFacts AccuracyClaims ZeroOffsetFacts
  ZeroOffsetClaims MappingSpec MappingExamples ModelFacts CenterClaim
  SmoothCheck SmoothSpec TickClaims.

(** C4, witness: two ticks at the centre sample on the table of
    [MappingExamples]. *)
Lemma repeated_sample_witness :
  exists tx ty,
    project table 1920 1080 0 0 = Ok (tx, ty)
    /\ project table 1920 1080 0 0 = Ok (tx, ty)
    /\ smooth_axis 192 tx = Ok 345
    /\ smooth_axis 108 ty = Ok 194
    /\ (345, 194) = (345, 194)
    /\ (1920 <= 2 ^ 53 -> 1080 <= 2 ^ 53 ->
        (192, 108) = (tx, ty) -> (345, 194) = (192, 108)).
Proof.
  apply (repeated_sample_steps_toward_projection never table start
           {| prev_cursor_pos := (192, 108);
              dwell := {| hovered_button := Some 1%nat;
                          hover_timer := Some 0 |} |}
           {| prev_cursor_pos := (345, 194);
              dwell := {| hovered_button := Some 1%nat;
                          hover_timer := Some 0 |} |}
           (tick 0 0 0) (tick 0 0 100)
           {| moved_to := (192, 108); clicked := None |}
           {| moved_to := (345, 194); clicked := None |});
    vm_compute; reflexivity.
Defined.

(** C6, witness: the table of [MappingExamples] on a 1920 x 1080 screen. *)
Lemma center_sample_witness :
  project table 1920 1080 0 0 = Ok (1920 / 2, 1080 / 2).
Proof.
  apply (center_sample_maps_to_screen_center table 1920 1080
           30%float 0%float 0%float 0%float 100%float).
  - vm_compute. reflexivity.
  - vm_compute. reflexivity.
  - lia.
  - lia.
Defined.

(** C5, counterexample: on a 1920 x 1080 screen the distance errors of the
    anchor table are the distances of the anchors from the origin; one of the
    nine is below each threshold, the accuracy is 1/9 and the mean error is
    above 1000 pixels. *)
Lemma anchor_table_is_not_exact :
  map euclid (collect (anchor_table 1920 1080) 1920 1080)
  = [0; 960; 1920; 540; 1101.4535850411492; 1994.4924166313594; 1080;
     1444.9913494550754; 2202.9071700822983]%float
  /\ hits (map euclid (collect (anchor_table 1920 1080) 1920 1080)) 100 = 1%nat
  /\ hits (map euclid (collect (anchor_table 1920 1080) 1920 1080)) 1 = 1%nat
  /\ (accuracy_at (map euclid (collect (anchor_table 1920 1080) 1920 1080)) 100
      <? 0.12)%float = true
  /\ (accuracy_at (map euclid (collect (anchor_table 1920 1080) 1920 1080)) 1
      <? 0.12)%float = true
  /\ (1000 <? np_mean (map euclid (collect (anchor_table 1920 1080) 1920 1080)))%float
     = true.
Proof. repeat split; vm_compute; reflexivity. Qed.

(** C5, witness. *)
Lemma zero_offsets_witness :
  Forall (fun e => e = 0%float) (map euclid (collect zero_table 1920 1080))
  /\ np_mean (map euclid (collect zero_table 1920 1080)) = 0%float
  /\ (forall r, (0 <? r)%float = true ->
                accuracy_at (map euclid (collect zero_table 1920 1080)) r = 1%float)
  /\ exists s,
       run_evaluation (fun x => x) zero_table 1920 1080 = Ok (Some s)
       /\ mean_euclidean_distance_px s = 0%float
       /\ accuracy_percentages s = [100; 100; 100; 100; 100]%float.
Proof.
  apply (zero_offsets_evaluate_perfectly (fun x => x) zero_table 1920 1080).
  - lia.
  - lia.
  - vm_compute. repeat constructor; cbn; intuition discriminate.
  - vm_compute. reflexivity.
  - vm_compute. reflexivity.
Defined.

(** C9, witness: three distance errors. *)
Lemma accuracy_witness :
  (forall r1 r2 : float,
      (r1 <=? r2)%float = true ->
      (hits [0; 30; 70]%float r1 <= hits [0; 30; 70]%float r2)%nat
      /\ (accuracy_at [0; 30; 70]%float r1
          <=? accuracy_at [0; 30; 70]%float r2)%float = true)
  /\ (forall t1 t2 : Z,
        In t1 thresholds -> In t2 thresholds -> t1 <= t2 ->
        (accuracy_at [0; 30; 70]%float (float_of_int t1)
         <=? accuracy_at [0; 30; 70]%float (float_of_int t2))%float = true)
  /\ (forall m r : float,
        (forall e, In e [0; 30; 70]%float -> (e <=? m)%float = true) ->
        (m <? r)%float = true ->
        hits [0; 30; 70]%float r = length [0; 30; 70]%float
        /\ accuracy_at [0; 30; 70]%float r = 1%float).
Proof.
  apply (accuracy_monotone_and_saturates [0; 30; 70]%float). cbn. lia.
Defined.

End Instances.

(* ================================================================== *)
(** * Part IV: further properties of the two files *)
(* ================================================================== *)

Import TableDefs ClickDefs WindowDefs ExactDefs RoundDefs ReportDefs StepDefs DirectionDefs MoreSamples.

(** ** The exceptions of [check_gaze] *)

Module TableFacts.
Import SFFacts FloatFacts SFClass MappingSpec ModelFacts.

Lemma column_short i cal :
  existsb (fun kv => (length (snd kv) <=? i)%nat) cal = true ->
  column i cal = Raise IndexError.
Proof.
  unfold column. induction cal as [|[k v] r IH]; cbn [existsb mapM snd].
  - discriminate.
  - unfold getitem at 1.
    destruct (nth_error v i) as [d|] eqn:E.
    + assert (i < length v)%nat by (apply nth_error_Some; congruence).
      destruct (Nat.leb_spec (length v) i); [lia|].
      cbn [orb bind]. intros H'. rewrite (IH H'). reflexivity.
    + reflexivity.
Qed.

Lemma column_long i cal :
  existsb (fun kv => (length (snd kv) <=? i)%nat) cal = false ->
  exists l, column i cal = Ok l /\ length l = length cal.
Proof.
  unfold column. induction cal as [|[k v] r IH]; cbn [existsb mapM snd].
  - intros _. exists []. split; reflexivity.
  - intros H. apply orb_false_elim in H as [Hv Hr].
    destruct (IH Hr) as (l & -> & Hl).
    apply Nat.leb_gt in Hv. unfold getitem.
    destruct (nth_error v i) as [d|] eqn:E.
    + cbn [bind]. exists (d :: l). split; [reflexivity|]. cbn [length]. lia.
    + apply nth_error_None in E. lia.
Qed.

Lemma short_record_split cal :
  existsb short_record cal
  = existsb (fun kv => (length (snd kv) <=? 2)%nat) cal
    || existsb (fun kv => (length (snd kv) <=? 3)%nat) cal.
Proof.
  induction cal as [|kv r IH]; cbn [existsb]; [reflexivity|].
  rewrite IH. unfold short_record.
  destruct (Nat.ltb_spec (length (snd kv)) 4),
    (Nat.leb_spec (length (snd kv)) 2), (Nat.leb_spec (length (snd kv)) 3);
    try lia; cbn [orb]; reflexivity.
Qed.

(** [max(range, 0.01)] is a NaN or at least 0.01, whatever the range. *)
Lemma max2_001_any r :
  Prim2SF (max2 r 0.01) = S754_nan \/ at_least_001 (Prim2SF (max2 r 0.01)).
Proof.
  unfold max2. rewrite ltb_spec, Prim2SF_001.
  destruct (SFltb (Prim2SF r) sf_001) eqn:Hlt.
  - right. rewrite Prim2SF_001. apply at_least_001_self.
  - destruct (Prim2SF r) as [s|s| |s m e] eqn:E.
    + destruct s; discriminate.
    + destruct s; [discriminate|]. right. left. reflexivity.
    + left. reflexivity.
    + right. apply (not_below_001 s); [constructor|exact Hlt].
Qed.

(** Lines 85-86 never divide by zero. *)
Lemma axis_scale_any W r :
  exists S, axis_scale W (max2 r 0.01) = Ok S.
Proof.
  unfold axis_scale, truediv.
  assert (Hz : ((max2 r 0.01 * 0.8) =? 0)%float = false).
  { rewrite eqb_spec, Prim2SF_0, mul_spec, Prim2SF_08.
    destruct (max2_001_any r) as [-> | Hr]; [reflexivity|].
    destruct (SFmul_08_nonzero _ Hr) as [m e|]; reflexivity. }
  rewrite Hz. cbn [bind]. eauto.
Qed.

Lemma axis_range_any x l : exists r, axis_range (x :: l) = Ok r.
Proof. unfold axis_range. cbn [max_list min_list bind]. eauto. Qed.

Lemma lookup_member name cal row :
  lookup name cal = Ok row -> exists k, In (k, row) cal.
Proof.
  induction cal as [|[k v] r IH]; cbn [lookup]; [discriminate|].
  destruct (String.eqb k name).
  - intros [= <-]. exists k. left. reflexivity.
  - intros H. destruct (IH H) as [k' Hk]. exists k'. right. exact Hk.
Qed.

Lemma lookup_error name cal e : lookup name cal = Raise e -> e = KeyError.
Proof.
  induction cal as [|[k v] r IH]; cbn [lookup]; [congruence|].
  destruct (String.eqb k name); [discriminate|exact IH].
Qed.

Lemma not_short_member cal k row :
  existsb short_record cal = false -> In (k, row) cal ->
  (4 <= length row)%nat.
Proof.
  intros H Hin.
  destruct (Nat.ltb_spec (length row) 4) as [Hlt|]; [|assumption].
  assert (existsb short_record cal = true); [|congruence].
  apply existsb_exists. exists (k, row). split; [exact Hin|].
  unfold short_record. cbn [snd]. apply Nat.ltb_lt. exact Hlt.
Qed.

(** Lines 77-89, by [table_error]. *)
Lemma calibration_model_outcome cal W H :
  match table_error cal with
  | Some e => calibration_model cal W H = Raise e
  | None => exists m, calibration_model cal W H = Ok m
  end.
Proof.
  unfold table_error, calibration_model.
  rewrite short_record_split.
  destruct (existsb (fun kv => (length (snd kv) <=? 2)%nat) cal) eqn:H2.
  { cbn [orb]. rewrite (column_short 2 cal H2). reflexivity. }
  destruct (column_long 2 cal H2) as (dxs & -> & Lx). cbn [orb bind].
  destruct (existsb (fun kv => (length (snd kv) <=? 3)%nat) cal) eqn:H3.
  { rewrite (column_short 3 cal H3). reflexivity. }
  destruct (column_long 3 cal H3) as (dys & -> & Ly). cbn [bind].
  destruct cal as [|kv0 cal0].
  { destruct dxs; [reflexivity|discriminate]. }
  destruct dxs as [|x xs]; [discriminate|].
  destruct dys as [|y ys]; [discriminate|].
  destruct (axis_range_any x xs) as [rx ->].
  destruct (axis_range_any y ys) as [ry ->]. cbn [bind].
  destruct (axis_scale_any W rx) as [SX ->].
  destruct (axis_scale_any H ry) as [SY ->]. cbn [bind].
  destruct (lookup "Center" (kv0 :: cal0)) as [row|e] eqn:Hc.
  - destruct (lookup_member _ _ _ Hc) as [k Hin].
    assert (Hs : existsb short_record (kv0 :: cal0) = false).
    { rewrite short_record_split, H2, H3. reflexivity. }
    pose proof (not_short_member _ _ _ Hs Hin) as Hlen.
    destruct row as [|a [|b [|cdx [|cdy t]]]]; cbn [length] in Hlen; try lia.
    cbn. eauto.
  - rewrite (lookup_error _ _ _ Hc). reflexivity.
Qed.

Lemma py_int_outcome x :
  (exists z, py_int x = Ok z)
  \/ py_int x = Raise OverflowError \/ py_int x = Raise ValueError.
Proof.
  destruct (finite x) eqn:E.
  - left. apply py_int_finite. exact E.
  - right. apply py_int_not_finite. exact E.
Qed.

Ltac split_py_int x :=
  let z := fresh "z" in
  destruct (py_int_outcome x) as [[z ->]|[-> | ->]];
  cbn [bind]; [|right; auto|right; auto].

Lemma check_gaze_outcome inv st tk m :
  forall cal,
    calibration_model cal (fst (screen tk)) (snd (screen tk)) = Ok m ->
    (exists r, check_gaze inv cal st tk = Ok r)
    \/ check_gaze inv cal st tk = Raise OverflowError
    \/ check_gaze inv cal st tk = Raise ValueError.
Proof.
  intros cal Hm. unfold check_gaze.
  destruct (offsets tk) as [dx dy]. destruct (screen tk) as [W H].
  cbn [fst snd] in Hm. unfold project. rewrite Hm. cbn [bind].
  destruct m as [[[SX SY] cdx] cdy]. unfold project_with, project_axis.
  split_py_int (float_of_int dir_x * (dx - cdx) * SX)%float.
  split_py_int (float_of_int dir_y * (dy - cdy) * SY)%float.
  destruct (prev_cursor_pos st) as [px py]. unfold smooth_axis.
  split_py_int (float_of_int px
                + 0.2 * float_of_int (clamp W (W / 2 + z) - px))%float.
  split_py_int (float_of_int py
                + 0.2 * float_of_int (clamp H (H / 2 + z0) - py))%float.
  destruct (scan_buttons _ _ _ _ _) as [d c]. left. eauto.
Qed.

End TableFacts.

Module TableClaims.
Import MappingSpec TableFacts.

(** X1.  The exceptions of a tick, by the table alone.  A record with fewer
    than four elements makes every tick raise [IndexError]; otherwise an
    empty table makes it raise [ValueError]; otherwise a table without a
    "Center" record makes it raise [KeyError].  On every other table the
    model of lines 77-89 is built, whatever the numbers in the table, and
    the tick returns or raises the [OverflowError] or [ValueError] of
    [int()]; no tick raises [ZeroDivisionError]. *)
Theorem check_gaze_exceptions :
  forall (inv : Z -> bool) (cal : calibration) (st : State) (tk : Tick),
    match table_error cal with
    | Some e => check_gaze inv cal st tk = Raise e
    | None =>
        (exists m,
            calibration_model cal (fst (screen tk)) (snd (screen tk)) = Ok m)
        /\ ((exists r, check_gaze inv cal st tk = Ok r)
            \/ check_gaze inv cal st tk = Raise OverflowError
            \/ check_gaze inv cal st tk = Raise ValueError)
    end.
Proof.
  intros inv cal st tk.
  pose proof (calibration_model_outcome cal (fst (screen tk)) (snd (screen tk)))
    as Hm.
  destruct (table_error cal) as [e|].
  - unfold check_gaze. destruct (offsets tk) as [dx dy].
    destruct (screen tk) as [W H]. cbn [fst snd] in Hm.
    unfold project. rewrite Hm. reflexivity.
  - destruct Hm as [m Hm]. split; [eauto|].
    eapply check_gaze_outcome. exact Hm.
Qed.

End TableClaims.

(** ** What a tick clicks *)

Module ClickFacts.
Import DwellSpec MappingSpec.

Lemma same_button_true h b :
  same_button h b = true -> h = Some (btn_id b).
Proof.
  destruct h as [i|]; cbn [same_button]; [|discriminate].
  intros H. apply Nat.eqb_eq in H. congruence.
Qed.

Section Scan.

Variable inv : Z -> bool.

Lemma scan_first btns pt t d :
  scan_buttons inv btns pt t d =
    match hit btns pt with
    | None => (idle, None)
    | Some b => scan_buttons inv [b] pt t d
    end.
Proof.
  destruct (hit btns pt) as [b|] eqn:E.
  - rewrite (scan_on inv btns pt t d b E).
    assert (Hc : contains (btn_rect b) pt = true).
    { unfold hit in E. apply find_some in E. apply E. }
    cbn [scan_buttons]. rewrite Hc.
    destruct (negb (same_button (hovered_button d) b)); [reflexivity|].
    destruct (hasExpired inv (hover_timer d) t DWELL_MS); reflexivity.
  - apply scan_off. exact E.
Qed.

Lemma scan_click btns pt t d i :
  snd (scan_buttons inv btns pt t d) = Some i <->
  on_target btns i pt /\ hovered_button d = Some i
  /\ hasExpired inv (hover_timer d) t DWELL_MS = true.
Proof.
  unfold on_target. destruct (hit btns pt) as [b|] eqn:E.
  - rewrite (scan_on inv btns pt t d b E). cbn [option_map].
    destruct (same_button (hovered_button d) b) eqn:Hs; cbn [negb].
    + apply same_button_true in Hs.
      destruct (hasExpired inv (hover_timer d) t DWELL_MS); cbn [snd].
      * split; [intros [= <-]; auto|intros (H & _ & _); exact H].
      * split; [discriminate|intros (_ & _ & H); discriminate].
    + cbn [snd]. split; [discriminate|]. intros ([= <-] & Hh & _).
      rewrite Hh in Hs. rewrite same_button_refl in Hs. discriminate.
  - rewrite (scan_off inv btns pt t d E). cbn [snd option_map].
    split; [discriminate|intros (H & _); discriminate].
Qed.

Lemma scan_click_state btns pt t d i :
  snd (scan_buttons inv btns pt t d) = Some i ->
  fst (scan_buttons inv btns pt t d) = fired i.
Proof.
  intros H. pose proof (proj1 (scan_click btns pt t d i) H) as (Ht & Hh & He).
  destruct (on_target_hit _ _ _ Ht) as (b & Hb & <-).
  rewrite (scan_on inv btns pt t d b Hb).
  rewrite Hh, same_button_refl. cbn [negb]. rewrite He. reflexivity.
Qed.

(** [run] over a list of ticks followed by one more. *)
Lemma run_snoc cal : forall tks st tk,
  run inv cal st (tks ++ [tk]) =
    (' (st1, es) <- run inv cal st tks ;;
     ' (st2, e) <- check_gaze inv cal st1 tk ;;
     Ok (st2, es ++ [e])).
Proof.
  induction tks as [|a r IH]; intros st tk; cbn [app run bind].
  - destruct (check_gaze inv cal st tk) as [[st2 e]|err]; reflexivity.
  - destruct (check_gaze inv cal st a) as [[st1 e1]|err]; cbn [bind];
      [|reflexivity].
    rewrite IH.
    destruct (run inv cal st1 r) as [[st2 es]|err]; cbn [bind]; [|reflexivity].
    destruct (check_gaze inv cal st2 tk) as [[st3 e]|err]; reflexivity.
Qed.

Lemma run_length cal : forall tks st st' es,
  run inv cal st tks = Ok (st', es) -> length es = length tks.
Proof.
  induction tks as [|a r IH]; intros st st' es; cbn [run].
  - intros [= <- <-]. reflexivity.
  - destruct (check_gaze inv cal st a) as [[st1 e1]|err]; cbn [bind];
      [|discriminate].
    destruct (run inv cal st1 r) as [[st2 es2]|err] eqn:E; cbn [bind];
      [|discriminate].
    intros [= <- <-]. cbn [length]. f_equal. eapply IH. exact E.
Qed.

Lemma run_snoc_inv cal tks st tk st' es' :
  run inv cal st (tks ++ [tk]) = Ok (st', es') ->
  exists st1 es e,
    run inv cal st tks = Ok (st1, es)
    /\ check_gaze inv cal st1 tk = Ok (st', e)
    /\ es' = es ++ [e].
Proof.
  rewrite run_snoc.
  destruct (run inv cal st tks) as [[st1 es]|err]; cbn [bind]; [|discriminate].
  destruct (check_gaze inv cal st1 tk) as [[st2 e]|err] eqn:E; cbn [bind];
    [|discriminate].
  intros [= <- <-]. eauto 6.
Qed.

Lemma run_dwelling cal st0 :
  hover_timer (dwell st0) = None ->
  forall tks st es,
    run inv cal st0 tks = Ok (st, es) ->
    forall since, hover_timer (dwell st) = Some since ->
    exists i, hovered_button (dwell st) = Some i
              /\ dwelling cal tks es i since.
Proof.
  intros H0. induction tks as [|tk tks IH] using rev_ind; intros st es Hrun.
  - cbn [run] in Hrun. injection Hrun as <- <-. intros since Hs. congruence.
  - destruct (run_snoc_inv _ _ _ _ _ _ Hrun) as (st1 & es1 & e & Hr1 & Hc & ->).
    specialize (IH st1 es1 Hr1).
    destruct (check_gaze_ok inv cal st1 st tk e Hc)
      as (sx & sy & Hp & Hscan & _).
    intros since Hs.
    destruct (hit (buttons tk) (sx, sy)) as [b|] eqn:Hh.
    + rewrite (scan_on inv _ _ _ _ b Hh) in Hscan.
      destruct (same_button (hovered_button (dwell st1)) b) eqn:Hsame;
        cbn [negb] in Hscan.
      * destruct (hasExpired inv (hover_timer (dwell st1)) (now tk) DWELL_MS).
        -- injection Hscan as Hd _. rewrite <- Hd in Hs. discriminate.
        -- injection Hscan as Hd He. rewrite <- Hd in Hs |- *.
           destruct (IH since Hs) as (i & Hi & D). exists i. split; [exact Hi|].
           destruct D as (bf & en & du & eb & ed & -> & -> & Hl & Hn & Fg & Fc).
           exists bf, en, (du ++ [tk]), eb, (ed ++ [e]).
           repeat split; auto.
           ++ rewrite <- app_assoc. reflexivity.
           ++ rewrite <- app_assoc. reflexivity.
           ++ rewrite app_comm_cons. apply Forall_app. split; [exact Fg|].
              constructor; [|constructor]. exists (sx, sy). split; [exact Hp|].
              apply same_button_true in Hsame. unfold on_target.
              rewrite Hh. cbn [option_map]. congruence.
           ++ apply Forall_app. split; [exact Fc|].
              constructor; [|constructor]. unfold no_click. congruence.
      * injection Hscan as Hd He. rewrite <- Hd in Hs |- *.
        cbn [hovering hover_timer hovered_button] in Hs |- *.
        injection Hs as <-. exists (btn_id b). split; [reflexivity|].
        exists tks, tk, [], es1, [e]. repeat split; auto.
        -- eapply run_length. exact Hr1.
        -- constructor; [|constructor]. exists (sx, sy). split; [exact Hp|].
           unfold on_target. rewrite Hh. reflexivity.
        -- constructor; [|constructor]. unfold no_click. congruence.
    + rewrite (scan_off inv _ _ _ _ Hh) in Hscan. injection Hscan as Hd _.
      rewrite <- Hd in Hs. discriminate.
Qed.

Lemma clicked_after_dwell_snoc cal tks es i tk e :
  clicked_after_dwell cal tks es i -> gaze_on cal i tk ->
  clicked_after_dwell cal (tks ++ [tk]) (es ++ [e]) i.
Proof.
  intros (bf & en & du & fi & mo & eb & ed & ef & em
          & -> & -> & Hl & Hld & Fg & Fc & Hk & Ht) Hg.
  exists bf, en, du, fi, (mo ++ [tk]), eb, ed, ef, (em ++ [e]).
  repeat split; auto.
  - repeat (rewrite <- app_assoc; cbn [app]). reflexivity.
  - repeat (rewrite <- app_assoc; cbn [app]). reflexivity.
  - rewrite Forall_forall in *. intros x Hin. cbn [In] in Hin.
    rewrite in_app_iff in Hin. cbn [In] in Hin. rewrite in_app_iff in Hin.
    cbn [In] in Hin.
    destruct Hin as [<-|[Hin|[<-|[Hin|[<-|[]]]]]]; try exact Hg;
      apply Fg; cbn [In]; rewrite in_app_iff; cbn [In]; auto.
Qed.

(** A state with a button hovered and the timer invalid comes from a click
    of this button after a full dwell. *)
Lemma run_fired cal st0 :
  dwell st0 = idle ->
  forall tks st es i,
    run inv cal st0 tks = Ok (st, es) -> dwell st = fired i ->
    clicked_after_dwell cal tks es i.
Proof.
  intros H0. induction tks as [|tk tks IH] using rev_ind; intros st es i Hrun Hf.
  - cbn [run] in Hrun. injection Hrun as <- <-. rewrite H0 in Hf. discriminate.
  - destruct (run_snoc_inv _ _ _ _ _ _ Hrun) as (st1 & es1 & e & Hr1 & Hc & ->).
    destruct (check_gaze_ok inv cal st1 st tk e Hc)
      as (sx & sy & Hp & Hscan & _).
    destruct (hit (buttons tk) (sx, sy)) as [b|] eqn:Hh.
    + rewrite (scan_on inv _ _ _ _ b Hh) in Hscan.
      destruct (same_button (hovered_button (dwell st1)) b) eqn:Hsame;
        cbn [negb] in Hscan.
      * pose proof (same_button_true _ _ Hsame) as Hb.
        assert (Hg : forall j, hovered_button (dwell st1) = Some j ->
                               gaze_on cal j tk).
        { intros j Hj. exists (sx, sy). split; [exact Hp|].
          unfold on_target. rewrite Hh. cbn [option_map]. congruence. }
        destruct (hasExpired inv (hover_timer (dwell st1)) (now tk) DWELL_MS)
          eqn:He.
        -- injection Hscan as Hd Hk. rewrite <- Hd in Hf.
           unfold fired in Hf. injection Hf as Hi.
           destruct (hover_timer (dwell st1)) as [since|] eqn:Htm.
           ++ destruct (run_dwelling cal st0 ltac:(rewrite H0; reflexivity)
                          tks st1 es1 Hr1 since Htm) as (j & Hj & D).
              assert (j = i) by congruence. subst j.
              destruct D as (bf & en & du & eb & ed & -> & -> & Hl & Hn & Fg & Fc).
              pose proof (run_length cal _ _ _ _ Hr1) as Hlen.
              rewrite !length_app in Hlen. cbn [length] in Hlen.
              exists bf, en, du, tk, [], eb, ed, e, [].
              repeat split; auto.
              ** rewrite <- app_assoc. reflexivity.
              ** rewrite <- app_assoc. reflexivity.
              ** lia.
              ** rewrite app_comm_cons. apply Forall_app. split; [exact Fg|].
                 constructor; [apply Hg; exact Hi|constructor].
              ** congruence.
              ** cbn [hasExpired] in He. apply Z.ltb_lt in He.
                 rewrite Hn. exact He.
           ++ apply clicked_after_dwell_snoc; [|apply Hg; exact Hi].
              apply (IH st1 es1 i Hr1). destruct (dwell st1) as [h tm].
              cbn [hovered_button hover_timer] in *. unfold fired. congruence.
        -- injection Hscan as Hd Hk. rewrite <- Hd in Hf.
           apply clicked_after_dwell_snoc; [apply (IH st1 es1 i Hr1 Hf)|].
           apply Hg. rewrite Hf. reflexivity.
      * injection Hscan as Hd _. rewrite <- Hd in Hf. discriminate.
    + rewrite (scan_off inv _ _ _ _ Hh) in Hscan. injection Hscan as Hd _.
      rewrite <- Hd in Hf. discriminate.
Qed.

End Scan.

End ClickFacts.

Module ClickClaims.
Import DwellSpec MappingSpec ClickFacts.

(** X2.  A tick that returns clicks button [i] exactly when [i] is the
    first button, in list order, whose rectangle contains the projected
    point, [i] was the hovered button before the tick, and the hover timer
    has expired; the tick then leaves [i] hovered with the timer
    invalidated.  In particular a button is never clicked on the tick on
    which the gaze enters it. *)
Theorem click_only_on_hovered_button :
  forall (inv : Z -> bool) (cal : calibration) (st st' : State) (tk : Tick)
         (eff : Effects),
    check_gaze inv cal st tk = Ok (st', eff) ->
    exists pt,
      project cal (fst (screen tk)) (snd (screen tk))
              (fst (offsets tk)) (snd (offsets tk)) = Ok pt
      /\ (forall i,
            clicked eff = Some i <->
            on_target (buttons tk) i pt
            /\ hovered_button (dwell st) = Some i
            /\ hasExpired inv (hover_timer (dwell st)) (now tk) DWELL_MS = true)
      /\ (forall i, clicked eff = Some i -> dwell st' = fired i)
      /\ (hovered_button (dwell st) = None -> clicked eff = None).
Proof.
  intros inv cal st st' tk eff Hc.
  destruct (check_gaze_ok inv cal st st' tk eff Hc)
    as (sx & sy & Hp & Hscan & _).
  exists (sx, sy). split; [exact Hp|].
  assert (Hi : forall i,
             clicked eff = Some i <->
             on_target (buttons tk) i (sx, sy)
             /\ hovered_button (dwell st) = Some i
             /\ hasExpired inv (hover_timer (dwell st)) (now tk) DWELL_MS = true).
  { intros i. rewrite <- (scan_click inv). rewrite Hscan. reflexivity. }
  split; [exact Hi|]. split.
  - intros i Hk.
    pose proof (scan_click_state inv (buttons tk) (sx, sy) (now tk) (dwell st) i)
      as Hst.
    rewrite Hscan in Hst. apply Hst. exact Hk.
  - intros Hn. destruct (clicked eff) as [i|]; [|reflexivity].
    destruct (proj1 (Hi i) eq_refl) as (_ & Hh & _). congruence.
Qed.

(** X3.  The loop over the buttons stops at the first button whose
    rectangle contains the point: the scan of a list is the scan of that
    button alone, whatever buttons follow it or precede it without
    containing the point; when no rectangle contains the point (or there is
    no button) nothing is clicked, nothing stays hovered and the timer is
    invalidated. *)
Theorem scan_stops_at_first_button :
  forall (inv : Z -> bool) (btns : list Button) (pt : Z * Z) (t : Z)
         (d : Dwell),
    scan_buttons inv btns pt t d =
      match hit btns pt with
      | None => (idle, None)
      | Some b => scan_buttons inv [b] pt t d
      end.
Proof. intros. apply scan_first. Qed.

(** X4.  A click needs a full dwell, whatever an invalidated timer reports.
    Over any run of ticks from the state of [__init__] (nothing hovered,
    the timer invalid), a tick that clicks button [i] belongs to an
    unbroken gaze on [i]: some earlier tick started the timer, the gaze of
    that tick and of every tick since was on [i], the first click of this
    gaze came more than 2000 ms after that tick with no click in between,
    and the clicking tick is that first click or a later tick of the same
    gaze; the buttons may change from tick to tick. *)
Theorem click_needs_full_dwell :
  forall (inv : Z -> bool) (cal : calibration) (st0 st' : State)
         (tks : list Tick) (tk : Tick) (effs : list Effects) (eff : Effects)
         (i : nat),
    dwell st0 = idle ->
    run inv cal st0 (tks ++ [tk]) = Ok (st', effs ++ [eff]) ->
    clicked eff = Some i ->
    exists before enter during first more e_before e_during e_first e_more,
      tks ++ [tk] = before ++ enter :: during ++ first :: more
      /\ effs ++ [eff] = e_before ++ e_during ++ e_first :: e_more
      /\ length e_before = length before
      /\ length e_during = S (length during)
      /\ Forall (gaze_on cal i) (enter :: during ++ first :: more)
      /\ Forall no_click e_during
      /\ clicked e_first = Some i
      /\ DWELL_MS < now first - now enter.
Proof.
  intros inv cal st0 st' tks tk effs eff i H0 Hrun Hk.
  apply (run_fired inv cal st0 H0 (tks ++ [tk]) st' (effs ++ [eff]) i Hrun).
  destruct (run_snoc_inv _ _ _ _ _ _ _ Hrun) as (st1 & es1 & e & Hr1 & Hc & Hes).
  apply app_inj_tail in Hes as [-> ->].
  destruct (check_gaze_ok inv cal st1 st' tk e Hc)
    as (sx & sy & Hp & Hscan & _).
  pose proof (scan_click_state inv (buttons tk) (sx, sy) (now tk) (dwell st1) i)
    as Hst.
  rewrite Hscan in Hst. apply Hst. exact Hk.
Qed.

(** X5.  The hovered button is not reset by a click.  When an
    invalidated timer reports expiry, every tick after a click whose gaze is
    still on the clicked button clicks it again, tick after tick, and
    leaves it hovered with the timer invalidated. *)
Theorem click_repeats_when_invalid_timer_expires :
  forall (inv : Z -> bool) (cal : calibration) (i : nat) (tks : list Tick)
         (st st' : State) (effs : list Effects),
    (forall t, inv t = true) ->
    dwell st = fired i ->
    Forall (gaze_on cal i) tks ->
    run inv cal st tks = Ok (st', effs) ->
    Forall (fun e => clicked e = Some i) effs /\ dwell st' = fired i.
Proof.
  intros inv cal i tks. induction tks as [|tk r IH];
    intros st st' effs Hinv Hd Hg; cbn [run].
  - intros [= <- <-]. split; [constructor|exact Hd].
  - inversion Hg as [|? ? Htk Hr]; subst.
    destruct (check_gaze inv cal st tk) as [[st1 e1]|err] eqn:Hc; cbn [bind];
      [|discriminate].
    destruct (run inv cal st1 r) as [[st2 es]|err] eqn:Hrun; cbn [bind];
      [|discriminate].
    intros [= <- <-].
    destruct (check_gaze_ok inv cal st st1 tk e1 Hc)
      as (sx & sy & Hp & Hscan & _).
    destruct Htk as (pt & Hp' & Hon).
    assert (pt = (sx, sy)) by congruence. subst pt.
    rewrite Hd, (after_fire inv _ _ _ _ Hon), Hinv in Hscan.
    injection Hscan as Hd1 Hk.
    destruct (IH st1 st2 es Hinv (eq_sym Hd1) Hr Hrun) as [Fe Hd2].
    split; [constructor; [symmetry; exact Hk|exact Fe]|exact Hd2].
Qed.

End ClickClaims.

(** ** The gains *)

Module GainFacts.
Import SFFacts FloatFacts SFClass SFRank MappingSpec ModelFacts.

Lemma axis_scale_form W r S :
  axis_scale W r = Ok S -> exists q, S = min2 q 40000.
Proof.
  unfold axis_scale, truediv.
  destruct ((r * 0.8) =? 0)%float; cbn [bind]; [discriminate|].
  intros [= <-]. eauto.
Qed.

Lemma calibration_model_form cal W H SX SY cdx cdy :
  calibration_model cal W H = Ok (SX, SY, cdx, cdy) ->
  exists qx qy, SX = min2 qx 40000 /\ SY = min2 qy 40000.
Proof.
  unfold calibration_model.
  destruct (column 2 cal) as [dxs|]; cbn [bind]; [|discriminate].
  destruct (column 3 cal) as [dys|]; cbn [bind]; [|discriminate].
  destruct (axis_range dxs) as [rx|]; cbn [bind]; [|discriminate].
  destruct (axis_range dys) as [ry|]; cbn [bind]; [|discriminate].
  destruct (axis_scale W _) as [sx|] eqn:Ex; cbn [bind]; [|discriminate].
  destruct (axis_scale H _) as [sy|] eqn:Ey; cbn [bind]; [|discriminate].
  destruct (lookup "Center" cal) as [row|]; cbn [bind]; [|discriminate].
  destruct (getitem row 2) as [c2|]; cbn [bind]; [|discriminate].
  destruct (getitem row 3) as [c3|]; cbn [bind]; [|discriminate].
  intros [= <- <- <- <-].
  destruct (axis_scale_form _ _ _ Ex) as [qx ->].
  destruct (axis_scale_form _ _ _ Ey) as [qy ->]. eauto.
Qed.

Lemma nonneg_finite_not_nan f : nonneg_finite f -> not_nan f = true.
Proof. intros [->|(m & e & ->)]; reflexivity. Qed.

(** [min(q, 40000)] is at most 40000 unless it is a NaN. *)
Lemma min2_capped q :
  not_nan (Prim2SF (min2 q 40000)) = true ->
  (min2 q 40000 <=? 40000)%float = true.
Proof.
  unfold min2. rewrite ltb_spec.
  destruct (SFltb (Prim2SF 40000) (Prim2SF q)) eqn:Hlt.
  - intros _. vm_compute. reflexivity.
  - intros Hn. rewrite leb_spec.
    apply SFleb_rank; try apply Prim2SF_valid.
    split; [exact Hn|]. split; [vm_compute; reflexivity|].
    destruct (Z_lt_le_dec (rank (Prim2SF 40000)) (rank (Prim2SF q)))
      as [Hr|Hr]; [|exact Hr].
    assert (SFltb (Prim2SF 40000) (Prim2SF q) = true); [|congruence].
    apply SFltb_rank; try apply Prim2SF_valid.
    split; [vm_compute; reflexivity|]. split; [exact Hn|exact Hr].
Qed.

Lemma nonneg_finite_leb S :
  nonneg_finite (Prim2SF S) -> (0 <=? S)%float = true.
Proof.
  rewrite leb_spec, Prim2SF_0. intros [->|(m & e & ->)]; reflexivity.
Qed.

Lemma nonneg_finite_finite S :
  nonneg_finite (Prim2SF S) -> finite S = true.
Proof. unfold finite. intros [->|(m & e & ->)]; reflexivity. Qed.

End GainFacts.

Module GainClaims.
Import MappingSpec ModelFacts GainFacts.

(** X9.  On every table of records of the persisted shape with finite mean
    offsets and a "Center" record, and every screen of 1 to 2^53 - 1 pixels
    each way, the model is built and its two gains are finite doubles from
    0 to 40000, whatever the spread of the offsets: the gain is never
    negative, never a NaN and never above the cap of lines 85-86. *)
Theorem gains_are_capped :
  forall (cal : calibration) (W H : Z) (a b cdx cdy w : float),
    finite_table cal = true ->
    lookup "Center" cal = Ok [a; b; cdx; cdy; w] ->
    1 <= W < 2 ^ 53 -> 1 <= H < 2 ^ 53 ->
    exists SX SY,
      calibration_model cal W H = Ok (SX, SY, cdx, cdy)
      /\ finite SX = true /\ finite SY = true
      /\ (0 <=? SX)%float = true /\ (SX <=? 40000)%float = true
      /\ (0 <=? SY)%float = true /\ (SY <=? 40000)%float = true.
Proof.
  intros cal W H a b cdx cdy w Hfin Hc HW HH.
  destruct (calibration_model_built cal W H a b cdx cdy w Hfin Hc HW HH)
    as (SX & SY & Hm & HSX & HSY).
  exists SX, SY. split; [exact Hm|].
  destruct (calibration_model_form _ _ _ _ _ _ _ Hm) as (qx & qy & Ex & Ey).
  repeat split.
  - apply nonneg_finite_finite. exact HSX.
  - apply nonneg_finite_finite. exact HSY.
  - apply nonneg_finite_leb. exact HSX.
  - rewrite Ex. apply min2_capped. rewrite <- Ex.
    apply nonneg_finite_not_nan. exact HSX.
  - apply nonneg_finite_leb. exact HSY.
  - rewrite Ey. apply min2_capped. rewrite <- Ey.
    apply nonneg_finite_not_nan. exact HSY.
Qed.

End GainClaims.

(** ** Exact operations on doubles *)

Module SFExact.
Import SFFacts FloatFacts SFOrder SmoothCheck.

#[local] Abbreviation fexp := (SpecFloat.fexp prec emax).

(** Shifting out zeros loses nothing. *)
Lemma iter_shr_1_exact p : forall m,
  iter_pos shr_1 p
    {| shr_m := Zpos (Pos.iter xO m p); shr_r := false; shr_s := false |}
  = {| shr_m := Zpos m; shr_r := false; shr_s := false |}.
Proof.
  induction p as [p IH|p IH|]; intros m; cbn [iter_pos Pos.iter].
  - cbn [shr_1 orb]. rewrite IH, IH. reflexivity.
  - rewrite IH, IH. reflexivity.
  - reflexivity.
Qed.

Lemma binary_round_aux_exact s m e p :
  canonical_mantissa prec emax m e = true -> e <= emax - prec ->
  binary_round_aux prec emax s (Zpos (Pos.iter xO m p)) (e - Zpos p) loc_Exact
  = S754_finite s m e.
Proof.
  unfold canonical_mantissa. intros Hc He. apply Z.eqb_eq in Hc.
  unfold binary_round_aux, shr_fexp. cbn [Zdigits2].
  assert (Hd : Zpos (digits2_pos (Pos.iter xO m p))
               = Zpos (digits2_pos m) + Zpos p).
  { rewrite !digits2_log2, iter_xO, Z.log2_mul_pow2 by lia. lia. }
  rewrite Hd.
  replace (Zpos (digits2_pos m) + Zpos p + (e - Zpos p))
    with (Zpos (digits2_pos m) + e) by lia.
  rewrite Hc. replace (e - (e - Zpos p)) with (Zpos p) by lia.
  cbn [shr shr_record_of_loc]. rewrite iter_shr_1_exact.
  cbn [shr_m loc_of_shr_record round_nearest_even Zdigits2].
  replace (e - Zpos p + Zpos p) with e by lia.
  rewrite Hc, Z.sub_diag. cbn [shr shr_m].
  destruct (Z.leb_spec e (emax - prec)); [reflexivity|lia].
Qed.

Lemma pow2_cancel a b c :
  0 <= c -> a * 2 ^ c = b * 2 ^ c -> a = b.
Proof.
  intros Hc H. apply Z.mul_cancel_r in H; [exact H|].
  apply Z.pow_nonzero; lia.
Qed.

(** Rounding a mantissa and an exponent that stand for the value of a
    canonical pair returns that pair. *)
Lemma binary_round_value s p ez m e :
  canonical_mantissa prec emax m e = true -> e <= emax - prec ->
  -1074 <= ez -> -1074 <= e ->
  Zpos p * 2 ^ (ez + 1074) = Zpos m * 2 ^ (e + 1074) ->
  binary_round prec emax s p ez = S754_finite s m e.
Proof.
  intros Hc He Hez Hem Hv. unfold binary_round.
  assert (Hd : Zpos (digits2_pos p) + ez = Zpos (digits2_pos m) + e).
  { rewrite !digits2_log2.
    assert (Z.log2 (Zpos p * 2 ^ (ez + 1074))
            = Z.log2 (Zpos m * 2 ^ (e + 1074))) by (rewrite Hv; reflexivity).
    rewrite !Z.log2_mul_pow2 in H by lia. lia. }
  rewrite Hd. pose proof Hc as Hc'. unfold canonical_mantissa in Hc'.
  apply Z.eqb_eq in Hc'. rewrite Hc'. unfold shl_align.
  destruct (e - ez) as [|k|k] eqn:Hk.
  - assert (e = ez) by lia. subst ez. apply pow2_cancel in Hv; [|lia].
    injection Hv as ->. apply binary_round_aux_canonical; assumption.
  - assert (Hp : p = Pos.iter xO m k).
    { apply Pos2Z.inj. rewrite iter_xO.
      replace (e + 1074) with (Zpos k + (ez + 1074)) in Hv by lia.
      rewrite (Z.pow_add_r 2 (Zpos k) (ez + 1074)), Z.mul_assoc in Hv by lia.
      apply pow2_cancel in Hv; [exact Hv|lia]. }
    rewrite Hp. replace ez with (e - Zpos k) by lia.
    apply binary_round_aux_exact; assumption.
  - assert (Hp : Pos.iter xO p k = m).
    { apply Pos2Z.inj. rewrite iter_xO.
      replace (ez + 1074) with (Zpos k + (e + 1074)) in Hv by lia.
      rewrite (Z.pow_add_r 2 (Zpos k) (e + 1074)), Z.mul_assoc in Hv by lia.
      apply pow2_cancel in Hv; [exact Hv|lia]. }
    rewrite Hp. apply binary_round_aux_canonical; assumption.
Qed.

Lemma canonical_exponent m e :
  canonical_mantissa prec emax m e = true -> -1074 <= e.
Proof.
  unfold canonical_mantissa. intros H. apply Z.eqb_eq in H.
  rewrite fexp_eq in H. lia.
Qed.

Lemma shl_align_fst m e ez :
  ez <= e -> Zpos (fst (shl_align m e ez)) = Zpos m * 2 ^ (e - ez).
Proof.
  intros H. unfold shl_align. destruct (ez - e) as [|k|k] eqn:Hk; cbn [fst].
  - replace (e - ez) with 0 by lia. lia.
  - lia.
  - rewrite iter_xO. f_equal. f_equal. lia.
Qed.

Lemma scaled_aligned s m e ez :
  -1074 <= ez -> ez <= e ->
  cond_Zopp s (Zpos (fst (shl_align m e ez))) * 2 ^ (ez + 1074)
  = scaled (S754_finite s m e).
Proof.
  intros H1 H2. rewrite shl_align_fst by exact H2. cbn [scaled].
  replace (e + 1074) with ((e - ez) + (ez + 1074)) by lia.
  rewrite (Z.pow_add_r 2 (e - ez) (ez + 1074)) by lia.
  destruct s; cbn [cond_Zopp]; lia.
Qed.

Lemma binary_normalize_value z ez d :
  -1074 <= ez -> z * 2 ^ (ez + 1074) = d -> representable d ->
  sf_finite (binary_normalize prec emax z ez false) = true
  /\ scaled (binary_normalize prec emax z ez false) = d.
Proof.
  intros Hez Hz Hd.
  assert (Hpos : 0 < 2 ^ (ez + 1074)) by (apply Z.pow_pos_nonneg; lia).
  destruct Hd as [Hd|(s & m & e & Hc & He & Hd)].
  - assert (z = 0) by nia. subst z. cbn. auto.
  - pose proof (canonical_exponent _ _ Hc) as Hem.
    assert (Hm : 0 < Zpos m * 2 ^ (e + 1074)).
    { apply Z.mul_pos_pos; [lia|apply Z.pow_pos_nonneg; lia]. }
    destruct z as [|p|p]; cbn [binary_normalize].
    + destruct s; cbn [cond_Zopp] in Hd; lia.
    + destruct s; cbn [cond_Zopp] in Hd; [lia|].
      rewrite (binary_round_value false p ez m e) by (assumption || lia).
      cbn [sf_finite scaled cond_Zopp]. split; [reflexivity|lia].
    + destruct s; cbn [cond_Zopp] in Hd; [|lia].
      rewrite (binary_round_value true p ez m e) by (assumption || lia).
      cbn [sf_finite scaled cond_Zopp]. split; [reflexivity|lia].
Qed.

(** The difference of two finite doubles is exact when it is the value of
    a double. *)
Lemma SFsub_scaled x y :
  valid_binary x = true -> valid_binary y = true ->
  sf_finite x = true -> sf_finite y = true ->
  representable (scaled x - scaled y) ->
  sf_finite (SF64sub x y) = true
  /\ scaled (SF64sub x y) = scaled x - scaled y.
Proof.
  intros Vx Vy Fx Fy Hd.
  destruct x as [sx|sx| |sx mx ex]; try discriminate;
    destruct y as [sy|sy| |sy my ey]; try discriminate;
    unfold SF64sub; cbn [SFsub].
  - destruct sx, sy; cbn; auto.
  - cbn [sf_finite scaled]. split; [reflexivity|].
    destruct sy; cbn [negb cond_Zopp]; lia.
  - cbn [sf_finite scaled]. split; [reflexivity|lia].
  - destruct (valid_finite_bounds _ _ _ Vx) as (Hex & _).
    destruct (valid_finite_bounds _ _ _ Vy) as (Hey & _).
    apply binary_normalize_value; [lia| |exact Hd].
    rewrite Z.mul_sub_distr_r.
    rewrite !scaled_aligned by lia. reflexivity.
Qed.

(** The integers below 2^53 in magnitude, and their halves. *)
Lemma sf_of_pos_normal s p :
  Zpos p < 2 ^ 53 ->
  exists m e,
    sf_of_pos s p = S754_finite s m e
    /\ 2 ^ 52 <= Zpos m < 2 ^ 53 /\ -52 <= e <= 0
    /\ Zpos m * 2 ^ (e + 1074) = Zpos p * 2 ^ 1074.
Proof.
  intros Hp.
  assert (Hd : 1 <= Zpos (digits2_pos p) <= 53).
  { rewrite digits2_log2. pose proof (Z.log2_nonneg (Zpos p)).
    assert (Z.log2 (Zpos p) < 53) by (apply Z.log2_lt_pow2; lia). lia. }
  unfold sf_of_pos. rewrite Z.add_0_r, fexp_eq.
  replace (Z.max (Zpos (digits2_pos p) - 53) (-1074))
    with (Zpos (digits2_pos p) - 53) by lia.
  unfold shl_align. rewrite Z.sub_0_r.
  destruct (Zpos (digits2_pos p) - 53) as [|k|k] eqn:Hk; try lia.
  - exists p, 0. split; [reflexivity|]. split; [|split; [lia|reflexivity]].
    split; [|lia]. rewrite digits2_log2 in Hk.
    apply Z.log2_le_pow2; lia.
  - exists (Pos.iter xO p k), (Zneg k). split; [reflexivity|].
    rewrite iter_xO. rewrite digits2_log2 in Hk.
    pose proof (Z.log2_nonneg (Zpos p)) as Hlp.
    assert (Hl : Z.log2 (Zpos p * 2 ^ Zpos k) = 52).
    { rewrite Z.log2_mul_pow2 by lia. lia. }
    assert (Hpos : 0 < Zpos p * 2 ^ Zpos k).
    { apply Z.mul_pos_pos; [lia|apply Z.pow_pos_nonneg; lia]. }
    split; [|split; [lia|]].
    + split; [apply Z.log2_le_pow2; lia|].
      apply Z.log2_lt_pow2; lia.
    + rewrite <- Z.mul_assoc, <- Z.pow_add_r by lia. f_equal. f_equal. lia.
Qed.

Lemma canonical_normal m e :
  2 ^ 52 <= Zpos m < 2 ^ 53 -> -1074 <= e ->
  canonical_mantissa prec emax m e = true.
Proof.
  intros Hm He. unfold canonical_mantissa. apply Z.eqb_eq.
  rewrite fexp_eq, digits2_log2.
  assert (Z.log2 (Zpos m) = 52).
  { apply Z.log2_unique; [lia|]. change (2 ^ (52 + 1)) with (2 ^ 53). lia. }
  lia.
Qed.

Lemma dyadic_value p m e j :
  Zpos m * 2 ^ (e + 1074) = Zpos p * 2 ^ 1074 ->
  -1000 <= j <= 0 -> -52 <= e ->
  Zpos p * 2 ^ (j + 1074) = Zpos m * 2 ^ (e + j + 1074).
Proof.
  intros Hv Hj He. apply (pow2_cancel _ _ (- j)); [lia|].
  rewrite <- !Z.mul_assoc.
  rewrite <- (Z.pow_add_r 2 (j + 1074) (- j)) by lia.
  rewrite <- (Z.pow_add_r 2 (e + j + 1074) (- j)) by lia.
  replace (j + 1074 + - j) with 1074 by lia.
  replace (e + j + 1074 + - j) with (e + 1074) by lia.
  symmetry. exact Hv.
Qed.

(** An integer below 2^53 in magnitude times 2^j, for a small negative
    [j], is the value of a double. *)
Lemma representable_dyadic n j :
  Z.abs n < 2 ^ 53 -> -1000 <= j <= 0 ->
  representable (n * 2 ^ (j + 1074)).
Proof.
  intros Hn Hj. destruct n as [|p|p].
  - left. reflexivity.
  - right. destruct (sf_of_pos_normal false p Hn) as (m & e & _ & Hm & He & Hv).
    exists false, m, (e + j). split; [apply canonical_normal; lia|].
    split; [change (emax - prec) with 971; lia|]. cbn [cond_Zopp].
    apply dyadic_value; (assumption || lia).
  - right. destruct (sf_of_pos_normal true p Hn) as (m & e & _ & Hm & He & Hv).
    exists true, m, (e + j). split; [apply canonical_normal; lia|].
    split; [change (emax - prec) with 971; lia|]. cbn [cond_Zopp].
    change (Zneg p) with (- Zpos p). rewrite Z.mul_opp_l. f_equal.
    apply dyadic_value; (assumption || lia).
Qed.

Lemma mul_pow2_pos m e j :
  2 ^ 52 <= Zpos m < 2 ^ 53 -> -52 <= e <= 0 -> -1 <= j <= 0 ->
  SF64mul (S754_finite false m e) (S754_finite false 4503599627370496 (-52 + j))
  = S754_finite false m (e + j).
Proof.
  intros Hm He Hj. unfold SF64mul. cbn [SFmul xorb].
  assert (Hp : (m * 4503599627370496)%positive = Pos.iter xO m 52).
  { apply Pos2Z.inj. rewrite iter_xO, Pos2Z.inj_mul. reflexivity. }
  rewrite Hp. replace (e + (-52 + j)) with ((e + j) - 52) by lia.
  apply binary_round_aux_exact.
  - apply canonical_normal; lia.
  - change (emax - prec) with 971. lia.
Qed.

(** [float(n) * frac] for [frac] the double of [c / 2]. *)
Lemma scaled_mul_frac n c frac :
  0 <= n < 2 ^ 53 ->
  (c = 0 /\ Prim2SF frac = S754_zero false)
  \/ (c = 1 /\ Prim2SF frac = sf_half)
  \/ (c = 2 /\ Prim2SF frac = sf_one) ->
  sf_finite (Prim2SF (float_of_int n * frac)) = true
  /\ scaled (Prim2SF (float_of_int n * frac)) = c * n * 2 ^ 1073.
Proof.
  intros Hn Hc. rewrite mul_spec, Prim2SF_float_of_int by lia.
  destruct n as [|p|p]; try lia; cbn [sf_of_int].
  - destruct Hc as [[-> ->]|[[-> ->]|[-> ->]]]; cbn; auto.
  - destruct (sf_of_pos_normal false p ltac:(lia)) as (m & e & -> & Hm & He & Hv).
    destruct Hc as [[-> ->]|[[-> ->]|[-> ->]]].
    + cbn. auto.
    + unfold sf_half.
      pose proof (mul_pow2_pos m e (-1) Hm He ltac:(lia)) as Hmul.
      change (-52 + -1) with (-53) in Hmul. rewrite Hmul.
      cbn [sf_finite scaled cond_Zopp]. split; [reflexivity|].
      apply (pow2_cancel _ _ 1); [lia|].
      rewrite <- !Z.mul_assoc, <- !Z.pow_add_r by lia.
      replace (e + -1 + 1074 + 1) with (e + 1074) by lia.
      change (1073 + 1) with 1074. lia.
    + unfold sf_one.
      pose proof (mul_pow2_pos m e 0 Hm He ltac:(lia)) as Hmul.
      change (-52 + 0) with (-52) in Hmul. rewrite Hmul.
      cbn [sf_finite scaled cond_Zopp].
      split; [reflexivity|]. rewrite Z.add_0_r, Hv.
      change (2 ^ 1074) with (2 * 2 ^ 1073). lia.
Qed.

(** [int(float(n) * frac - float(k))] *)
Lemma py_int_frac_minus n k c frac :
  0 <= n < 2 ^ 52 -> 0 <= k < 2 ^ 52 ->
  (c = 0 /\ Prim2SF frac = S754_zero false)
  \/ (c = 1 /\ Prim2SF frac = sf_half)
  \/ (c = 2 /\ Prim2SF frac = sf_one) ->
  py_int (float_of_int n * frac - float_of_int k)%float
  = Ok (Z.quot (c * n - 2 * k) 2).
Proof.
  intros Hn Hk Hc.
  destruct (scaled_mul_frac n c frac ltac:(lia) Hc) as [Fx Sx].
  assert (Hc3 : 0 <= c <= 2) by (destruct Hc as [[-> _]|[[-> _]|[-> _]]]; lia).
  assert (H52 : 2 ^ 53 = 2 * 2 ^ 52) by reflexivity.
  assert (Hy : Prim2SF (float_of_int k) = sf_of_int k)
    by (apply Prim2SF_float_of_int; lia).
  destruct (sf_of_int_spec k ltac:(lia)) as (_ & Vy & _).
  pose proof (sf_of_int_finite k) as Fy.
  pose proof (scaled_sf_of_int k ltac:(lia)) as Sy.
  set (x := Prim2SF (float_of_int n * frac)) in *.
  assert (Hd : scaled x - scaled (sf_of_int k) = (c * n - 2 * k) * 2 ^ 1073).
  { rewrite Sx, Sy. change (2 ^ 1074) with (2 * 2 ^ 1073). lia. }
  assert (Hr : representable (scaled x - scaled (sf_of_int k))).
  { rewrite Hd. apply (representable_dyadic _ (-1)); [|lia]. nia. }
  destruct (SFsub_scaled x (sf_of_int k) (Prim2SF_valid _) Vy Fx Fy Hr)
    as [Fs Ss].
  rewrite py_int_scaled by (rewrite sub_spec, Hy; exact Fs).
  rewrite sub_spec, Hy. fold x. rewrite Ss, Hd. f_equal.
  change (2 ^ 1074) with (2 * 2 ^ 1073).
  apply Z.quot_mul_cancel_r; [lia|apply Z.pow_nonzero; lia].
Qed.

End SFExact.

(** ** Rounding to the nearest double *)

Module SFNear.
Import SFFacts FloatFacts SFOrder SFRange SmoothCheck SFExact.

#[local] Abbreviation fexp := (SpecFloat.fexp prec emax).

Lemma iter_pos_nat {A : Type} (f : A -> A) p : forall x,
  iter_pos f p x = Nat.iter (Pos.to_nat p) f x.
Proof.
  induction p as [p IH|p IH|]; intros x; cbn [iter_pos].
  - rewrite !IH, Pos2Nat.inj_xI. rewrite <- Nat.iter_add.
    replace (S (2 * Pos.to_nat p)) with (Pos.to_nat p + Pos.to_nat p + 1)%nat by lia.
    rewrite (Nat.iter_add (Pos.to_nat p + Pos.to_nat p) 1). reflexivity.
  - rewrite !IH, Pos2Nat.inj_xO. rewrite <- Nat.iter_add.
    f_equal. lia.
  - reflexivity.
Qed.

Lemma shr_1_nonneg m r s :
  0 <= m ->
  shr_1 {| shr_m := m; shr_r := r; shr_s := s |}
  = {| shr_m := m / 2; shr_r := Z.odd m; shr_s := r || s |}.
Proof.
  intros Hm. destruct m as [|[p|p|]|p]; try lia; cbn [shr_1 Z.odd].
  - reflexivity.
  - f_equal. apply Z.div_unique with 1; lia.
  - f_equal. apply Z.div_unique with 0; lia.
  - reflexivity.
Qed.

Lemma mod_pow2_succ m n :
  0 <= n -> m mod 2 ^ (n + 1) = m mod 2 ^ n + 2 ^ n * ((m / 2 ^ n) mod 2).
Proof.
  intros Hn. rewrite Z.pow_add_r by lia. change (2 ^ 1) with 2.
  apply Z.rem_mul_r; [apply Z.pow_nonzero; lia|lia].
Qed.

Lemma odd_mod2 a : Z.odd a = negb (a mod 2 =? 0).
Proof.
  rewrite Zmod_odd. destruct (Z.odd a); reflexivity.
Qed.

(** [n + 1] shifts of a mantissa: the quotient, the bit shifted out last
    and whether a bit shifted out before it was set. *)
Lemma shr_iter n : forall m, 0 <= m ->
  Nat.iter (S n) shr_1 {| shr_m := m; shr_r := false; shr_s := false |}
  = {| shr_m := m / 2 ^ Z.of_nat (S n);
       shr_r := Z.odd (m / 2 ^ Z.of_nat n);
       shr_s := negb (m mod 2 ^ Z.of_nat n =? 0) |}.
Proof.
  induction n as [|n IH]; intros m Hm.
  - cbn [Nat.iter]. rewrite shr_1_nonneg by exact Hm.
    change (2 ^ Z.of_nat 1) with 2. change (2 ^ Z.of_nat 0) with 1.
    rewrite Z.div_1_r, Z.mod_1_r. reflexivity.
  - change (Nat.iter (S (S n)) shr_1 ?x) with (shr_1 (Nat.iter (S n) shr_1 x)).
    rewrite IH by exact Hm.
    assert (Hp : 0 < 2 ^ Z.of_nat (S n)) by (apply Z.pow_pos_nonneg; lia).
    rewrite shr_1_nonneg by (apply Z.div_pos; lia).
    f_equal.
    + rewrite Z.div_div by lia. f_equal.
      rewrite (Nat2Z.inj_succ (S n)), Z.pow_succ_r by lia. lia.
    + rewrite (Nat2Z.inj_succ n). unfold Z.succ.
      rewrite mod_pow2_succ by lia. rewrite odd_mod2.
      assert (H0 : 0 < 2 ^ Z.of_nat n) by (apply Z.pow_pos_nonneg; lia).
      pose proof (Z.mod_pos_bound m (2 ^ Z.of_nat n) H0).
      pose proof (Z.mod_pos_bound (m / 2 ^ Z.of_nat n) 2 ltac:(lia)).
      destruct (Z.eqb_spec ((m / 2 ^ Z.of_nat n) mod 2) 0) as [E|E];
        destruct (Z.eqb_spec (m mod 2 ^ Z.of_nat n) 0) as [F|F];
        cbn [negb orb]; symmetry.
      * apply negb_false_iff, Z.eqb_eq. rewrite E, F. lia.
      * apply negb_true_iff, Z.eqb_neq. rewrite E. lia.
      * apply negb_true_iff, Z.eqb_neq. nia.
      * apply negb_true_iff, Z.eqb_neq. nia.
Qed.

(** The mantissa rounded after a shift of [k] bits is a nearest integer of
    the quotient. *)
Lemma rne_shift m k :
  0 <= m ->
  let r := iter_pos shr_1 k {| shr_m := m; shr_r := false; shr_s := false |} in
  let R := round_nearest_even (shr_m r) (loc_of_shr_record r) in
  m / 2 ^ Zpos k <= R <= m / 2 ^ Zpos k + 1
  /\ 2 * Z.abs (m - R * 2 ^ Zpos k) <= 2 ^ Zpos k.
Proof.
  intros Hm. rewrite iter_pos_nat.
  destruct (Pos2Nat.is_succ k) as [n Hn]. rewrite Hn, shr_iter by exact Hm.
  assert (Hk : Zpos k = Z.of_nat n + 1) by lia.
  cbv zeta. cbn [shr_m loc_of_shr_record].
  rewrite Hk, Nat2Z.inj_succ. unfold Z.succ.
  rewrite (Z.pow_add_r 2 (Z.of_nat n) 1) by lia. change (2 ^ 1) with 2.
  set (H := 2 ^ Z.of_nat n).
  assert (HH : 0 < H) by (apply Z.pow_pos_nonneg; lia).
  pose proof (Z.div_mod m H ltac:(lia)) as E1.
  pose proof (Z.mod_pos_bound m H HH) as B1.
  pose proof (Z.div_mod (m / H) 2 ltac:(lia)) as E2.
  pose proof (Z.mod_pos_bound (m / H) 2 ltac:(lia)) as B2.
  assert (Eq : m / (H * 2) = m / H / 2) by (rewrite Z.div_div by lia; reflexivity).
  rewrite Eq. rewrite odd_mod2.
  set (q := m / H / 2) in *. set (b := (m / H) mod 2) in *.
  set (l := m mod H) in *. set (a := m / H) in *.
  destruct (Z.eqb_spec b 0) as [Eb|Eb]; destruct (Z.eqb_spec l 0) as [El|El];
    cbn [negb round_nearest_even].
  - split; [lia|]. nia.
  - split; [lia|]. nia.
  - destruct (Z.even q); (split; [lia|]); nia.
  - split; [lia|]. nia.
Qed.

Lemma log2_digits p : Z.log2 (Zpos p) = Zpos (digits2_pos p) - 1.
Proof. rewrite digits2_log2. lia. Qed.

Lemma digits_bounds p :
  2 ^ (Zpos (digits2_pos p) - 1) <= Zpos p < 2 ^ Zpos (digits2_pos p).
Proof.
  rewrite digits2_log2. pose proof (Z.log2_spec (Zpos p) ltac:(lia)) as H.
  replace (Z.log2 (Zpos p) + 1 - 1) with (Z.log2 (Zpos p)) by lia.
  replace (Z.log2 (Zpos p) + 1) with (Z.succ (Z.log2 (Zpos p))) by lia.
  exact H.
Qed.

(** The second shift of [binary_round_aux] loses nothing. *)
Lemma renormalise s R e1 :
  2 ^ 52 <= R <= 2 ^ 53 -> -1074 <= e1 <= 970 ->
  exists m' e',
    (let '(mrs, e2) := shr_fexp prec emax R e1 loc_Exact in
     match shr_m mrs with
     | 0 => S754_zero s
     | Zpos m => if e2 <=? emax - prec then S754_finite s m e2
                 else S754_infinity s
     | Zneg _ => S754_nan
     end) = S754_finite s m' e'
    /\ Zpos m' * 2 ^ (e' + 1074) = R * 2 ^ (e1 + 1074).
Proof.
  intros HR He. unfold shr_fexp.
  destruct (Z.eq_dec R (2 ^ 53)) as [->|Hne].
  - change (Zdigits2 (2 ^ 53)) with 54. rewrite fexp_eq.
    replace (Z.max (54 + e1 - 53) (-1074) - e1) with 1 by lia.
    cbn [shr shr_record_of_loc iter_pos shr_1 shr_m].
    change (2 ^ 53) with (Zpos (xO 4503599627370496)). cbn [shr_1 shr_m orb].
    destruct (Z.leb_spec (e1 + 1) (emax - prec)) as [_|H];
      [|change (emax - prec) with 971 in H; lia].
    eexists _, _. split; [reflexivity|].
    replace (e1 + 1 + 1074) with (1 + (e1 + 1074)) by lia.
    rewrite (Z.pow_add_r 2 1 (e1 + 1074)) by lia. change (2 ^ 1) with 2. lia.
  - destruct R as [|r|r]; try lia.
    assert (Hd : Zdigits2 (Zpos r) = 53).
    { rewrite Zdigits2_log2 by lia.
      assert (Z.log2 (Zpos r) = 52); [|lia].
      apply Z.log2_unique; [lia|]. change (2 ^ (52 + 1)) with (2 ^ 53). lia. }
    rewrite Hd, fexp_eq.
    replace (Z.max (53 + e1 - 53) (-1074) - e1) with 0 by lia.
    cbn [shr shr_record_of_loc shr_m].
    destruct (Z.leb_spec e1 (emax - prec)) as [_|H];
      [|change (emax - prec) with 971 in H; lia].
    eexists _, _. split; reflexivity.
Qed.

Lemma pow2_divide a b : 0 <= a <= b -> (2 ^ a | 2 ^ b).
Proof.
  intros H. exists (2 ^ (b - a)). rewrite <- Z.pow_add_r by lia. f_equal. lia.
Qed.

Lemma binary_round_aux_near s p e :
  -1074 <= e <= 900 -> Zpos (digits2_pos p) + e <= 1000 ->
  exists m' e',
    binary_round_aux prec emax s (Zpos p) e loc_Exact = S754_finite s m' e'
    /\ near (Zpos p * 2 ^ (e + 1074)) (Zpos m' * 2 ^ (e' + 1074)).
Proof.
  intros He Hd. pose proof (digits_bounds p) as Hp.
  pose proof (log2_digits p) as Hl.
  assert (Hpos : 0 < 2 ^ (e + 1074)) by (apply Z.pow_pos_nonneg; lia).
  assert (Hlv : Z.log2 (Zpos p * 2 ^ (e + 1074))
                = Zpos (digits2_pos p) - 1 + (e + 1074)).
  { rewrite Z.log2_mul_pow2 by lia. lia. }
  assert (Hu : ulp_exp (Zpos p * 2 ^ (e + 1074))
               = Z.max 0 (Zpos (digits2_pos p) - 53 + (e + 1074))).
  { unfold ulp_exp. rewrite Z.abs_eq by nia. rewrite Hlv. lia. }
  unfold near. rewrite Hu.
  unfold binary_round_aux.
  destruct (Z_le_gt_dec (Zpos (digits2_pos p)) 53) as [Hs|Hb].
  - assert (Hk : fexp (Zdigits2 (Zpos p) + e) - e <= 0)
      by (cbn [Zdigits2]; rewrite fexp_eq; lia).
    assert (E : shr_fexp prec emax (Zpos p) e loc_Exact
                = ({| shr_m := Zpos p; shr_r := false; shr_s := false |}, e)).
    { unfold shr_fexp.
      destruct (fexp (Zdigits2 (Zpos p) + e) - e); try lia; reflexivity. }
    rewrite E. cbn [shr_m loc_of_shr_record round_nearest_even]. rewrite E.
    cbn [shr_m].
    destruct (Z.leb_spec e (emax - prec)) as [_|H];
      [|change (emax - prec) with 971 in H; lia].
    exists p, e. split; [reflexivity|]. split.
    + apply Z.divide_mul_r. apply pow2_divide. lia.
    + rewrite Z.sub_diag. cbn [Z.abs]. pose proof (Z.pow_pos_nonneg 2
        (Z.max 0 (Zpos (digits2_pos p) - 53 + (e + 1074))) ltac:(lia) ltac:(lia)).
      lia.
  - destruct (Zpos (digits2_pos p) - 53) as [|k|k] eqn:Hk; try lia.
    assert (E : shr_fexp prec emax (Zpos p) e loc_Exact
                = (iter_pos shr_1 k
                     {| shr_m := Zpos p; shr_r := false; shr_s := false |},
                   e + Zpos k)).
    { unfold shr_fexp. cbn [Zdigits2]. rewrite fexp_eq.
      replace (Z.max (Zpos (digits2_pos p) + e - 53) (-1074) - e)
        with (Zpos k) by lia. reflexivity. }
    rewrite E.
    pose proof (rne_shift (Zpos p) k ltac:(lia)) as HR. cbv zeta in HR.
    set (R := round_nearest_even _ _) in *.
    destruct HR as [Hq Hh].
    assert (Hpk : 0 < 2 ^ Zpos k) by (apply Z.pow_pos_nonneg; lia).
    assert (Hq2 : 2 ^ 52 <= Zpos p / 2 ^ Zpos k < 2 ^ 53).
    { split.
      - apply Z.div_le_lower_bound; [lia|].
        rewrite <- Z.pow_add_r by lia.
        replace (Zpos k + 52) with (Zpos (digits2_pos p) - 1) by lia. lia.
      - apply Z.div_lt_upper_bound; [lia|].
        rewrite <- Z.pow_add_r by lia.
        replace (Zpos k + 53) with (Zpos (digits2_pos p)) by lia. lia. }
    destruct (renormalise s R (e + Zpos k) ltac:(lia) ltac:(lia))
      as (m' & e' & Hr & Hv).
    exists m', e'. split; [exact Hr|]. rewrite Hv.
    replace (Z.max 0 (Zpos k + (e + 1074))) with (Zpos k + (e + 1074)) by lia.
    replace (e + Zpos k + 1074) with (Zpos k + (e + 1074)) by lia.
    split; [apply Z.divide_factor_r|].
    rewrite (Z.pow_add_r 2 (Zpos k) (e + 1074)) by lia.
    replace (Zpos p * 2 ^ (e + 1074) - R * (2 ^ Zpos k * 2 ^ (e + 1074)))
      with ((Zpos p - R * 2 ^ Zpos k) * 2 ^ (e + 1074)) by ring.
    rewrite Z.abs_mul, (Z.abs_eq (2 ^ (e + 1074))) by lia. nia.
Qed.

Lemma binary_round_near s p e :
  -1074 <= e <= 900 -> Zpos (digits2_pos p) + e <= 1000 ->
  exists m' e',
    binary_round prec emax s p e = S754_finite s m' e'
    /\ near (Zpos p * 2 ^ (e + 1074)) (Zpos m' * 2 ^ (e' + 1074)).
Proof.
  intros He Hd. unfold binary_round, shl_align.
  destruct (fexp (Zpos (digits2_pos p) + e) - e) as [|k|k] eqn:Hk;
    try (apply binary_round_aux_near; assumption).
  rewrite fexp_eq in Hk.
  assert (Hv : Zpos (Pos.iter xO p k)
               * 2 ^ (fexp (Zpos (digits2_pos p) + e) + 1074)
               = Zpos p * 2 ^ (e + 1074)).
  { rewrite iter_xO, fexp_eq, <- Z.mul_assoc, <- Z.pow_add_r by lia.
    f_equal. f_equal. lia. }
  rewrite <- Hv. apply binary_round_aux_near; rewrite fexp_eq.
  - lia.
  - rewrite (digits2_log2 (Pos.iter xO p k)), iter_xO, Z.log2_mul_pow2 by lia.
    pose proof (digits2_log2 p). lia.
Qed.

Lemma ulp_exp_nonneg v : 0 <= ulp_exp v.
Proof. unfold ulp_exp. lia. Qed.

Lemma ulp_exp_opp v : ulp_exp (- v) = ulp_exp v.
Proof. unfold ulp_exp. rewrite Z.abs_opp. reflexivity. Qed.

Lemma near_opp v v' : near v v' -> near (- v) (- v').
Proof.
  unfold near. rewrite ulp_exp_opp. intros [Hd Hh]. split.
  - apply Z.divide_opp_r. exact Hd.
  - replace (- v - - v') with (- (v - v')) by ring. rewrite Z.abs_opp. exact Hh.
Qed.

Lemma near_zero : near 0 0.
Proof. unfold near, ulp_exp. cbn. split; [apply Z.divide_0_r|lia]. Qed.

(** A scaled value below 2^(j + 53) in magnitude has its last place at
    most at [j]. *)
Lemma ulp_exp_le v j : 0 <= j -> Z.abs v < 2 ^ (j + 53) -> ulp_exp v <= j.
Proof.
  intros Hj Hv. unfold ulp_exp.
  destruct (Z.eq_dec (Z.abs v) 0) as [->|Hnz]; [cbn; lia|].
  assert (Z.log2 (Z.abs v) < j + 53) by (apply Z.log2_lt_pow2; lia). lia.
Qed.

Lemma near_grid v v' j :
  near v v' -> ulp_exp v <= j -> 0 < 2 ^ ulp_exp v /\ (2 ^ ulp_exp v | 2 ^ j).
Proof.
  intros _ Hj. pose proof (ulp_exp_nonneg v). split.
  - apply Z.pow_pos_nonneg; lia.
  - apply pow2_divide. lia.
Qed.

(** Rounding keeps a double of the grid on its side. *)
Lemma near_ge v v' g j :
  near v v' -> ulp_exp v <= j -> (2 ^ j | g) -> g <= v -> g <= v'.
Proof.
  intros Hn Hj Hg Hle. destruct (near_grid v v' j Hn Hj) as [HU Hdiv].
  destruct Hn as [[a Ha] Hh].
  destruct (Z.divide_trans _ _ _ Hdiv Hg) as [b Hb].
  set (U := 2 ^ ulp_exp v) in *.
  destruct (Z_le_gt_dec g v') as [|Hgt]; [assumption|exfalso].
  assert (a + 1 <= b) by nia. nia.
Qed.

Lemma near_le v v' g j :
  near v v' -> ulp_exp v <= j -> (2 ^ j | g) -> v <= g -> v' <= g.
Proof.
  intros Hn Hj Hg Hle. destruct (near_grid v v' j Hn Hj) as [HU Hdiv].
  destruct Hn as [[a Ha] Hh].
  destruct (Z.divide_trans _ _ _ Hdiv Hg) as [b Hb].
  set (U := 2 ^ ulp_exp v) in *.
  destruct (Z_le_gt_dec v' g) as [|Hgt]; [assumption|exfalso].
  assert (b + 1 <= a) by nia. nia.
Qed.

Lemma near_half v v' j :
  near v v' -> ulp_exp v <= j -> 2 * Z.abs (v - v') <= 2 ^ j.
Proof.
  intros [_ Hh] Hj. pose proof (ulp_exp_nonneg v).
  assert (2 ^ ulp_exp v <= 2 ^ j) by (apply Z.pow_le_mono_r; lia). lia.
Qed.

(** A valid finite double is nearest to itself. *)
Lemma near_self f :
  valid_binary f = true -> sf_finite f = true -> near (scaled f) (scaled f).
Proof.
  destruct f as [s|s| |s m e]; try discriminate; intros Hv _;
    cbn [scaled]; [apply near_zero|].
  destruct (valid_finite_bounds s m e Hv) as (He & Hm & _).
  assert (Hp : near (Zpos m * 2 ^ (e + 1074)) (Zpos m * 2 ^ (e + 1074))).
  { unfold near. rewrite Z.sub_diag. cbn [Z.abs].
    assert (Hu : ulp_exp (Zpos m * 2 ^ (e + 1074)) <= e + 1074).
    { apply ulp_exp_le; [lia|].
      assert (0 < 2 ^ (e + 1074)) by (apply Z.pow_pos_nonneg; lia).
      rewrite Z.abs_eq by nia.
      rewrite (Z.pow_add_r 2 (e + 1074) 53) by lia. nia. }
    pose proof (ulp_exp_nonneg (Zpos m * 2 ^ (e + 1074))).
    split; [apply Z.divide_mul_r, pow2_divide; lia|].
    pose proof (Z.pow_pos_nonneg 2 (ulp_exp (Zpos m * 2 ^ (e + 1074)))
                  ltac:(lia) ltac:(lia)). lia. }
  destruct s; cbn [cond_Zopp]; [apply near_opp|]; exact Hp.
Qed.

Lemma binary_normalize_near z e :
  -1074 <= e <= 900 -> Z.abs z * 2 ^ (e + 1074) < 2 ^ 2000 ->
  sf_finite (binary_normalize prec emax z e false) = true
  /\ near (z * 2 ^ (e + 1074)) (scaled (binary_normalize prec emax z e false)).
Proof.
  intros He Hz.
  assert (Hpos : 0 < 2 ^ (e + 1074)) by (apply Z.pow_pos_nonneg; lia).
  assert (Hd : forall p, Zpos p * 2 ^ (e + 1074) < 2 ^ 2000 ->
                         Zpos (digits2_pos p) + e <= 1000).
  { intros p Hp. rewrite digits2_log2.
    assert (Z.log2 (Zpos p * 2 ^ (e + 1074)) < 2000)
      by (apply Z.log2_lt_pow2; [nia|exact Hp]).
    rewrite Z.log2_mul_pow2 in H by lia. lia. }
  destruct z as [|p|p]; cbn [binary_normalize Z.abs] in *.
  - split; [reflexivity|]. cbn [scaled]. apply near_zero.
  - destruct (binary_round_near false p e He (Hd p Hz)) as (m' & e' & -> & Hn).
    split; [reflexivity|exact Hn].
  - destruct (binary_round_near true p e He (Hd p Hz)) as (m' & e' & -> & Hn).
    split; [reflexivity|]. cbn [scaled cond_Zopp].
    change (Zneg p) with (- Zpos p). rewrite Z.mul_opp_l.
    apply near_opp. exact Hn.
Qed.

Lemma scaled_small_exponent s m e :
  valid_binary (S754_finite s m e) = true ->
  Z.abs (scaled (S754_finite s m e)) < 2 ^ 1900 -> -1074 <= e <= 900.
Proof.
  intros Hv Hs. destruct (valid_finite_bounds s m e Hv) as (He & _).
  split; [exact He|]. cbn [scaled] in Hs.
  assert (Hpos : 0 < 2 ^ (e + 1074)) by (apply Z.pow_pos_nonneg; lia).
  assert (Hx : Z.abs (cond_Zopp s (Zpos m * 2 ^ (e + 1074)))
               = Zpos m * 2 ^ (e + 1074))
    by (destruct s; cbn [cond_Zopp]; nia).
  rewrite Hx in Hs.
  destruct (Z_le_gt_dec e 900) as [|Hgt]; [assumption|exfalso].
  assert (2 ^ 1900 <= 2 ^ (e + 1074)) by (apply Z.pow_le_mono_r; lia). nia.
Qed.

(** The sum of two finite doubles of moderate size is a double nearest to
    the sum of their values. *)
Lemma SFadd_near x y :
  valid_binary x = true -> valid_binary y = true ->
  sf_finite x = true -> sf_finite y = true ->
  Z.abs (scaled x) < 2 ^ 1900 -> Z.abs (scaled y) < 2 ^ 1900 ->
  sf_finite (SF64add x y) = true
  /\ near (scaled x + scaled y) (scaled (SF64add x y)).
Proof.
  intros Vx Vy Fx Fy Sx Sy.
  destruct x as [sx|sx| |sx mx ex]; try discriminate;
    destruct y as [sy|sy| |sy my ey]; try discriminate;
    unfold SF64add; cbn [SFadd].
  - destruct sx, sy; cbn [sf_finite scaled]; (split; [reflexivity|apply near_zero]).
  - split; [reflexivity|]. rewrite Z.add_0_l. apply near_self; assumption.
  - split; [reflexivity|]. rewrite Z.add_0_r. apply near_self; assumption.
  - destruct (scaled_small_exponent _ _ _ Vx Sx) as [Hex Hex'].
    destruct (scaled_small_exponent _ _ _ Vy Sy) as [Hey Hey'].
    set (z := cond_Zopp sx (Zpos (fst (shl_align mx ex (Z.min ex ey))))
              + cond_Zopp sy (Zpos (fst (shl_align my ey (Z.min ex ey))))).
    assert (Hz : z * 2 ^ (Z.min ex ey + 1074)
                 = scaled (S754_finite sx mx ex) + scaled (S754_finite sy my ey)).
    { subst z. rewrite Z.mul_add_distr_r, !scaled_aligned by lia. reflexivity. }
    rewrite <- Hz. apply binary_normalize_near; [lia|].
    assert (Hpos : 0 < 2 ^ (Z.min ex ey + 1074))
      by (apply Z.pow_pos_nonneg; lia).
    rewrite <- (Z.abs_eq (2 ^ (Z.min ex ey + 1074))) by lia.
    rewrite <- Z.abs_mul, Hz.
    assert (2 ^ 1900 + 2 ^ 1900 < 2 ^ 2000) by (cbv; reflexivity). lia.
Qed.

(** The product of two finite doubles that is neither tiny nor large is a
    double nearest to the product of their values. *)
Lemma SFmul_near sx mx ex sy my ey :
  Zpos mx < 2 ^ 53 -> Zpos my < 2 ^ 53 -> -1074 <= ex + ey <= 0 ->
  exists v',
    sf_finite (SF64mul (S754_finite sx mx ex) (S754_finite sy my ey)) = true
    /\ scaled (SF64mul (S754_finite sx mx ex) (S754_finite sy my ey))
       = cond_Zopp (xorb sx sy) v'
    /\ near (Zpos mx * Zpos my * 2 ^ (ex + ey + 1074)) v'.
Proof.
  intros Hx Hy He. unfold SF64mul. cbn [SFmul].
  destruct (binary_round_aux_near (xorb sx sy) (mx * my) (ex + ey) ltac:(lia))
    as (m' & e' & -> & Hn).
  - assert (Zdigits2 (Zpos (mx * my)) <= 106); [|cbn [Zdigits2] in *; lia].
    apply Zdigits2_upper; [lia|lia|]. rewrite Pos2Z.inj_mul.
    change (2 ^ 106) with (2 ^ 53 * 2 ^ 53). nia.
  - exists (Zpos m' * 2 ^ (e' + 1074)). split; [reflexivity|].
    split; [reflexivity|]. rewrite <- Pos2Z.inj_mul. exact Hn.
Qed.

End SFNear.

(** ** Smoothing toward a constant target *)

Module SmoothStep.
Import SFFacts FloatFacts SFOrder SFRange SmoothCheck SFExact SFNear SmoothSpec.

Lemma Prim2SF_02 : Prim2SF 0.2 = sf_02.
Proof. vm_compute. reflexivity. Qed.

(** [0.2 * float(d)]: its magnitude is at least 0.1875, at most that of
    [d], and at least 1 when [d] is 5 or more in magnitude. *)
Lemma fifth_scaled d :
  d <> 0 -> Z.abs d <= 2 ^ 52 ->
  exists v',
    sf_finite (Prim2SF (0.2 * float_of_int d)) = true
    /\ scaled (Prim2SF (0.2 * float_of_int d)) = Z.sgn d * v'
    /\ 3 * 2 ^ 1070 <= v' <= Z.abs d * 2 ^ 1074
    /\ (5 <= Z.abs d -> 2 ^ 1074 <= v').
Proof.
  intros Hnz Hd.
  assert (H53 : 2 ^ 52 < 2 ^ 53) by (cbv; reflexivity).
  rewrite mul_spec, Prim2SF_02, Prim2SF_float_of_int by lia. unfold sf_02.
  assert (Hgen : forall s pd,
            Zpos pd <= 2 ^ 52 ->
            exists v',
              sf_finite (SF64mul (S754_finite false 7205759403792794 (-55))
                                 (sf_of_pos s pd)) = true
              /\ scaled (SF64mul (S754_finite false 7205759403792794 (-55))
                                 (sf_of_pos s pd)) = cond_Zopp s v'
              /\ 3 * 2 ^ 1070 <= v' <= Zpos pd * 2 ^ 1074
              /\ (5 <= Zpos pd -> 2 ^ 1074 <= v')).
  { intros s pd Hpd.
    destruct (sf_of_pos_normal s pd ltac:(lia)) as (md & ed & -> & Hm & He & Hv).
    destruct (SFmul_near false 7205759403792794 (-55) s md ed
                ltac:(cbv; reflexivity) ltac:(lia) ltac:(lia))
      as (v' & Fv & Sv & Hn).
    exists v'. split; [exact Fv|]. split; [exact Sv|].
    assert (Hval : 7205759403792794 * Zpos md * 2 ^ (-55 + ed + 1074)
                   = 7205759403792794 * Zpos pd * 2 ^ 1019).
    { rewrite <- !Z.mul_assoc. f_equal.
      apply (pow2_cancel _ _ 55); [lia|].
      rewrite <- !Z.mul_assoc, <- !Z.pow_add_r by lia.
      replace (-55 + ed + 1074 + 55) with (ed + 1074) by lia.
      change (1019 + 55) with 1074. exact Hv. }
    rewrite Hval in Hn.
    set (v := 7205759403792794 * Zpos pd * 2 ^ 1019) in *.
    assert (E74 : 2 ^ 1074 = 2 ^ 55 * 2 ^ 1019) by (rewrite <- Z.pow_add_r by lia; reflexivity).
    assert (E70 : 2 ^ 1070 = 2 ^ 51 * 2 ^ 1019) by (rewrite <- Z.pow_add_r by lia; reflexivity).
    assert (P19 : 0 < 2 ^ 1019) by (apply Z.pow_pos_nonneg; lia).
    assert (C55 : 2 ^ 55 = 36028797018963968) by reflexivity.
    assert (C51 : 2 ^ 51 = 2251799813685248) by reflexivity.
    assert (C52 : 2 ^ 52 = 4503599627370496) by reflexivity.
    assert (Hvpos : 0 < v) by (subst v; nia).
    assert (Hu : ulp_exp v <= 1071).
    { apply ulp_exp_le; [lia|]. rewrite Z.abs_eq by lia.
      change (2 ^ (1071 + 53)) with (2 ^ 105 * 2 ^ 1019).
      assert (7205759403792794 * Zpos pd < 2 ^ 105); [|subst v; nia].
      change (2 ^ 105) with (2 ^ 53 * 2 ^ 52). nia. }
    assert (U : v' <= Zpos pd * 2 ^ 1074).
    { apply (near_le v v' _ 1074 Hn); [lia| |].
      - apply Z.divide_factor_r.
      - subst v. rewrite E74. nia. }
    assert (L5 : 5 <= Zpos pd -> 2 ^ 1074 <= v').
    { intros H5. apply (near_ge v v' _ 1074 Hn); [lia|apply Z.divide_refl|].
      subst v. rewrite E74. nia. }
    split; [split; [|exact U]|exact L5].
    destruct (Z_le_gt_dec 5 (Zpos pd)) as [H5|H4].
    - specialize (L5 H5). rewrite E74 in L5. rewrite E70. nia.
    - apply (near_ge v v' _ 1070 Hn).
      + apply ulp_exp_le; [lia|]. rewrite Z.abs_eq by lia.
        change (2 ^ (1070 + 53)) with (2 ^ 104 * 2 ^ 1019).
        assert (7205759403792794 * Zpos pd < 2 ^ 104); [|subst v; nia].
        change (2 ^ 104) with 20282409603651670423947251286016. lia.
      + apply Z.divide_factor_r.
      + subst v. rewrite E70. nia. }
  destruct d as [|pd|pd]; [congruence| |]; cbn [sf_of_int Z.abs Z.sgn] in *.
  - destruct (Hgen false pd Hd) as (v' & F & S & B). exists v'.
    split; [exact F|]. split; [rewrite S; cbn [cond_Zopp]; lia|exact B].
  - destruct (Hgen true pd Hd) as (v' & F & S & B). exists v'.
    split; [exact F|]. split; [rewrite S; cbn [cond_Zopp]; lia|exact B].
Qed.

Lemma smooth_axis_step p t :
  - 2 ^ 51 <= p <= 2 ^ 51 -> 0 <= t <= 2 ^ 51 ->
  exists q, Main.smooth_axis p t = Ok q /\ step_toward p t q.
Proof.
  intros Hp Ht.
  assert (C51 : 2 ^ 51 = 2251799813685248) by reflexivity.
  assert (C52 : 2 ^ 52 = 4503599627370496) by reflexivity.
  assert (C53 : 2 ^ 53 = 9007199254740992) by reflexivity.
  destruct (Z.eq_dec t p) as [->|Hne].
  - exists p. split; [apply smooth_axis_fixed; lia|]. unfold step_toward. lia.
  - destruct (fifth_scaled (t - p) ltac:(lia) ltac:(lia))
      as (v' & Fm & Sm & (Lv & Uv) & L5).
    unfold Main.smooth_axis.
    set (m := (0.2 * float_of_int (t - p))%float) in *.
    assert (P74 : 0 < 2 ^ 1074) by (apply Z.pow_pos_nonneg; lia).
    assert (E70 : 2 ^ 1074 = 16 * 2 ^ 1070)
      by (change 16 with (2 ^ 4); rewrite <- Z.pow_add_r by lia; reflexivity).
    assert (P70 : 0 < 2 ^ 1070) by (apply Z.pow_pos_nonneg; lia).
    destruct (sf_of_int_spec p ltac:(lia)) as (_ & Vp & _).
    pose proof (scaled_sf_of_int p ltac:(lia)) as Sp.
    assert (B1900 : 2 ^ 53 * 2 ^ 1074 < 2 ^ 1900)
      by (rewrite <- Z.pow_add_r by lia; apply Z.pow_lt_mono_r; lia).
    destruct (SFadd_near (sf_of_int p) (Prim2SF m) Vp (Prim2SF_valid m)
                (sf_of_int_finite p) Fm) as [Fs Hn].
    { rewrite Sp, Z.abs_mul, (Z.abs_eq (2 ^ 1074)) by lia. nia. }
    { rewrite Sm, Z.abs_mul, (Z.abs_eq v') by lia.
      assert (Z.abs (Z.sgn (t - p)) <= 1) by (destruct (t - p); cbn; lia).
      assert (v' < 2 ^ 53 * 2 ^ 1074) by nia.
      pose proof (Z.abs_nonneg (Z.sgn (t - p))). nia. }
    rewrite Sp, Sm in Hn.
    rewrite <- (Prim2SF_float_of_int p) in Fs, Hn by lia.
    rewrite <- add_spec in Fs, Hn.
    rewrite py_int_scaled by exact Fs.
    set (z' := scaled (Prim2SF (float_of_int p + m))) in *.
    eexists. split; [reflexivity|].
    destruct (Z_lt_le_dec p t) as [Hlt|Hge].
    + assert (Hs : Z.sgn (t - p) = 1) by (apply Z.sgn_pos; lia).
      rewrite Hs, Z.mul_1_l in Hn. rewrite Z.abs_eq in Uv, L5 by lia.
      set (z := p * 2 ^ 1074 + v') in *.
      assert (Hz : p * 2 ^ 1074 <= z <= t * 2 ^ 1074) by (subst z; nia).
      assert (Hu : ulp_exp z <= 1074).
      { apply ulp_exp_le; [lia|]. rewrite (Z.pow_add_r 2 1074 53) by lia. nia. }
      pose proof (near_ge z z' (p * 2 ^ 1074) 1074 Hn Hu
                    ltac:(apply Z.divide_factor_r) ltac:(lia)) as Lz.
      pose proof (near_le z z' (t * 2 ^ 1074) 1074 Hn Hu
                    ltac:(apply Z.divide_factor_r) ltac:(lia)) as Uz.
      pose proof (quot_bounds p t z' ltac:(lia)) as Hq.
      unfold step_toward. split; [intros _; exact Hq|]. split; [|lia].
      intros H5. specialize (L5 ltac:(lia)).
      pose proof (near_ge z z' ((p + 1) * 2 ^ 1074) 1074 Hn Hu
                    ltac:(apply Z.divide_factor_r) ltac:(subst z; nia)) as Lz1.
      pose proof (quot_bounds (p + 1) t z' ltac:(lia)). lia.
    + assert (Hs : Z.sgn (t - p) = -1) by (apply Z.sgn_neg; lia).
      rewrite Hs in Hn. rewrite Z.abs_neq in Uv by lia.
      set (z := p * 2 ^ 1074 + -1 * v') in *.
      assert (Hz : t * 2 ^ 1074 <= z <= p * 2 ^ 1074 - 3 * 2 ^ 1070)
        by (subst z; nia).
      assert (Hu : ulp_exp z <= 1072).
      { apply ulp_exp_le; [lia|]. rewrite Z.abs_eq by nia.
        change (2 ^ (1072 + 53)) with (2 ^ 51 * 2 ^ 1074). nia. }
      pose proof (near_ge z z' (t * 2 ^ 1074) 1074 Hn ltac:(lia)
                    ltac:(apply Z.divide_factor_r) ltac:(lia)) as Lz.
      pose proof (near_half z z' 1072 Hn Hu) as Hh.
      change (2 ^ 1072) with (4 * 2 ^ 1070) in Hh.
      assert (Uz : z' < p * 2 ^ 1074) by lia.
      pose proof (quot_bounds t p z' ltac:(lia)) as Hq.
      pose proof (quot_below p z' ltac:(nia)) as Hb.
      unfold step_toward. lia.
Qed.

Lemma step_between p t q : step_toward p t q -> between p t q.
Proof. unfold step_toward, between. lia. Qed.

Lemma smooth_run_between n : forall p t,
  - 2 ^ 51 <= p <= 2 ^ 51 -> 0 <= t <= 2 ^ 51 ->
  exists q, smooth_run n p t = Ok q /\ between p t q.
Proof.
  induction n as [|n IH]; intros p t Hp Ht.
  - exists p. split; [reflexivity|]. unfold between. lia.
  - destruct (smooth_axis_step p t Hp Ht) as (q1 & H1 & S1).
    apply step_between in S1.
    destruct (IH q1 t ltac:(unfold between in S1; lia) Ht) as (q & Hq & B).
    exists q. cbn [smooth_run]. rewrite H1. split; [exact Hq|].
    unfold between in *. lia.
Qed.

(** From some tick on the position no longer changes: it is the target when
    the start is at or above it, and at most 4 below the target
    otherwise. *)
Lemma smooth_run_settles t :
  0 <= t <= 2 ^ 51 ->
  forall (k : nat) (p : Z),
    Z.abs (t - p) <= Z.of_nat k -> - 2 ^ 51 <= p <= 2 ^ 51 ->
    exists (N : nat) (q : Z),
      (forall n, (N <= n)%nat -> smooth_run n p t = Ok q)
      /\ (t <= p -> q = t)
      /\ (p <= t -> p <= q /\ t - 4 <= q <= t).
Proof.
  intros Ht. induction k as [|k IH]; intros p Hk Hp.
  - assert (p = t) by lia. subst p. exists 0%nat, t.
    split; [|lia]. intros n _. apply smooth_run_fixed.
    apply smooth_axis_fixed. assert (2 ^ 51 < 2 ^ 53) by (cbv; reflexivity). lia.
  - destruct (smooth_axis_step p t Hp Ht) as (q1 & H1 & S1).
    unfold step_toward in S1.
    destruct (Z.eq_dec q1 p) as [->|Hmove].
    + exists 0%nat, p.
      split; [intros n _; apply smooth_run_fixed; exact H1|lia].
    + destruct (IH q1 ltac:(lia) ltac:(lia)) as (N & q & Hrun & Habove & Hbelow).
      exists (S N), q. split; [|lia].
      intros [|n] Hn; [lia|]. cbn [smooth_run]. rewrite H1. cbn [bind].
      apply Hrun. lia.
Qed.

End SmoothStep.

Module SmoothClaims.
Import SmoothCheck SmoothSpec SmoothStep.

(** C8 (as amended).  With the projected target held at [t], a screen
    coordinate that the clamp keeps at or above 0, and coordinates of at
    most 2^51 in magnitude, every tick returns a position between the
    previous one and the target: the position moves toward the target,
    weakly, and never passes it.  A position equal to the target stays.
    From some tick on the position is constant: it is the target when the
    start is at or above the target, and it is at most 4 pixels below the
    target when the start is below it. *)
Theorem smoothing_approaches_target :
  forall p t : Z,
    - 2 ^ 51 <= p <= 2 ^ 51 -> 0 <= t <= 2 ^ 51 ->
    (forall n : nat, exists q q',
        smooth_run n p t = Ok q /\ smooth_run (S n) p t = Ok q'
        /\ between p t q /\ between q t q')
    /\ smooth_axis t t = Ok t
    /\ exists (N : nat) (q : Z),
         (forall n, (N <= n)%nat -> smooth_run n p t = Ok q)
         /\ (t <= p -> q = t)
         /\ (p <= t -> p <= q /\ t - 4 <= q <= t).
Proof.
  intros p t Hp Ht. split; [|split].
  - intros n. destruct (smooth_run_between n p t Hp Ht) as (q & Hq & B).
    assert (Hq' : - 2 ^ 51 <= q <= 2 ^ 51) by (unfold between in B; lia).
    destruct (smooth_axis_step q t Hq' Ht) as (q' & H1 & S1).
    exists q, q'. rewrite smooth_run_snoc, Hq. cbn [bind].
    repeat split; try assumption. apply step_between. exact S1.
  - apply smooth_axis_fixed. assert (2 ^ 51 < 2 ^ 53) by (cbv; reflexivity). lia.
  - apply (smooth_run_settles t Ht (Z.to_nat (Z.abs (t - p))) p); lia.
Qed.

(** C8, witness: from 0 toward 100. *)
Lemma smoothing_approaches_target_witness :
  (forall n : nat, exists q q',
      smooth_run n 0 100 = Ok q /\ smooth_run (S n) 0 100 = Ok q'
      /\ between 0 100 q /\ between q 100 q')
  /\ smooth_axis 100 100 = Ok 100
  /\ exists (N : nat) (q : Z),
       (forall n, (N <= n)%nat -> smooth_run n 0 100 = Ok q)
       /\ (100 <= 0 -> q = 100)
       /\ (0 <= 100 -> 0 <= q /\ 100 - 4 <= q <= 100).
Proof. apply (smoothing_approaches_target 0 100); cbv; split; discriminate. Defined.

(** C8, counterexample: with the target held at 100 the position 96 is
    returned again and again; started at 0 the position is 96 after 200
    ticks, and not the target.  Above 2^51 the doubles are half a pixel
    apart or more: from 2^51 + 1 the step toward the target 2^51 returns
    2^51 + 1, and the position stays above the target. *)
Lemma smoothing_stalls_below_target :
  smooth_axis 96 100 = Ok 96
  /\ smooth_run 200 0 100 = Ok 96
  /\ smooth_run 20 0 100 = Ok 96
  /\ smooth_axis 0 4 = Ok 0
  /\ smooth_axis 2251799813685249 2251799813685248 = Ok 2251799813685249
  /\ smooth_run 20 2251799813685249 2251799813685248 = Ok 2251799813685249.
Proof. repeat split; vm_compute; reflexivity. Qed.

End SmoothClaims.

(** ** Buttons, screens and the pointer *)

Module WindowFacts.
Import DwellSpec MappingSpec ClickFacts SmoothCheck SmoothSpec SmoothStep Interface.

Lemma on_timeout_inv inv cal w r w' eff :
  on_timeout inv cal w r = Ok (w', eff) ->
  check_gaze inv cal (gaze_state w)
    {| offsets := read_offsets r; screen := read_screen r;
       buttons := self_buttons w; now := read_now r |}
  = Ok (gaze_state w', eff)
  /\ current_widget w' = current_widget w
  /\ self_buttons w' = self_buttons w.
Proof.
  unfold on_timeout.
  destruct (check_gaze _ _ _ _) as [[st e]|err]; cbn [bind]; [|discriminate].
  intros [= <- <-]. auto.
Qed.

Lemma on_target_member btns i pt :
  on_target btns i pt -> exists b, In b btns /\ btn_id b = i.
Proof.
  intros H. destruct (on_target_hit _ _ _ H) as (b & Hb & Hi).
  exists b. split; [|exact Hi]. unfold hit in Hb.
  apply find_some in Hb. apply Hb.
Qed.

Lemma step_on_screen W p t q :
  0 <= p <= W - 1 -> 0 <= t <= W - 1 -> W <= 8192 ->
  smooth_axis p t = Ok q -> 0 <= q <= W - 1.
Proof.
  intros Hp Ht HW Hq.
  assert (H51 : 8192 < 2 ^ 51) by (cbv; reflexivity).
  destruct (smooth_axis_step p t ltac:(lia) ltac:(lia)) as (q' & Hq' & Hs).
  assert (q' = q) by congruence. subst q'.
  destruct (step_between _ _ _ Hs) as [B|B]; lia.
Qed.

Lemma check_gaze_on_screen inv cal st st' tk eff W H :
  screen tk = (W, H) -> 1 <= W <= 8192 -> 1 <= H <= 8192 ->
  on_screen W H (prev_cursor_pos st) ->
  check_gaze inv cal st tk = Ok (st', eff) ->
  on_screen W H (moved_to eff) /\ on_screen W H (prev_cursor_pos st').
Proof.
  intros Hs HW HH [Hx Hy] Hc.
  destruct (check_gaze_ok inv cal st st' tk eff Hc)
    as (sx & sy & Hp & _ & Hsx & Hsy & Hprev).
  rewrite Hs in Hp. cbn [fst snd] in Hp.
  assert (Hb : 0 <= sx <= W - 1 /\ 0 <= sy <= H - 1).
  { unfold project in Hp.
    destruct (calibration_model cal W H) as [m|]; cbn [bind] in Hp;
      [|discriminate].
    eapply project_with_bounds; [| |exact Hp]; lia. }
  destruct Hb as [Bx By].
  assert (Hm : on_screen W H (moved_to eff)).
  { split.
    - eapply (step_on_screen W); [exact Hx|exact Bx|lia|exact Hsx].
    - eapply (step_on_screen H); [exact Hy|exact By|lia|exact Hsy]. }
  split; [exact Hm|]. rewrite Hprev. exact Hm.
Qed.

End WindowFacts.

Module WindowClaims.
Import DwellSpec MappingSpec ClickFacts Interface WindowFacts.

(** X6.  The rectangle a button is tested with is the rectangle of its size
    at its global position: for a geometry of non-negative width and
    height, a point is inside exactly when it lies from the global top-left
    corner to that corner plus the width and the height less one, whatever
    the position of the geometry within its parent. *)
Theorem button_hit_area :
  forall (btn : Button) (x y : Z),
    sized (btn_geometry btn) ->
    contains (btn_rect btn) (x, y) = true <->
    fst (btn_global btn) <= x
      <= fst (btn_global btn) + (x2 (btn_geometry btn) - x1 (btn_geometry btn))
    /\ snd (btn_global btn) <= y
      <= snd (btn_global btn) + (y2 (btn_geometry btn) - y1 (btn_geometry btn)).
Proof.
  intros [id [gx gy] [a1 b1 a2 b2]] x y [Hw Hh].
  cbn [btn_geometry btn_global x1 x2 y1 y2 fst snd] in *.
  unfold contains, btn_rect, moveTopLeft.
  cbn [btn_geometry btn_global x1 x2 y1 y2 fst snd].
  destruct (Z.ltb_spec (a2 + (gx - a1)) (gx - 1)); [lia|].
  destruct (Z.ltb_spec (b2 + (gy - b1)) (gy - 1)); [lia|].
  rewrite andb_true_iff, !negb_true_iff, !orb_false_iff, !Z.ltb_ge. lia.
Qed.

(** X7.  [switch_screen] changes the buttons and leaves the dwell state as
    it is.  On the tick after it, and after [show_final_message], a button
    is clicked only if it is a button of the new screen and was the hovered
    button before the switch; when the new screen has no [buttons]
    attribute the tick clicks nothing and leaves nothing hovered. *)
Theorem tick_after_switch_screen :
  forall (inv : Z -> bool) (cal : calibration) (w w' : MainInterface)
         (s : Screen) (r : Reading) (eff : Effects),
    on_timeout inv cal (switch_screen w s) r = Ok (w', eff) ->
    current_widget w' = screen_id s
    /\ (forall i, clicked eff = Some i ->
          hovered_button (dwell (gaze_state w)) = Some i
          /\ exists btns b,
               screen_buttons s = Some btns /\ In b btns /\ btn_id b = i)
    /\ (screen_buttons s = None ->
          clicked eff = None /\ dwell (gaze_state w') = idle)
    /\ (forall message,
          s = final_message_screen w ->
          on_timeout inv cal (show_final_message w message) r
          = Ok ({| current_widget := current_widget w';
                   self_buttons := self_buttons w';
                   final_message_screen := final_message_screen w';
                   final_message := Some message;
                   gaze_state := gaze_state w' |}, eff)).
Proof.
  intros inv cal w w' s r eff Ht.
  pose proof Ht as Ht0.
  apply on_timeout_inv in Ht. destruct Ht as (Hc & Hw & Hb).
  cbn [switch_screen current_widget self_buttons gaze_state] in Hc, Hw, Hb.
  destruct (check_gaze_ok inv cal _ _ _ _ Hc)
    as (sx & sy & Hp & Hscan & _).
  cbn [buttons now] in Hscan.
  split; [exact Hw|]. split; [|split].
  - intros i Hk.
    assert (Hcl : snd (scan_buttons inv
                         match screen_buttons s with
                         | Some btns => btns
                         | None => []
                         end (sx, sy) (read_now r) (dwell (gaze_state w)))
                  = Some i) by (rewrite Hscan; exact Hk).
    apply scan_click in Hcl. destruct Hcl as (Hon & Hh & _).
    split; [exact Hh|].
    destruct (on_target_member _ _ _ Hon) as (b & Hin & Hi).
    destruct (screen_buttons s) as [btns|]; [|destruct Hin].
    exists btns, b. auto.
  - intros Hn. rewrite Hn in Hscan. cbn [scan_buttons] in Hscan.
    injection Hscan as Hd Hk. split; [symmetry; exact Hk|symmetry; exact Hd].
  - intros message ->. unfold on_timeout in Ht0 |- *.
    cbn [show_final_message switch_screen current_widget self_buttons
         gaze_state final_message_screen final_message] in Ht0 |- *.
    destruct (check_gaze _ _ _ _) as [[st e]|err]; cbn [bind] in Ht0 |- *;
      [|discriminate].
    injection Ht0 as <- <-. reflexivity.
Qed.

(** X8.  The pointer stays on the screen.  Over any run of ticks on a
    screen of at most 8192 by 8192 pixels, from a cursor position on the
    screen, every position [pyautogui.moveTo] is given and the position
    kept for the next tick lie within [0, screen_w - 1] x
    [0, screen_h - 1]. *)
Theorem pointer_stays_on_screen :
  forall (inv : Z -> bool) (cal : calibration) (W H : Z) (tks : list Tick)
         (st st' : State) (effs : list Effects),
    1 <= W <= 8192 -> 1 <= H <= 8192 ->
    Forall (fun tk => screen tk = (W, H)) tks ->
    on_screen W H (prev_cursor_pos st) ->
    run inv cal st tks = Ok (st', effs) ->
    Forall (fun e => on_screen W H (moved_to e)) effs
    /\ on_screen W H (prev_cursor_pos st').
Proof.
  intros inv cal W H tks. induction tks as [|tk r IH];
    intros st st' effs HW HH Hs Hp; cbn [run].
  - intros [= <- <-]. split; [constructor|exact Hp].
  - inversion Hs as [|? ? Htk Hr]; subst.
    destruct (check_gaze inv cal st tk) as [[st1 e1]|err] eqn:Hc; cbn [bind];
      [|discriminate].
    destruct (run inv cal st1 r) as [[st2 es]|err] eqn:Hrun; cbn [bind];
      [|discriminate].
    intros [= <- <-].
    destruct (check_gaze_on_screen inv cal st st1 tk e1 W H Htk HW HH Hp Hc)
      as [Hm Hp1].
    destruct (IH st1 st2 es HW HH Hr Hp1 Hrun) as [Fe Hp2].
    split; [constructor; assumption|exact Hp2].
Qed.

End WindowClaims.

(** ** The heat map and the summary of the evaluation *)

Module ReportFacts.
Import Calib SFFacts FloatFacts FloatOrder MappingSpec AccuracyFacts.

Lemma percentages_ordered_9 :
  forallb percentages_ordered (seq 1 9) = true.
Proof. vm_compute. reflexivity. Qed.

Lemma percentage_monotone n c1 c2 :
  (1 <= n <= 9)%nat -> (c1 <= c2 <= n)%nat ->
  (0 <=? percentage c1 n)%float = true
  /\ (percentage c1 n <=? percentage c2 n)%float = true
  /\ (percentage c2 n <=? 100)%float = true.
Proof.
  intros Hn Hc. pose proof percentages_ordered_9 as H.
  rewrite forallb_forall in H.
  specialize (H n ltac:(apply in_seq; lia)). unfold percentages_ordered in H.
  rewrite forallb_forall in H. specialize (H c1 ltac:(apply in_seq; lia)).
  rewrite forallb_forall in H. specialize (H c2 ltac:(apply in_seq; lia)).
  apply andb_prop in H as [H H3]. apply andb_prop in H as [H1 H2]. auto.
Qed.

Lemma heat_clamp extent v :
  1 <= extent -> Z.min (extent - 1) (Z.max 0 v) = clamp extent v.
Proof. unfold clamp. lia. Qed.

End ReportFacts.

Module ReportClaims.
Import Calib MappingSpec AccuracyFacts ReportFacts.

(** X10.  The cell of the heat map that a prediction increments.  On a
    screen of at least one pixel each way, a prediction whose coordinates
    are finite doubles increments the cell whose row and column are the
    truncated coordinates clamped into the array, row from [y] and column
    from [x]; every cell that is computed lies within the [screen_h] rows
    and [screen_w] columns; a coordinate that is an infinity or a NaN
    raises from [int()]. *)
Theorem heat_cell_within_the_map :
  forall (W H : Z) (p : float * float),
    1 <= W -> 1 <= H ->
    (forall c, heat_cell W H p = Ok c ->
               0 <= fst c <= H - 1 /\ 0 <= snd c <= W - 1)
    /\ (finite (fst p) = true -> finite (snd p) = true ->
        exists x y,
          py_int (fst p) = Ok x /\ py_int (snd p) = Ok y
          /\ heat_cell W H p = Ok (clamp H y, clamp W x))
    /\ (finite (fst p) = false \/ finite (snd p) = false ->
        heat_cell W H p = Raise OverflowError
        \/ heat_cell W H p = Raise ValueError).
Proof.
  intros W H [px py] HW HH. cbn [fst snd]. unfold heat_cell. cbn [fst snd].
  split; [|split].
  - intros c.
    destruct (py_int px) as [x|]; cbn [bind]; [|discriminate].
    destruct (py_int py) as [y|]; cbn [bind]; [|discriminate].
    intros [= <-]. cbn [fst snd]. lia.
  - intros Hx Hy.
    destruct (py_int_finite _ Hx) as [x ->].
    destruct (py_int_finite _ Hy) as [y ->]. cbn [bind].
    exists x, y. rewrite !heat_clamp by assumption. auto.
  - intros [Hx|Hy].
    + destruct (py_int_not_finite _ Hx) as [-> | ->]; cbn [bind]; auto.
    + destruct (finite px) eqn:Hx.
      * destruct (py_int_finite _ Hx) as [x ->]. cbn [bind].
        destruct (py_int_not_finite _ Hy) as [-> | ->]; cbn [bind]; auto.
      * destruct (py_int_not_finite _ Hx) as [-> | ->]; cbn [bind]; auto.
Qed.

(** X11.  The accuracy percentages of the summary.  For one to nine
    (prediction, ground truth) pairs, whatever their distance errors, the
    summary lists the thresholds 20, 40, 60, 80, 100 and one percentage for
    each; after the rounding to two decimals the percentages are still from
    0 to 100 and do not decrease from one threshold to the next. *)
Theorem summary_percentages_ordered :
  forall (acos : float -> float)
         (pairs : list ((float * float) * (float * float))),
    (1 <= length pairs <= 9)%nat ->
    accuracy_thresholds_px (summarize acos pairs) = [20; 40; 60; 80; 100]
    /\ exists a1 a2 a3 a4 a5,
         accuracy_percentages (summarize acos pairs) = [a1; a2; a3; a4; a5]
         /\ (0 <=? a1)%float = true /\ (a1 <=? a2)%float = true
         /\ (a2 <=? a3)%float = true /\ (a3 <=? a4)%float = true
         /\ (a4 <=? a5)%float = true /\ (a5 <=? 100)%float = true.
Proof.
  intros acos pairs Hn. split; [reflexivity|].
  unfold summarize, thresholds. cbn [accuracy_percentages map].
  do 5 eexists. split; [reflexivity|].
  set (es := map euclid pairs).
  assert (Hl : (1 <= length es <= 9)%nat) by (subst es; rewrite length_map; exact Hn).
  assert (Hm : forall t1 t2, (float_of_int t1 <=? float_of_int t2)%float = true ->
             (0 <=? round2 (accuracy_at es (float_of_int t1) * 100))%float = true
             /\ (round2 (accuracy_at es (float_of_int t1) * 100)
                 <=? round2 (accuracy_at es (float_of_int t2) * 100))%float = true
             /\ (round2 (accuracy_at es (float_of_int t2) * 100) <=? 100)%float
                = true).
  { intros t1 t2 Ht. apply (percentage_monotone (length es)); [exact Hl|].
    split; [apply hits_monotone; exact Ht|apply hits_le_length]. }
  destruct (Hm 20 40 ltac:(vm_compute; reflexivity)) as (H0 & H12 & _).
  destruct (Hm 40 60 ltac:(vm_compute; reflexivity)) as (_ & H23 & _).
  destruct (Hm 60 80 ltac:(vm_compute; reflexivity)) as (_ & H34 & _).
  destruct (Hm 80 100 ltac:(vm_compute; reflexivity)) as (_ & H45 & H5).
  auto 10.
Qed.

End ReportClaims.

(** ** The markers and the steps of the calibration *)

Module StepFacts.
Import Calib Steps SFExact MappingSpec.

Lemma halves_0 : halves 0 0.
Proof. left. split; [reflexivity|vm_compute; reflexivity]. Qed.

Lemma halves_half : halves 0.5 1.
Proof. right. left. split; [reflexivity|vm_compute; reflexivity]. Qed.

Lemma halves_1 : halves 1 2.
Proof. right. right. split; [reflexivity|vm_compute; reflexivity]. Qed.

(** Lines 85 and 88 for a fraction of [c] halves. *)
Lemma marker_axis_value W dot c frac :
  0 <= W < 2 ^ 52 -> 0 <= dot < 2 ^ 52 -> halves frac c ->
  marker_axis W dot frac
  = Ok (Z.max 0 (Z.min (W - dot) (Z.quot (c * W - 2 * (dot / 2)) 2))).
Proof.
  intros HW Hd Hc. unfold marker_axis.
  rewrite (py_int_frac_minus W (dot / 2) c frac); [reflexivity|lia| |exact Hc].
  split; [apply Z.div_pos; lia|]. apply Z.div_lt_upper_bound; lia.
Qed.

Lemma anchor_halves step name xf yf key :
  nth_error positions step = Some (name, (xf, yf, key)) ->
  exists cx cy, halves xf cx /\ halves yf cy.
Proof.
  unfold positions.
  do 9 (destruct step as [|step];
        [cbn [nth_error]; intros [= <- <- <- <-]; eexists; eexists; split;
         first [exact halves_0|exact halves_half|exact halves_1]|]).
  cbn [nth_error]. destruct step; discriminate.
Qed.

Lemma positions_keys_nodup : NoDup (map fst positions).
Proof.
  unfold positions. cbn [map fst].
  repeat (constructor;
          [cbn [In]; intros H;
           repeat (destruct H as [H|H]; [discriminate H|]); exact H|]).
  constructor.
Qed.

Lemma labels_set_keys name l ls :
  map fst (labels_set name l ls) = map fst ls.
Proof.
  induction ls as [|[k l0] r IH]; cbn [labels_set map fst]; [reflexivity|].
  destruct (String.eqb_spec k name); cbn [map fst]; [reflexivity|].
  rewrite IH. reflexivity.
Qed.

Lemma labels_get_some name ls :
  In name (map fst ls) -> exists l, labels_get name ls = Ok l.
Proof.
  induction ls as [|[k l0] r IH]; cbn [labels_get map fst In]; [intros []|].
  intros H. destruct (String.eqb_spec k name); [eauto|].
  destruct H as [H|H]; [contradiction|]. apply IH. exact H.
Qed.

Lemma labels_set_in name l ls n l' :
  NoDup (map fst ls) -> In (n, l') (labels_set name l ls) ->
  (n = name /\ l' = l) \/ (n <> name /\ In (n, l') ls).
Proof.
  induction ls as [|[k l0] r IH]; cbn [labels_set map fst]; [intros _ []|].
  intros Hnd. inversion Hnd as [|? ? Hk Hr]; subst.
  destruct (String.eqb_spec k name) as [->|Hne]; cbn [In].
  - intros [[= <- <-]|Hin]; [left; auto|]. right.
    split; [|right; exact Hin].
    intros ->. apply Hk. apply (in_map fst) in Hin. exact Hin.
  - intros [[= <- <-]|Hin]; [right; split; [exact Hne|left; reflexivity]|].
    destruct (IH Hr Hin) as [?|[? ?]]; [left; assumption|right; auto].
Qed.

Lemma filter_none {A : Type} (f : A -> bool) l :
  (forall x, In x l -> f x = false) -> filter f l = [].
Proof.
  induction l as [|a r IH]; cbn [filter]; [reflexivity|]. intros H.
  rewrite (H a (or_introl eq_refl)). apply IH. intros x Hx. apply H.
  right. exact Hx.
Qed.

Lemma shown_at_most_one ls n :
  NoDup (map fst ls) ->
  (forall name l, In (name, l) ls -> label_visible l = true -> name = n) ->
  (length (shown ls) <= 1)%nat.
Proof.
  unfold shown. induction ls as [|[k l0] r IH]; cbn [filter map fst snd];
    [intros; cbn; lia|].
  intros Hnd Hv. inversion Hnd as [|? ? Hk Hr]; subst.
  destruct (label_visible l0) eqn:E.
  - assert (k = n) by (apply (Hv k l0); [left; reflexivity|exact E]). subst k.
    rewrite filter_none; [cbn; lia|].
    intros [name l] Hin. cbn [snd].
    destruct (label_visible l) eqn:El; [|reflexivity].
    assert (name = n) by (apply (Hv name l); [right; exact Hin|exact El]).
    subst name. exfalso. apply Hk. apply (in_map fst) in Hin. exact Hin.
  - apply IH; [exact Hr|]. intros name l Hin. apply Hv. right. exact Hin.
Qed.

Lemma firstn_succ {A : Type} (l : list A) n x :
  nth_error l n = Some x -> firstn (S n) l = firstn n l ++ [x].
Proof.
  revert l. induction n as [|n IH]; intros [|a r]; cbn [nth_error];
    try discriminate.
  - intros [= ->]. reflexivity.
  - intros H. cbn [firstn app]. f_equal. apply IH. exact H.
Qed.

Lemma calibrated_app a b : calibrated (a ++ b) = calibrated a ++ calibrated b.
Proof. unfold calibrated. apply flat_map_app. Qed.

Lemma saved_after_all_nil : saved_after_all [].
Proof. intros a1 cal a2 H. destruct a1; discriminate. Qed.

(** Actions without a [json.dump] add no place to check. *)
Lemma saved_after_all_app acts a :
  saved_after_all acts -> forallb (fun x => negb (is_dump x)) a = true ->
  saved_after_all (acts ++ a).
Proof.
  intros Hs Ha a1 cal a2 E.
  apply app_eq_app in E. destruct E as [l [[E1 E2]|[E1 E2]]].
  - destruct l as [|x l].
    + cbn [app] in E2. subst a. cbn in Ha. discriminate.
    + cbn [app] in E2. injection E2 as <- ->.
      apply (Hs a1 cal l). rewrite E1. reflexivity.
  - subst a. rewrite forallb_app in Ha. apply andb_prop in Ha as [_ Ha].
    cbn in Ha. discriminate.
Qed.

Section WithTracker.

Variable Tracker : Type.
Variable tracker_call : TrackerCall -> Tracker -> Tracker.
Variable calibration_points : Tracker -> calibration.

#[local] Abbreviation show_next := (show_next_marker tracker_call calibration_points).
#[local] Abbreviation key_press := (keyPressEvent tracker_call calibration_points).
#[local] Abbreviation handle1 := (handle tracker_call calibration_points).
#[local] Abbreviation handle_evs := (handle_all tracker_call calibration_points).
#[local] Abbreviation records :=
  (records_points Tracker tracker_call calibration_points).

Lemma init_well_formed (t : Tracker) W H : well_formed (fst (init t W H)).
Proof.
  unfold well_formed, init. cbn [fst labels current_step].
  split; [|split].
  - unfold init_ui. rewrite map_map. reflexivity.
  - apply Nat.le_0_l.
  - intros name l Hin Hv. unfold init_ui in Hin. apply in_map_iff in Hin.
    destruct Hin as (p & [= _ <-] & _). discriminate.
Qed.

Lemma well_formed_nodup (w : CalibrationWindow Tracker) :
  well_formed w -> NoDup (map fst (labels w)).
Proof. intros (Hk & _). rewrite Hk. apply positions_keys_nodup. Qed.

Lemma awaited_label (w : CalibrationWindow Tracker) name v :
  well_formed w -> nth_error positions (current_step w) = Some (name, v) ->
  exists l, labels_get name (labels w) = Ok l.
Proof.
  intros (Hk & _) E. apply labels_get_some. rewrite Hk.
  apply nth_error_In in E. apply (in_map fst) in E. exact E.
Qed.

Lemma show_next_well_formed w w' a :
  well_formed w -> show_next w = Ok (w', a) ->
  well_formed w'
  /\ current_step w' = current_step w
  /\ width w' = width w /\ height w' = height w.
Proof.
  intros Hw. pose proof (well_formed_nodup w Hw) as Hnd.
  destruct Hw as (Hk & Hs & Hv). unfold show_next_marker.
  destruct (nth_error positions (current_step w))
    as [[name [[xf yf] key]]|] eqn:E.
  - destruct (labels_get name (labels w)) as [l0|]; cbn [bind]; [|discriminate].
    destruct (marker_axis (width w) DOT xf) as [x|]; cbn [bind]; [|discriminate].
    destruct (marker_axis (height w) DOT yf) as [y|]; cbn [bind];
      [|discriminate].
    intros [= <- <-]. unfold well_formed.
      cbn [current_step labels width height].
    repeat split; auto.
    + rewrite labels_set_keys. exact Hk.
    + intros n l' Hin Hvis.
      destruct (labels_set_in _ _ _ _ _ Hnd Hin) as [[-> _]|[_ Hold]].
      * unfold awaited. rewrite E. reflexivity.
      * apply (Hv n l' Hold Hvis).
  - intros [= <- <-]. unfold well_formed.
      cbn [current_step labels width height].
    repeat split; auto.
Qed.

Lemma key_press_well_formed w w' a key_char :
  well_formed w -> key_press w key_char = Ok (w', a) ->
  well_formed w' /\ width w' = width w /\ height w' = height w.
Proof.
  intros Hw. pose proof (well_formed_nodup w Hw) as Hnd.
  destruct Hw as (Hk & Hs & Hv). unfold keyPressEvent.
  destruct (nth_error positions (current_step w))
    as [[name [[xf yf] key]]|] eqn:E.
  - destruct (String.eqb key_char key).
    + destruct (labels_get name (labels w)) as [l0|]; cbn [bind];
        [|discriminate].
      destruct (lookup name _) as [row|]; cbn [bind]; [|discriminate].
      destruct (skipn 2 row) as [|c1 [|c2 [|c3 [|c4 r]]]]; try discriminate.
      intros [= <- <-]. unfold well_formed.
      cbn [current_step labels width height].
      repeat split; auto.
      * rewrite labels_set_keys. exact Hk.
      * assert (current_step w < length positions)%nat
          by (apply nth_error_Some; congruence). lia.
      * intros n l' Hin Hvis.
        destruct (labels_set_in _ _ _ _ _ Hnd Hin) as [[_ ->]|[Hne Hold]].
        -- discriminate Hvis.
        -- pose proof (Hv n l' Hold Hvis) as Ha. unfold awaited in Ha.
           rewrite E in Ha. cbn in Ha. congruence.
    + intros [= <- <-]. repeat split; auto.
  - intros [= <- <-]. repeat split; auto.
Qed.

Lemma handle_well_formed w w' a ev :
  well_formed w -> handle1 w ev = Ok (w', a) ->
  well_formed w' /\ width w' = width w /\ height w' = height w.
Proof.
  intros Hw. destruct ev as [k|]; cbn [handle].
  - apply key_press_well_formed. exact Hw.
  - intros H. destruct (show_next_well_formed _ _ _ Hw H) as (? & ? & ? & ?).
    auto.
Qed.

Lemma handle_all_well_formed evs : forall w w' acts,
  well_formed w -> handle_evs w evs = Ok (w', acts) ->
  well_formed w' /\ width w' = width w /\ height w' = height w.
Proof.
  induction evs as [|ev r IH]; intros w w' acts Hw; cbn [handle_all].
  - intros [= <- <-]. auto.
  - destruct (handle1 w ev) as [[w1 a]|] eqn:E; cbn [bind]; [|discriminate].
    destruct (handle_evs w1 r) as [[w2 more]|] eqn:E2; cbn [bind];
      [|discriminate].
    intros [= <- <-].
    destruct (handle_well_formed _ _ _ _ Hw E) as (Hw1 & Hx & Hy).
    destruct (IH _ _ _ Hw1 E2) as (Hw2 & Hx2 & Hy2).
    split; [exact Hw2|]. split; congruence.
Qed.

(** What one event adds to the actions. *)
Lemma handle_trace w w' a ev acts :
  well_formed w -> handle1 w ev = Ok (w', a) ->
  calibrated acts = firstn (current_step w) anchor_keys ->
  saved_after_all acts ->
  calibrated (acts ++ a) = firstn (current_step w') anchor_keys
  /\ saved_after_all (acts ++ a).
Proof.
  intros (Hk & Hs & Hv) Hh Hc Hd.
  assert (Hnil : forall w0 : CalibrationWindow Tracker,
             current_step w0 = current_step w ->
             calibrated (acts ++ []) = firstn (current_step w0) anchor_keys
             /\ saved_after_all (acts ++ [])).
  { intros w0 ->. rewrite app_nil_r. auto. }
  destruct ev as [key_char|]; cbn [handle] in Hh.
  - unfold keyPressEvent in Hh.
    destruct (nth_error positions (current_step w))
      as [[name [[xf yf] key]]|] eqn:E.
    + destruct (String.eqb_spec key_char key) as [->|Hne].
      * destruct (labels_get name (labels w)) as [l0|]; cbn [bind] in Hh;
          [|discriminate].
        destruct (lookup name _) as [row|]; cbn [bind] in Hh; [|discriminate].
        destruct (skipn 2 row) as [|c1 [|c2 [|c3 [|c4 r]]]]; try discriminate.
        injection Hh as <- <-. cbn [current_step]. split.
        -- rewrite calibrated_app, Hc. cbn [calibrated flat_map app].
           rewrite Nat.add_1_r. symmetry. apply firstn_succ.
           unfold anchor_keys.
           rewrite (map_nth_error _ _ _ E). reflexivity.
        -- apply saved_after_all_app; [exact Hd|reflexivity].
      * injection Hh as <- <-. apply Hnil. reflexivity.
    + injection Hh as <- <-. apply Hnil. reflexivity.
  - unfold show_next_marker in Hh.
    destruct (nth_error positions (current_step w))
      as [[name [[xf yf] key]]|] eqn:E.
    + destruct (labels_get name (labels w)) as [l0|]; cbn [bind] in Hh;
        [|discriminate].
      destruct (marker_axis (width w) DOT xf) as [x|]; cbn [bind] in Hh;
        [|discriminate].
      destruct (marker_axis (height w) DOT yf) as [y|]; cbn [bind] in Hh;
        [|discriminate].
      injection Hh as <- <-. apply Hnil. reflexivity.
    + injection Hh as <- <-. cbn [current_step].
      apply nth_error_None in E.
      assert (Hall : calibrated acts = anchor_keys).
      { rewrite Hc. apply firstn_all2. unfold anchor_keys.
        rewrite length_map. exact E. }
      split.
      * rewrite calibrated_app, Hc. cbn [calibrated flat_map app].
        rewrite app_nil_r. reflexivity.
      * intros a1 cal a2 Ea.
        apply app_eq_app in Ea. destruct Ea as [l [[E1 E2]|[E1 E2]]].
        -- destruct l as [|x l].
           ++ cbn [app] in E2. discriminate E2.
           ++ cbn [app] in E2. injection E2 as <- ->.
              apply (Hd a1 cal l). rewrite E1. reflexivity.
        -- destruct l as [|x1 [|x2 l]]; cbn [app] in E2; try discriminate E2.
           ++ injection E2 as <- _ _. rewrite E1, calibrated_app, Hall.
              cbn [calibrated flat_map app]. apply app_nil_r.
           ++ injection E2 as _ _ E2.
              destruct l as [|x3 [|x4 [|x5 l]]]; cbn [app] in E2;
                try discriminate E2.
              destruct l; discriminate E2.
Qed.

Lemma handle_all_trace evs : forall w w' more acts,
  well_formed w -> handle_evs w evs = Ok (w', more) ->
  calibrated acts = firstn (current_step w) anchor_keys ->
  saved_after_all acts ->
  calibrated (acts ++ more) = firstn (current_step w') anchor_keys
  /\ saved_after_all (acts ++ more).
Proof.
  induction evs as [|ev r IH]; intros w w' more acts Hw; cbn [handle_all].
  - intros [= <- <-] Hc Hd. rewrite app_nil_r. auto.
  - destruct (handle1 w ev) as [[w1 a]|] eqn:E; cbn [bind]; [|discriminate].
    destruct (handle_evs w1 r) as [[w2 more2]|] eqn:E2; cbn [bind];
      [|discriminate].
    intros [= <- <-] Hc Hd.
    destruct (handle_trace _ _ _ _ _ Hw E Hc Hd) as [Hc1 Hd1].
    destruct (handle_well_formed _ _ _ _ Hw E) as (Hw1 & _).
    rewrite app_assoc. apply (IH w1 w2 more2 (acts ++ a)); assumption.
Qed.

Lemma key_press_accepts w name xf yf key :
  records -> well_formed w ->
  nth_error positions (current_step w) = Some (name, (xf, yf, key)) ->
  exists w' a,
    key_press w key = Ok (w', a)
    /\ current_step w' = S (current_step w).
Proof.
  intros Hr Hw E. unfold keyPressEvent. rewrite E, String.eqb_refl.
  destruct (awaited_label w name _ Hw E) as [l0 ->]. cbn [bind].
  destruct (Hr (gaze_tracker w) name key) as (row & -> & Hl). cbn [bind].
  destruct row as [|r1 [|r2 [|r3 [|r4 [|r5 [|r6 r]]]]]]; try discriminate Hl.
  cbn [skipn]. eexists. eexists. split; [reflexivity|].
  cbn [current_step]. lia.
Qed.

Lemma key_press_ignores w key_char :
  (forall name xf yf key,
      nth_error positions (current_step w) = Some (name, (xf, yf, key)) ->
      key_char <> key) ->
  key_press w key_char = Ok (w, []).
Proof.
  intros H. unfold keyPressEvent.
  destruct (nth_error positions (current_step w))
    as [[name [[xf yf] key]]|] eqn:E; [|reflexivity].
  destruct (String.eqb_spec key_char key) as [Heq|]; [|reflexivity].
  exfalso. apply (H name xf yf key eq_refl). exact Heq.
Qed.

Lemma handle_returns w ev :
  records -> well_formed w ->
  0 <= width w < 2 ^ 52 -> 0 <= height w < 2 ^ 52 ->
  exists w' a, handle1 w ev = Ok (w', a).
Proof.
  intros Hr Hw HW HH. destruct ev as [key_char|]; cbn [handle].
  - destruct (nth_error positions (current_step w))
      as [[name [[xf yf] key]]|] eqn:E.
    + destruct (String.eqb_spec key_char key) as [->|Hne].
      * destruct (key_press_accepts w name xf yf key Hr Hw E) as (w' & a & H & _).
        eauto.
      * rewrite key_press_ignores; [eauto|].
        intros n x y k E'. rewrite E in E'. injection E' as _ _ _ <-. exact Hne.
    + rewrite key_press_ignores; [eauto|]. intros n x y k E'. congruence.
  - unfold show_next_marker.
    destruct (nth_error positions (current_step w))
      as [[name [[xf yf] key]]|] eqn:E; [|eauto].
    destruct (awaited_label w name _ Hw E) as [l0 ->]. cbn [bind].
    destruct (anchor_halves _ _ _ _ _ E) as (cx & cy & Hx & Hy).
    rewrite (marker_axis_value (width w) DOT cx xf HW ltac:(cbv; split; congruence) Hx).
    rewrite (marker_axis_value (height w) DOT cy yf HH ltac:(cbv; split; congruence) Hy).
    cbn [bind]. eauto.
Qed.

Lemma handle_all_returns evs : forall w,
  records -> well_formed w ->
  0 <= width w < 2 ^ 52 -> 0 <= height w < 2 ^ 52 ->
  exists w' acts, handle_evs w evs = Ok (w', acts).
Proof.
  induction evs as [|ev r IH]; intros w Hr Hw HW HH; cbn [handle_all].
  - eauto.
  - destruct (handle_returns w ev Hr Hw HW HH) as (w1 & a & E). rewrite E.
    cbn [bind].
    destruct (handle_well_formed _ _ _ _ Hw E) as (Hw1 & Hx & Hy).
    destruct (IH w1 Hr Hw1 ltac:(rewrite Hx; exact HW) ltac:(rewrite Hy; exact HH))
      as (w2 & more & ->).
    cbn [bind]. eauto.
Qed.

End WithTracker.

End StepFacts.

Module StepClaims.
Import Calib Steps SFExact StepFacts.

(** X12.  Where the markers go.  In a window of [dot] to 2^52 - 1 pixels
    along an axis, lines 85 and 88 put a marker of [dot] pixels at 0 for
    the fraction 0, at [extent - dot] for the fraction 1, and at
    [extent // 2 - dot // 2] for the fraction 0.5, so that its centre is
    the centre of the window; every marker lies within the window. *)
Theorem markers_lie_within_the_window :
  forall extent dot : Z,
    0 <= dot <= extent -> extent < 2 ^ 52 ->
    marker_axis extent dot 0 = Ok 0
    /\ marker_axis extent dot 0.5 = Ok (extent / 2 - dot / 2)
    /\ marker_axis extent dot 1 = Ok (extent - dot)
    /\ (forall step name x_frac y_frac key,
          nth_error positions step = Some (name, (x_frac, y_frac, key)) ->
          exists x y,
            marker_axis extent dot x_frac = Ok x
            /\ marker_axis extent dot y_frac = Ok y
            /\ 0 <= x /\ x + dot <= extent /\ 0 <= y /\ y + dot <= extent).
Proof.
  intros extent dot Hd He.
  assert (V : forall c frac, halves frac c ->
            marker_axis extent dot frac
            = Ok (Z.max 0 (Z.min (extent - dot)
                             (Z.quot (c * extent - 2 * (dot / 2)) 2))))
    by (intros c frac Hc; apply marker_axis_value; (assumption || lia)).
  assert (H0 : marker_axis extent dot 0 = Ok 0).
  { rewrite (V 0 _ halves_0). f_equal.
    Z.to_euclidean_division_equations. lia. }
  assert (H1 : marker_axis extent dot 0.5 = Ok (extent / 2 - dot / 2)).
  { rewrite (V 1 _ halves_half). f_equal.
    Z.to_euclidean_division_equations. lia. }
  assert (H2 : marker_axis extent dot 1 = Ok (extent - dot)).
  { rewrite (V 2 _ halves_1). f_equal.
    Z.to_euclidean_division_equations. lia. }
  repeat split; try assumption.
  intros step name xf yf key E.
  destruct (anchor_halves _ _ _ _ _ E) as (cx & cy & Hx & Hy).
  rewrite (V cx xf Hx), (V cy yf Hy). eexists. eexists.
  split; [reflexivity|]. split; [reflexivity|]. lia.
Qed.

(** X13.  At most one marker is shown, and it is the marker of the anchor
    that is awaited.  After any sequence of key presses and
    [show_next_marker] time-outs that raises no exception, the step is at
    most the number of anchors, the window still has one label per anchor,
    every label that is shown is the label of the anchor of the current
    step, and at most one label is shown. *)
Theorem one_marker_shown :
  forall (Tracker : Type) (tracker_call : TrackerCall -> Tracker -> Tracker)
         (calibration_points : Tracker -> calibration) (tracker : Tracker)
         (W H : Z) (evs : list Event) (w : CalibrationWindow Tracker)
         (acts : list Action),
    handle_all tracker_call calibration_points (fst (init tracker W H)) evs
      = Ok (w, acts) ->
    (current_step w <= 9)%nat
    /\ map fst (labels w) = map fst positions
    /\ (forall name l,
          In (name, l) (labels w) -> label_visible l = true ->
          exists v, nth_error positions (current_step w) = Some (name, v))
    /\ (length (shown (labels w)) <= 1)%nat.
Proof.
  intros Tracker call pts tracker W H evs w acts Hrun.
  destruct (handle_all_well_formed Tracker call pts evs _ _ _
              (init_well_formed Tracker tracker W H) Hrun) as (Hw & _).
  pose proof (well_formed_nodup _ _ Hw) as Hnd.
  destruct Hw as (Hk & Hs & Hv).
  assert (Hex : forall name l,
             In (name, l) (labels w) -> label_visible l = true ->
             exists v, nth_error positions (current_step w) = Some (name, v)).
  { intros name l Hin Hvis. pose proof (Hv name l Hin Hvis) as Ha.
    unfold awaited in Ha.
    destruct (nth_error positions (current_step w)) as [[n v]|];
      [|discriminate].
    cbn in Ha. injection Ha as ->. eauto. }
  repeat split; try assumption.
  destruct (awaited (current_step w)) as [n|] eqn:Ea.
  - apply (shown_at_most_one _ n Hnd). intros name l Hin Hvis.
    pose proof (Hv name l Hin Hvis). congruence.
  - apply (shown_at_most_one _ EmptyString Hnd). intros name l Hin Hvis.
    pose proof (Hv name l Hin Hvis). congruence.
Qed.

(** X14.  The anchors are calibrated in the order of [positions], each
    once, with its own key.  After any sequence of key presses and
    time-outs that raises no exception, the calls of [calibrate_point]
    made so far are, in order, those of the first [current_step] anchors
    with their keys; and the table is written to [calibration_data.json]
    only after all nine anchors have been calibrated. *)
Theorem anchors_calibrated_in_order :
  forall (Tracker : Type) (tracker_call : TrackerCall -> Tracker -> Tracker)
         (calibration_points : Tracker -> calibration) (tracker : Tracker)
         (W H : Z) (evs : list Event) (w : CalibrationWindow Tracker)
         (acts : list Action),
    handle_all tracker_call calibration_points (fst (init tracker W H)) evs
      = Ok (w, acts) ->
    calibrated acts = firstn (current_step w) anchor_keys
    /\ (forall a1 cal a2,
          acts = a1 ++ Dump cal :: a2 -> calibrated a1 = anchor_keys).
Proof.
  intros Tracker call pts tracker W H evs w acts Hrun.
  apply (handle_all_trace Tracker call pts evs _ _ _ []
           (init_well_formed Tracker tracker W H) Hrun).
  - reflexivity.
  - apply saved_after_all_nil.
Qed.

(** X15.  The handlers do not raise and the calibration cannot get stuck.
    If the tracker keeps a record of five elements for the point it has
    just calibrated and the window is less than 2^52 pixels each way, then
    every sequence of key presses and time-outs is handled without an
    exception; in the state reached, the key of the awaited anchor is
    accepted and advances the step by one, and every other key changes
    nothing. *)
Theorem calibration_never_raises :
  forall (Tracker : Type) (tracker_call : TrackerCall -> Tracker -> Tracker)
         (calibration_points : Tracker -> calibration) (tracker : Tracker)
         (W H : Z) (evs : list Event),
    records_points Tracker tracker_call calibration_points ->
    0 <= W < 2 ^ 52 -> 0 <= H < 2 ^ 52 ->
    exists w acts,
      handle_all tracker_call calibration_points (fst (init tracker W H)) evs
        = Ok (w, acts)
      /\ (forall name x_frac y_frac key,
            nth_error positions (current_step w)
              = Some (name, (x_frac, y_frac, key)) ->
            exists w' a,
              keyPressEvent tracker_call calibration_points w key = Ok (w', a)
              /\ current_step w' = S (current_step w))
      /\ (forall key_char,
            (forall name x_frac y_frac key,
                nth_error positions (current_step w)
                  = Some (name, (x_frac, y_frac, key)) ->
                key_char <> key) ->
            keyPressEvent tracker_call calibration_points w key_char
              = Ok (w, [])).
Proof.
  intros Tracker call pts tracker W H evs Hr HW HH.
  pose proof (init_well_formed Tracker tracker W H) as Hw0.
  destruct (handle_all_returns Tracker call pts evs (fst (init tracker W H))
              Hr Hw0 HW HH) as (w & acts & Hrun).
  exists w, acts. split; [exact Hrun|].
  destruct (handle_all_well_formed Tracker call pts evs _ _ _ Hw0 Hrun)
    as (Hw & _).
  split.
  - intros name xf yf key E.
    apply (key_press_accepts Tracker call pts w name xf yf key Hr Hw E).
  - intros key_char Hne. apply key_press_ignores. exact Hne.
Qed.

End StepClaims.

(** ** The markers and the ground truth of the evaluation *)

Module GroundTruthFacts.
Import Calib Steps SFFacts FloatFacts SFOrder SmoothCheck SFExact StepFacts.

Lemma SFmul_comm x y : SF64mul x y = SF64mul y x.
Proof.
  unfold SF64mul.
  destruct x as [sx|sx| |sx mx ex], y as [sy|sy| |sy my ey]; cbn [SFmul];
    try reflexivity; try (rewrite xorb_comm; reflexivity).
  rewrite xorb_comm, Pos.mul_comm, Z.add_comm. reflexivity.
Qed.

(** Line 143: [int(frac * screen)] for a fraction of [c] halves. *)
Lemma py_int_ground_truth W c frac :
  0 <= W < 2 ^ 52 -> halves frac c ->
  py_int (frac * float_of_int W) = Ok (c * W / 2).
Proof.
  intros HW Hc.
  destruct (scaled_mul_frac W c frac ltac:(lia) Hc) as [Fx Sx].
  assert (Hc3 : 0 <= c <= 2) by (destruct Hc as [[-> _]|[[-> _]|[-> _]]]; lia).
  assert (E : Prim2SF (frac * float_of_int W)
              = Prim2SF (float_of_int W * frac)).
  { rewrite !mul_spec. apply SFmul_comm. }
  rewrite py_int_scaled by (rewrite E; exact Fx).
  rewrite E, Sx. f_equal. change (2 ^ 1074) with (2 * 2 ^ 1073).
  rewrite Z.quot_mul_cancel_r by (try lia; apply Z.pow_nonzero; lia).
  apply Z.quot_div_nonneg; nia.
Qed.

End GroundTruthFacts.

Module GroundTruthClaims.
Import Calib Steps SFExact StepFacts GroundTruthFacts.

(** X16.  The point the evaluation takes as ground truth is the centre of
    the marker only for the fraction 0.5.  In a window of 80 to 2^52 - 1
    pixels along an axis, for every anchor and each of its fractions, the
    integer part [g] of the ground truth [frac * extent] of lines 143-144
    and the corner [x] of the 80-pixel marker of lines 85-88 satisfy: for
    the fraction 0, [g = 0] and the centre of the marker is 40; for the
    fraction 0.5, [g] and the centre are both [extent // 2]; for the
    fraction 1, [g = extent] and the centre is [extent - 40]. *)
Theorem ground_truth_and_marker_centre :
  forall (extent : Z) (step : nat) (name : string) (x_frac y_frac : float)
         (key : string),
    DOT <= extent < 2 ^ 52 ->
    nth_error positions step = Some (name, (x_frac, y_frac, key)) ->
    forall frac, frac = x_frac \/ frac = y_frac ->
    exists x g,
      marker_axis extent DOT frac = Ok x
      /\ py_int (frac * float_of_int extent) = Ok g
      /\ ((g = 0 /\ x + DOT / 2 = 40)
          \/ (g = extent / 2 /\ x + DOT / 2 = extent / 2)
          \/ (g = extent /\ x + DOT / 2 = extent - 40)).
Proof.
  intros extent step name xf yf key He E frac Hf. unfold DOT in *.
  destruct (anchor_halves _ _ _ _ _ E) as (cx & cy & Hx & Hy).
  assert (Hc : exists c, halves frac c)
    by (destruct Hf as [-> | ->]; eauto).
  destruct Hc as [c Hc].
  rewrite (marker_axis_value extent 80 c frac ltac:(lia) ltac:(lia) Hc).
  rewrite (py_int_ground_truth extent c frac ltac:(lia) Hc).
  eexists. eexists. split; [reflexivity|]. split; [reflexivity|].
  change (80 / 2) with 40.
  destruct Hc as [[-> _]|[[-> _]|[-> _]]].
  - left. split; [reflexivity|]. Z.to_euclidean_division_equations. lia.
  - right. left. rewrite Z.mul_1_l. split; [reflexivity|].
    Z.to_euclidean_division_equations. lia.
  - right. right. split; Z.to_euclidean_division_equations; lia.
Qed.

End GroundTruthClaims.

(** ** The side of the screen the pointer is sent to *)

Module DirectionFacts.
Import SFFacts FloatFacts SFClass SFOrder SFExact MappingSpec ModelFacts.

Lemma rounded_signed s f : rounded s f -> signed s f.
Proof.
  intros [|m e|]; [left; eauto|right; constructor|right; constructor].
Qed.

Lemma binary_normalize_sign z e :
  (0 <= z -> signed false (binary_normalize prec emax z e false))
  /\ (z <= 0 -> signed true (binary_normalize prec emax z e false)).
Proof.
  destruct z as [|p|p]; cbn [binary_normalize]; split; intros Hz; try lia.
  - left. eauto.
  - left. eauto.
  - apply rounded_signed, binary_round_rounded.
  - apply rounded_signed, binary_round_rounded.
Qed.

Lemma aligned_difference sx mx ex sy my ey :
  -1074 <= ex -> -1074 <= ey ->
  (cond_Zopp sx (Zpos (fst (shl_align mx ex (Z.min ex ey))))
   - cond_Zopp sy (Zpos (fst (shl_align my ey (Z.min ex ey)))))
  * 2 ^ (Z.min ex ey + 1074)
  = scaled (S754_finite sx mx ex) - scaled (S754_finite sy my ey).
Proof.
  intros Hx Hy. rewrite Z.mul_sub_distr_r, !scaled_aligned by lia.
  reflexivity.
Qed.

(** The sign of [a - b] for a finite [b]: not negative when [b <= a], not
    positive when [a <= b]. *)
Lemma SFsub_sign a b :
  valid_binary a = true -> valid_binary b = true -> sf_finite b = true ->
  (SFleb b a = true -> signed false (SF64sub a b))
  /\ (SFleb a b = true -> signed true (SF64sub a b)).
Proof.
  intros Va Vb Fb.
  destruct b as [sb|sb| |sb mb eb]; try discriminate;
    destruct a as [sa|sa| |sa ma ea]; unfold SF64sub; cbn [SFsub].
  - split; intros _; left; destruct sa, sb; eauto.
  - destruct sa; split; intros H; try discriminate H;
      right; constructor.
  - split; discriminate.
  - destruct sa; split; intros H; try discriminate H; right; constructor.
  - destruct sb; split; intros H; try discriminate H; right; constructor.
  - destruct sa; split; intros H; try discriminate H;
      right; constructor.
  - split; discriminate.
  - destruct (valid_finite_bounds _ _ _ Va) as (Hea & _).
    destruct (valid_finite_bounds _ _ _ Vb) as (Heb & _).
    pose proof (aligned_difference sa ma ea sb mb eb Hea Heb) as Hz.
    set (z := cond_Zopp sa (Zpos (fst (shl_align ma ea (Z.min ea eb))))
              - cond_Zopp sb (Zpos (fst (shl_align mb eb (Z.min ea eb))))) in *.
    assert (Hp : 0 < 2 ^ (Z.min ea eb + 1074))
      by (apply Z.pow_pos_nonneg; lia).
    destruct (binary_normalize_sign z (Z.min ea eb)) as [Hpos Hneg].
    split; intros Hle.
    + apply Hpos.
      pose proof (scaled_le _ _ Vb Va eq_refl eq_refl Hle). nia.
    + apply Hneg.
      pose proof (scaled_le _ _ Va Vb eq_refl eq_refl Hle). nia.
Qed.

(** The product by the double of 1 or -1 and then by a gain. *)
Lemma SFmul_unit_sign t m e s x :
  signed s x -> signed (xorb t s) (SF64mul (S754_finite t m e) x).
Proof.
  intros [[s' ->]|Hx]; unfold SF64mul; cbn [SFmul].
  - left. eauto.
  - destruct Hx as [mx ex|]; cbn [SFmul].
    + apply rounded_signed, binary_round_aux_rounded. lia.
    + right. constructor.
Qed.

Lemma SFmul_gain_sign s x g :
  signed s x -> nonneg_finite g ->
  SF64mul x g = S754_nan \/ signed s (SF64mul x g).
Proof.
  intros [[s' ->]|Hx] [->|(mg & eg & ->)]; unfold SF64mul; cbn [SFmul].
  - right. left. eauto.
  - right. left. eauto.
  - destruct Hx as [mx ex|]; cbn [SFmul]; [right; left; eauto|left; reflexivity].
  - destruct Hx as [mx ex|]; cbn [SFmul]; right.
    + rewrite xorb_false_r. apply rounded_signed, binary_round_aux_rounded. lia.
    + rewrite xorb_false_r. right. constructor.
Qed.

Lemma trunc_sf_sign s f i :
  signed s f -> trunc_sf f = Some i ->
  (s = false -> 0 <= i) /\ (s = true -> i <= 0).
Proof.
  intros [[s' ->]|Hf]; cbn [trunc_sf].
  - intros [= <-]. split; lia.
  - destruct Hf as [m e|]; cbn [trunc_sf]; [|discriminate].
    intros [= <-].
    assert (Hn : 0 <= match e with
                      | Zneg p => Z.shiftr (Zpos m) (Zpos p)
                      | _ => Z.shiftl (Zpos m) e
                      end).
    { destruct e; [apply Z.shiftl_nonneg|apply Z.shiftl_nonneg
                   |apply Z.shiftr_nonneg]; lia. }
    destruct s; cbn [cond_Zopp]; split; intros; try discriminate; lia.
Qed.

Lemma py_int_sign s x i :
  (Prim2SF x = S754_nan \/ signed s (Prim2SF x)) -> py_int x = Ok i ->
  (s = false -> 0 <= i) /\ (s = true -> i <= 0).
Proof.
  unfold py_int. intros [E|Hs].
  - rewrite E. discriminate.
  - destruct (Prim2SF x) as [s0|s0| |s0 m e] eqn:E; try discriminate.
    + destruct (trunc_sf (S754_zero s0)) as [z|] eqn:Et; [|discriminate].
      intros [= <-]. eapply trunc_sf_sign; eassumption.
    + destruct (trunc_sf (S754_finite s0 m e)) as [z|] eqn:Et; [|discriminate].
      intros [= <-]. eapply trunc_sf_sign; eassumption.
Qed.

(** Lines 90-96, one axis: the side of the centre the point falls on. *)
Lemma project_axis_side W dir d c S i :
  1 <= W -> (dir = 1 \/ dir = -1) ->
  finite c = true -> nonneg_finite (Prim2SF S) ->
  project_axis W dir (d - c) S = Ok i ->
  ((c <=? d)%float = true ->
   if dir =? 1 then W / 2 <= clamp W i else clamp W i <= W / 2)
  /\ ((d <=? c)%float = true ->
      if dir =? 1 then clamp W i <= W / 2 else W / 2 <= clamp W i).
Proof.
  intros HW Hdir Fc HS. unfold project_axis.
  destruct (py_int (float_of_int dir * (d - c) * S)) as [z|] eqn:Ez;
    cbn [bind]; [|discriminate].
  intros [= <-].
  assert (Hd : exists t m e,
             Prim2SF (float_of_int dir) = S754_finite t m e
             /\ t = negb (dir =? 1)).
  { destruct Hdir as [-> | ->]; do 3 eexists; split;
      vm_compute; reflexivity. }
  destruct Hd as (t & m & e & Hd & Ht).
  destruct (SFsub_sign (Prim2SF d) (Prim2SF c) (Prim2SF_valid _)
              (Prim2SF_valid _) Fc) as [Hpos Hneg].
  assert (Hhalf : 0 <= W / 2 <= W - 1).
  { split; [apply Z.div_pos; lia|].
    Z.to_euclidean_division_equations. lia. }
  assert (Hside : forall s, signed s (Prim2SF (d - c)) ->
                  (xorb t s = false -> 0 <= z) /\ (xorb t s = true -> z <= 0)).
  { intros s Hs.
    apply (py_int_sign (xorb t s) (float_of_int dir * (d - c) * S)%float z);
      [|exact Ez].
    rewrite mul_spec. apply SFmul_gain_sign; [|exact HS].
    rewrite mul_spec, Hd. apply SFmul_unit_sign. exact Hs. }
  unfold clamp.
  split; intros Hle.
  - rewrite leb_spec in Hle. specialize (Hpos Hle).
    rewrite <- sub_spec in Hpos.
    destruct (Hside false Hpos) as [H1 H2]. rewrite xorb_false_r in H1, H2.
    destruct (dir =? 1); cbn [negb] in Ht; subst t.
    + specialize (H1 eq_refl). lia.
    + specialize (H2 eq_refl). lia.
  - rewrite leb_spec in Hle. specialize (Hneg Hle).
    rewrite <- sub_spec in Hneg.
    destruct (Hside true Hneg) as [H1 H2]. rewrite xorb_true_r in H1, H2.
    destruct (dir =? 1); cbn [negb] in Ht; subst t.
    + specialize (H2 eq_refl). lia.
    + specialize (H1 eq_refl). lia.
Qed.

End DirectionFacts.

Module DirectionClaims.
Import MappingSpec ModelFacts DirectionFacts.

(** X17.  The horizontal axis is mirrored and the vertical axis is not.
    On a table of records of the persisted shape with finite mean offsets
    and a "Center" record, whenever a sample is projected: a horizontal
    offset at or above the Center's sends the point to the left half,
    [screen_x <= screen_w // 2], and one at or below it to the right half;
    a vertical offset at or above the Center's sends the point to the
    lower half, [screen_y >= screen_h // 2], and one at or below it to the
    upper half. *)
Theorem pointer_side_follows_offset_side :
  forall (cal : calibration) (W H : Z) (a b cdx cdy w dx dy : float)
         (x y : Z),
    finite_table cal = true ->
    lookup "Center" cal = Ok [a; b; cdx; cdy; w] ->
    1 <= W < 2 ^ 53 -> 1 <= H < 2 ^ 53 ->
    project cal W H dx dy = Ok (x, y) ->
    ((cdx <=? dx)%float = true -> x <= W / 2)
    /\ ((dx <=? cdx)%float = true -> W / 2 <= x)
    /\ ((cdy <=? dy)%float = true -> H / 2 <= y)
    /\ ((dy <=? cdy)%float = true -> y <= H / 2).
Proof.
  intros cal W H a b cdx cdy w dx dy x y Hfin Hc HW HH.
  destruct (calibration_model_built cal W H a b cdx cdy w Hfin Hc HW HH)
    as (SX & SY & Hm & HSX & HSY).
  pose proof (lookup_finite _ _ _ Hfin Hc) as Hrow. cbn in Hrow.
  apply andb_prop in Hrow as [Fx Fy].
  unfold project. rewrite Hm. cbn [bind project_with].
  destruct (project_axis W dir_x (dx - cdx) SX) as [ix|] eqn:Ex; cbn [bind];
    [|discriminate].
  destruct (project_axis H dir_y (dy - cdy) SY) as [iy|] eqn:Ey; cbn [bind];
    [|discriminate].
  intros [= <- <-].
  destruct (project_axis_side W dir_x dx cdx SX ix ltac:(lia)
              ltac:(right; reflexivity) Fx HSX Ex) as [X1 X2].
  destruct (project_axis_side H dir_y dy cdy SY iy ltac:(lia)
              ltac:(left; reflexivity) Fy HSY Ey) as [Y1 Y2].
  change (dir_x =? 1) with false in X1, X2.
  change (dir_y =? 1) with true in Y1, Y2.
  auto.
Qed.

End DirectionClaims.

(** ** Worked instances of the further properties *)

Module MoreInstances.
Import DwellSpec MappingSpec ClickFacts ClickClaims WindowFacts WindowClaims
  Interface Calib Steps StepFacts StepClaims GainClaims ReportFacts
  ReportClaims GroundTruthClaims DirectionClaims.

(** X2, witness: the third tick of a dwell on the centre button. *)
Lemma click_only_on_hovered_button_witness :
  exists pt,
    project table 1920 1080 0 0 = Ok pt
    /\ (forall i,
          clicked clicking = Some i <->
          on_target [corner_button; centre_button] i pt
          /\ hovered_button (dwell dwelt) = Some i
          /\ hasExpired never (hover_timer (dwell dwelt)) 2100 DWELL_MS = true)
    /\ (forall i, clicked clicking = Some i -> dwell clicked_1 = fired i)
    /\ (hovered_button (dwell dwelt) = None -> clicked clicking = None).
Proof.
  apply (click_only_on_hovered_button never table dwelt clicked_1
           (tick 0 0 2100) clicking).
  vm_compute. reflexivity.
Defined.

(** X4, witness: four ticks on the centre button, at 0, 1000, 2100 and
    2200 ms, with a timer that reports expiry when it is invalid: the tick
    at 2100 clicks after the full dwell, and the tick at 2200 clicks again
    within the same gaze. *)
Lemma click_needs_full_dwell_witness :
  exists before enter during first more e_before e_during e_first e_more,
    [tick 0 0 0; tick 0 0 1000; tick 0 0 2100] ++ [tick 0 0 2200]
      = before ++ enter :: during ++ first :: more
    /\ [ {| moved_to := (192, 108); clicked := None |};
         {| moved_to := (345, 194); clicked := None |};
         clicking ] ++ [clicking_again]
       = e_before ++ e_during ++ e_first :: e_more
    /\ length e_before = length before
    /\ length e_during = S (length during)
    /\ Forall (gaze_on table 1) (enter :: during ++ first :: more)
    /\ Forall no_click e_during
    /\ clicked e_first = Some 1%nat
    /\ DWELL_MS < now first - now enter.
Proof.
  apply (click_needs_full_dwell always table start
           {| prev_cursor_pos := (566, 318); dwell := fired 1 |}
           [tick 0 0 0; tick 0 0 1000; tick 0 0 2100] (tick 0 0 2200)
           [ {| moved_to := (192, 108); clicked := None |};
             {| moved_to := (345, 194); clicked := None |};
             clicking ]
           clicking_again 1%nat).
  - reflexivity.
  - vm_compute. reflexivity.
  - reflexivity.
Defined.

(** X5, witness: two more ticks on the centre button after the click. *)
Lemma click_repeats_witness :
  Forall (fun e => clicked e = Some 1%nat)
    [ {| moved_to := (566, 318); clicked := Some 1%nat |};
      {| moved_to := (644, 362); clicked := Some 1%nat |} ]
  /\ dwell {| prev_cursor_pos := (644, 362); dwell := fired 1 |} = fired 1.
Proof.
  apply (click_repeats_when_invalid_timer_expires always table 1%nat
           [tick 0 0 2200; tick 0 0 2300] clicked_1).
  - reflexivity.
  - reflexivity.
  - repeat constructor; exists (960, 540); split; vm_compute; reflexivity.
  - vm_compute. reflexivity.
Defined.

(** X6, witness: button 7 and the point (150, 150). *)
Lemma button_hit_area_witness :
  contains (btn_rect button7) (150, 150) = true <->
  100 <= 150 <= 100 + (199 - 0) /\ 100 <= 150 <= 100 + (99 - 0).
Proof.
  apply (button_hit_area button7 150 150).
  unfold sized. cbn. lia.
Defined.

(** X7, witness: the gaze has dwelt on the centre button of the menu since
    0 ms.  When the menu is switched to a screen with the centre button and
    the tick at 2100 ms reads the centre sample, the button of the new
    screen is clicked on the dwell begun before the switch.  When it is
    switched to the final-message screen, which has no [buttons], the tick
    clicks nothing and leaves nothing hovered, and [show_final_message]
    does the same with the message kept. *)
Lemma tick_after_switch_screen_witness :
  (current_widget food_clicked = screen_id food_screen
   /\ hovered_button (dwell (gaze_state menu_dwelt)) = Some 1%nat
   /\ exists btns b,
        screen_buttons food_screen = Some btns /\ In b btns
        /\ btn_id b = 1%nat)
  /\ (clicked unclicked = None /\ dwell (gaze_state final_shown) = idle)
  /\ on_timeout always table (show_final_message menu_dwelt "Thank you")
       late_reading
     = Ok ({| current_widget := current_widget final_shown;
              self_buttons := self_buttons final_shown;
              final_message_screen := final_message_screen final_shown;
              final_message := Some "Thank you"%string;
              gaze_state := gaze_state final_shown |}, unclicked).
Proof.
  pose proof (tick_after_switch_screen always table menu_dwelt food_clicked
                food_screen late_reading clicking
                ltac:(vm_compute; reflexivity)) as (Hw & Hclick & _ & _).
  pose proof (tick_after_switch_screen always table menu_dwelt final_shown
                final_screen late_reading unclicked
                ltac:(vm_compute; reflexivity)) as (_ & _ & Hnone & Hfinal).
  split; [|split].
  - split; [exact Hw|]. apply (Hclick 1%nat). reflexivity.
  - apply Hnone. reflexivity.
  - apply Hfinal. reflexivity.
Defined.

(** X8, witness: two ticks on a 1920 x 1080 screen. *)
Lemma pointer_stays_on_screen_witness :
  Forall (fun e => on_screen 1920 1080 (moved_to e))
    [ {| moved_to := (192, 108); clicked := None |};
      {| moved_to := (345, 194); clicked := None |} ]
  /\ on_screen 1920 1080 (prev_cursor_pos dwelt).
Proof.
  apply (pointer_stays_on_screen never table 1920 1080
           [tick 0 0 0; tick 0 0 100] start).
  - lia.
  - lia.
  - repeat constructor.
  - unfold on_screen. cbn. lia.
  - vm_compute. reflexivity.
Defined.

(** X9, witness: the sample table on a 1920 x 1080 screen. *)
Lemma gains_are_capped_witness :
  exists SX SY,
    calibration_model table 1920 1080 = Ok (SX, SY, 0%float, 0%float)
    /\ finite SX = true /\ finite SY = true
    /\ (0 <=? SX)%float = true /\ (SX <=? 40000)%float = true
    /\ (0 <=? SY)%float = true /\ (SY <=? 40000)%float = true.
Proof.
  apply (gains_are_capped table 1920 1080 30 0 0 0 100).
  - vm_compute. reflexivity.
  - vm_compute. reflexivity.
  - lia.
  - lia.
Defined.

(** X10, witness: the prediction (100.5, 200.25). *)
Lemma heat_cell_witness :
  (forall c, heat_cell 1920 1080 (100.5, 200.25)%float = Ok c ->
             0 <= fst c <= 1080 - 1 /\ 0 <= snd c <= 1920 - 1)
  /\ (finite 100.5 = true -> finite 200.25 = true ->
      exists x y,
        py_int 100.5 = Ok x /\ py_int 200.25 = Ok y
        /\ heat_cell 1920 1080 (100.5, 200.25)%float
           = Ok (clamp 1080 y, clamp 1920 x))
  /\ (finite 100.5 = false \/ finite 200.25 = false ->
      heat_cell 1920 1080 (100.5, 200.25)%float = Raise OverflowError
      \/ heat_cell 1920 1080 (100.5, 200.25)%float = Raise ValueError).
Proof.
  apply (heat_cell_within_the_map 1920 1080 (100.5, 200.25)%float); lia.
Defined.

(** X11, witness: two pairs, with the errors 5 and 50. *)
Lemma summary_percentages_witness :
  accuracy_thresholds_px
    (summarize (fun x => x)
       [((3, 4), (0, 0)); ((30, 40), (0, 0))]%float)
  = [20; 40; 60; 80; 100]
  /\ exists a1 a2 a3 a4 a5,
       accuracy_percentages
         (summarize (fun x => x)
            [((3, 4), (0, 0)); ((30, 40), (0, 0))]%float)
       = [a1; a2; a3; a4; a5]
       /\ (0 <=? a1)%float = true /\ (a1 <=? a2)%float = true
       /\ (a2 <=? a3)%float = true /\ (a3 <=? a4)%float = true
       /\ (a4 <=? a5)%float = true /\ (a5 <=? 100)%float = true.
Proof.
  apply (summary_percentages_ordered (fun x => x)
           [((3, 4), (0, 0)); ((30, 40), (0, 0))]%float).
  cbn [length]. lia.
Defined.

(** X12, witness: a window 1920 pixels wide and markers of 80 pixels. *)
Lemma markers_witness :
  marker_axis 1920 80 0 = Ok 0
  /\ marker_axis 1920 80 0.5 = Ok (1920 / 2 - 80 / 2)
  /\ marker_axis 1920 80 1 = Ok (1920 - 80)
  /\ (forall step name x_frac y_frac key,
        nth_error positions step = Some (name, (x_frac, y_frac, key)) ->
        exists x y,
          marker_axis 1920 80 x_frac = Ok x
          /\ marker_axis 1920 80 y_frac = Ok y
          /\ 0 <= x /\ x + 80 <= 1920 /\ 0 <= y /\ y + 80 <= 1920).
Proof.
  apply (markers_lie_within_the_window 1920 80).
  - lia.
  - reflexivity.
Defined.

(** X13, witness: the first marker, "q", a key that is not awaited, and the
    second marker. *)
Lemma one_marker_shown_witness :
  (current_step second_step <= 9)%nat
  /\ map fst (labels second_step) = map fst positions
  /\ (forall name l,
        In (name, l) (labels second_step) -> label_visible l = true ->
        exists v, nth_error positions (current_step second_step)
                  = Some (name, v))
  /\ (length (shown (labels second_step)) <= 1)%nat.
Proof.
  apply (one_marker_shown calibration recording_call recorded [] 1920 1080
           first_events second_step first_actions).
  vm_compute. reflexivity.
Defined.

(** X14, witness: the same events. *)
Lemma anchors_calibrated_in_order_witness :
  calibrated first_actions = firstn (current_step second_step) anchor_keys
  /\ (forall a1 cal a2,
        first_actions = a1 ++ Dump cal :: a2 -> calibrated a1 = anchor_keys).
Proof.
  apply (anchors_calibrated_in_order calibration recording_call recorded []
           1920 1080 first_events second_step first_actions).
  vm_compute. reflexivity.
Defined.

(** X15, witness: the same events on the recording tracker. *)
Lemma calibration_never_raises_witness :
  exists w acts,
    handle_all recording_call recorded (fst (Steps.init [] 1920 1080))
      first_events = Ok (w, acts)
    /\ (forall name x_frac y_frac key,
          nth_error positions (current_step w)
            = Some (name, (x_frac, y_frac, key)) ->
          exists w' a,
            keyPressEvent recording_call recorded w key = Ok (w', a)
            /\ current_step w' = S (current_step w))
    /\ (forall key_char,
          (forall name x_frac y_frac key,
              nth_error positions (current_step w)
                = Some (name, (x_frac, y_frac, key)) ->
              key_char <> key) ->
          keyPressEvent recording_call recorded w key_char = Ok (w, [])).
Proof.
  apply (calibration_never_raises calibration recording_call recorded []
           1920 1080 first_events).
  - intros t name key_char. eexists. split.
    + cbn [recorded recording_call lookup]. rewrite String.eqb_refl.
      reflexivity.
    + reflexivity.
  - lia.
  - lia.
Defined.

(** X16, witness: the Center anchor in a window 1920 pixels wide. *)
Lemma ground_truth_and_marker_centre_witness :
  exists x g,
    marker_axis 1920 DOT 0.5 = Ok x
    /\ py_int (0.5 * float_of_int 1920) = Ok g
    /\ ((g = 0 /\ x + DOT / 2 = 40)
        \/ (g = 1920 / 2 /\ x + DOT / 2 = 1920 / 2)
        \/ (g = 1920 /\ x + DOT / 2 = 1920 - 40)).
Proof.
  apply (ground_truth_and_marker_centre 1920 4 "Center" 0.5 0.5 "c").
  - unfold DOT. lia.
  - reflexivity.
  - left. reflexivity.
Defined.

(** X17, witness: a sample to the side of larger [dx] and smaller [dy] than
    the Center's, on the sample table. *)
Lemma pointer_side_witness :
  ((0 <=? 0.0078125)%float = true -> 810 <= 1920 / 2)
  /\ ((0.0078125 <=? 0)%float = true -> 1920 / 2 <= 810)
  /\ ((0 <=? -0.0078125)%float = true -> 1080 / 2 <= 372)
  /\ ((-0.0078125 <=? 0)%float = true -> 372 <= 1080 / 2).
Proof.
  apply (pointer_side_follows_offset_side table 1920 1080 30 0 0 0 100
           0.0078125 (-0.0078125) 810 372).
  - vm_compute. reflexivity.
  - vm_compute. reflexivity.
  - lia.
  - lia.
  - vm_compute. reflexivity.
Defined.

End MoreInstances.
